(** * cactus::ffi — the JSON-like protocol layer of [ffi_utils.h]

    A shallow embedding of the decoders and encoders of
    [cactus/ffi/ffi_utils.h] and the properties its specification states
    about them.

    Data model
    - [std::string] is a list of 8-bit characters ([str]);
    - [size_t] is a 64-bit unsigned integer, kept in [Z] with its
      wrap-around written out ([wrap]); [std::string::npos] is [2^64 - 1];
    - [int] is a 32-bit signed integer whose overflow is undefined;
    - [float] and [double] are IEEE-754 binary32 and binary64 numbers
      ([spec_float] of the standard library);
    - a C++ call either returns, throws, runs into undefined behaviour
      (an out-of-range [operator[]], a signed overflow) or is still
      running when the fuel given to its loops is used up ([result]). *)

From Stdlib Require Import ZArith List Ascii String Bool Lia SpecFloat.
Import ListNotations.
Open Scope Z_scope.
Open Scope bool_scope.

(** ** Characters and text *)

Definition str := list ascii.

Definition dquote : ascii := "034"%char.
Definition squote : ascii := "039"%char.
Definition backslash : ascii := "092"%char.
Definition newline : ascii := "010"%char.
Definition carriage : ascii := "013"%char.
Definition tab : ascii := "009"%char.
Definition space : ascii := "032"%char.
Definition nul : ascii := "000"%char.
Definition lbrace : ascii := "{"%char.
Definition rbrace : ascii := "}"%char.
Definition lbracket : ascii := "["%char.
Definition rbracket : ascii := "]"%char.
Definition colon : ascii := ":"%char.
Definition backquote : ascii := "096"%char.

(** A text literal. *)
Definition lit (s : string) : str := list_ascii_of_string s.

(** A text literal in which every backquote stands for a double quote, so
    that JSON test inputs stay readable. *)
Definition jq (s : string) : str :=
  map (fun c => if Ascii.eqb c backquote then dquote else c) (lit s).

(** [quoted s] is [s] between two double quotes. *)
Definition quoted (s : str) : str := dquote :: s ++ [dquote].

(** ** Outcomes of a C++ call *)

Inductive exn : Type :=
| runtime_error (what : str)
| out_of_range
| invalid_argument.

Inductive result (A : Type) : Type :=
| Ok (a : A)
| Throw (e : exn)
| Undefined
| OutOfFuel.

Arguments Ok {A} a.
Arguments Throw {A} e.
Arguments Undefined {A}.
Arguments OutOfFuel {A}.

Definition bind {A B} (c : result A) (k : A -> result B) : result B :=
  match c with
  | Ok a => k a
  | Throw e => Throw e
  | Undefined => Undefined
  | OutOfFuel => OutOfFuel
  end.

Declare Scope result_scope.
Delimit Scope result_scope with result.
Notation "x <- c ;; k" := (bind c (fun x => k))
  (at level 61, c at next level, right associativity) : result_scope.
Notation "' p <- c ;; k" := (bind c (fun x => match x with p => k end))
  (at level 61, p pattern, c at next level, right associativity) : result_scope.
Open Scope result_scope.

(** ** [size_t] and [int] *)

Definition size_modulus : Z := 2 ^ 64.
Definition npos : Z := size_modulus - 1.
Definition wrap (z : Z) : Z := z mod size_modulus.

Definition INT_MAX : Z := 2 ^ 31 - 1.
Definition INT_MIN : Z := - 2 ^ 31.

(** Signed addition: overflow is undefined behaviour. *)
Definition int_add (x y : Z) : result Z :=
  let r := x + y in
  if (INT_MIN <=? r) && (r <=? INT_MAX) then Ok r else Undefined.

Definition b2z (b : bool) : Z := if b then 1 else 0.

(** ** [std::string] *)

Module StdString.

Definition size (s : str) : Z := Z.of_nat (List.length s).

Fixpoint starts_with (p s : str) : bool :=
  match p, s with
  | [], _ => true
  | _ :: _, [] => false
  | a :: p', b :: s' => Ascii.eqb a b && starts_with p' s'
  end.

(** Offset of the first occurrence of [p] in [s]. *)
Fixpoint index_of (p s : str) : option nat :=
  if starts_with p s then Some O
  else match s with
       | [] => None
       | _ :: s' => option_map S (index_of p s')
       end.

(** [s.find(p, pos)] *)
Definition find (s p : str) (pos : Z) : Z :=
  if size s <? pos then npos
  else match index_of p (skipn (Z.to_nat pos) s) with
       | Some k => pos + Z.of_nat k
       | None => npos
       end.

(** [s.find(c, pos)] *)
Definition find_chr (s : str) (c : ascii) (pos : Z) : Z := find s [c] pos.

(** Offset of the last occurrence of [c] in [s]. *)
Fixpoint last_index_of (c : ascii) (s : str) : option nat :=
  match s with
  | [] => None
  | x :: s' =>
      match last_index_of c s' with
      | Some k => Some (S k)
      | None => if Ascii.eqb x c then Some O else None
      end
  end.

(** [s.rfind(c)] *)
Definition rfind_chr (s : str) (c : ascii) : Z :=
  match last_index_of c s with
  | Some k => Z.of_nat k
  | None => npos
  end.

(** [s.substr(pos, n)]: throws when [pos > size()], and clamps [n]. *)
Definition substr (s : str) (pos n : Z) : result str :=
  if size s <? pos then Throw out_of_range
  else Ok (firstn (Z.to_nat (Z.min n (size s - pos))) (skipn (Z.to_nat pos) s)).

(** [s.substr(pos)] *)
Definition substr_from (s : str) (pos : Z) : result str := substr s pos npos.

(** [s[i]]: defined for [i <= size()], the character at [size()] being
    the terminator. *)
Definition index (s : str) (i : Z) : result ascii :=
  if i <? size s then
    match nth_error s (Z.to_nat i) with
    | Some c => Ok c
    | None => Undefined
    end
  else if i =? size s then Ok nul
  else Undefined.

(** [s.replace(pos, n, r)] *)
Definition replace (s : str) (pos n : Z) (r : str) : result str :=
  if size s <? pos then Throw out_of_range
  else
    let k := Z.to_nat (Z.min n (size s - pos)) in
    Ok (firstn (Z.to_nat pos) s ++ r ++ skipn k (skipn (Z.to_nat pos) s)).

End StdString.

Import StdString.

(** ** [parse_function_calls_from_response] *)

Definition FUNCTION_CALL_MARKER : str := quoted (lit "function_call").

Record DecodedResponse : Type := {
  regular_response : str;
  function_calls : list str
}.

Section ResponseDecoder.

(** Fuel given to each loop. *)
Variable fuel : nat.

(** The balanced-brace scan of lines 227-231. *)
Fixpoint fc_brace_scan (n : nat) (response_text : str) (json_end brace_count : Z)
  : result (Z * Z) :=
  if (json_end <? size response_text) && (0 <? brace_count) then
    match n with
    | O => OutOfFuel
    | S n' =>
        c <- index response_text json_end ;;
        brace_count' <- int_add brace_count
                          (b2z (Ascii.eqb c lbrace) - b2z (Ascii.eqb c rbrace)) ;;
        fc_brace_scan n' response_text (wrap (json_end + 1)) brace_count'
    end
  else Ok (json_end, brace_count).

(** One turn of the loop of lines 218-242: [inl] is a [break]. *)
Definition fc_body (response_text : str) (search_pos : Z) (st : DecodedResponse)
  : result (DecodedResponse + Z * DecodedResponse) :=
  let marker_pos := find response_text FUNCTION_CALL_MARKER search_pos in
  if marker_pos =? npos then Ok (inl st) else
  let json_start := find_chr response_text lbrace marker_pos in
  if json_start =? npos then Ok (inl st) else
  '(json_end, brace_count) <-
      fc_brace_scan fuel response_text (wrap (json_start + 1)) 1 ;;
  st' <- (if brace_count =? 0 then
            call <- substr response_text json_start (wrap (json_end - json_start)) ;;
            rr <- substr response_text 0 marker_pos ;;
            let last_bracket := rfind_chr rr lbrace in
            rr' <- (if last_bracket =? npos then Ok rr
                    else substr rr 0 last_bracket) ;;
            Ok {| regular_response := rr';
                  function_calls := function_calls st ++ [call] |}
          else Ok st) ;;
  Ok (inr (json_end, st')).

Fixpoint fc_loop (n : nat) (response_text : str) (search_pos : Z)
  (st : DecodedResponse) : result DecodedResponse :=
  if search_pos <? size response_text then
    match n with
    | O => OutOfFuel
    | S n' =>
        r <- fc_body response_text search_pos st ;;
        match r with
        | inl st' => Ok st'
        | inr (search_pos', st') => fc_loop n' response_text search_pos' st'
        end
    end
  else Ok st.

Definition parse_function_calls_from_response (response_text : str)
  : result DecodedResponse :=
  fc_loop fuel response_text 0
    {| regular_response := response_text; function_calls := [] |}.

End ResponseDecoder.

(** ** [handle_error_response] *)

(** The text of a C string: the bytes before the first terminator. *)
Fixpoint c_string (mem : str) : str :=
  match mem with
  | [] => []
  | c :: mem' => if Ascii.eqb c nul then [] else c :: c_string mem'
  end.

(** [std::string::c_str]: the bytes of the string, followed by a
    terminator. *)
Definition c_str (s : str) : str := s ++ [nul].

(** The destination is the memory behind [response_buffer]: [None] is a
    null pointer, [Some mem] the bytes the caller owns from that address
    on.  [strcpy] copies the bytes of [src] up to and including its
    first terminator, and nothing after it; writing past the owned
    bytes is undefined. *)
Definition strcpy (mem : str) (src : str) : result str :=
  let text := c_string src in
  if size text + 1 <=? size mem
  then Ok (text ++ [nul] ++ skipn (S (List.length text)) mem)
  else Undefined.

Definition sanitize_char (c : ascii) : ascii :=
  let c := if Ascii.eqb c dquote then squote else c in
  if Ascii.eqb c newline then space else c.

Definition error_json_of (error_message : str) : str :=
  lit "{" ++ quoted (lit "success") ++ lit ":false," ++ quoted (lit "error") ++ lit ":"
    ++ [dquote] ++ map sanitize_char error_message ++ [dquote] ++ lit "}".

(** The function returns [void]: the only result is the destination. *)
Definition handle_error_response (error_message : str)
  (response_buffer : option str) (buffer_size : Z) : result (unit * option str) :=
  let error_json := error_json_of error_message in
  match response_buffer with
  | Some mem =>
      if size error_json <? buffer_size then
        mem' <- strcpy mem (c_str error_json) ;;
        Ok (tt, Some mem')
      else Ok (tt, response_buffer)
  | None => Ok (tt, response_buffer)
  end.

(** ** [parse_messages_json] *)

(** Modelled from the spec: [cactus::engine::ChatMessage] is declared in
    [engine/engine.h], which is not part of the sources at hand; the
    specification gives it as a record of a role and a content text. *)
Record ChatMessage : Type := {
  role : str;
  content : str
}.

Section MessageDecoder.

Variable fuel : nat.

(** Lines 58-63: the end of the content text is the first double quote
    that no backslash precedes. *)
Fixpoint content_end_scan (n : nat) (json : str) (content_end : Z) : result Z :=
  if content_end <? size json then
    match n with
    | O => OutOfFuel
    | S n' =>
        let content_end := find_chr json dquote content_end in
        if content_end =? npos then Ok content_end else
        c <- index json (wrap (content_end - 1)) ;;
        if negb (Ascii.eqb c backslash) then Ok content_end else
        content_end_scan n' json (wrap (content_end + 1))
    end
  else Ok content_end.

(** Lines 67-71 and 72-76: replace each occurrence of the two-character
    text [pat] by [rep], searching on from just after the replacement. *)
Fixpoint unescape_loop (n : nat) (pat rep content : str) (escape_pos : Z)
  : result str :=
  let escape_pos := find content pat escape_pos in
  if escape_pos =? npos then Ok content else
  match n with
  | O => OutOfFuel
  | S n' =>
      content' <- replace content escape_pos 2 rep ;;
      unescape_loop n' pat rep content' (wrap (escape_pos + 1))
  end.

Definition ESC_N : str := [backslash; "n"%char].
Definition ESC_QUOTE : str := [backslash; dquote].

(** One turn of the loop of lines 42-81: [inl] is a [break]. *)
Definition msg_body (json : str) (pos : Z) (messages : list ChatMessage)
  : result (list ChatMessage + Z * list ChatMessage) :=
  let role_pos := find json (quoted (lit "role")) pos in
  if role_pos =? npos then Ok (inl messages) else
  let role_start := wrap (find_chr json dquote (wrap (role_pos + 6)) + 1) in
  let role_end := find_chr json dquote role_start in
  msg_role <- substr json role_start (wrap (role_end - role_start)) ;;
  let content_pos := find json (quoted (lit "content")) role_end in
  if content_pos =? npos then Ok (inl messages) else
  let content_start := wrap (find_chr json dquote (wrap (content_pos + 9)) + 1) in
  content_end <- content_end_scan fuel json content_start ;;
  msg_content <- substr json content_start (wrap (content_end - content_start)) ;;
  msg_content <- unescape_loop fuel ESC_N [newline] msg_content 0 ;;
  msg_content <- unescape_loop fuel ESC_QUOTE [dquote] msg_content 0 ;;
  Ok (inr (find_chr json lbrace content_end,
           messages ++ [{| role := msg_role; content := msg_content |}])).

Fixpoint msg_loop (n : nat) (json : str) (pos : Z) (messages : list ChatMessage)
  : result (list ChatMessage) :=
  if pos =? npos then Ok messages else
  match n with
  | O => OutOfFuel
  | S n' =>
      r <- msg_body json pos messages ;;
      match r with
      | inl messages' => Ok messages'
      | inr (pos', messages') => msg_loop n' json pos' messages'
      end
  end.

Definition parse_messages_json (json : str) : result (list ChatMessage) :=
  let pos := find_chr json lbracket 0 in
  if pos =? npos then Throw (runtime_error (lit "Invalid JSON: expected array")) else
  msg_loop fuel json (find_chr json lbrace pos) [].

End MessageDecoder.

(** ** [parse_tools_json] *)

(** [std::unordered_map<std::string, std::string>] as an association list
    with one binding per key. *)
Definition smap := list (str * str).

Definition str_eqb (a b : str) : bool :=
  if list_eq_dec ascii_dec a b then true else false.

Fixpoint smap_find (m : smap) (k : str) : option str :=
  match m with
  | [] => None
  | (k', v) :: m' => if str_eqb k k' then Some v else smap_find m' k
  end.

(** [m[k] = v] *)
Fixpoint smap_set (m : smap) (k v : str) : smap :=
  match m with
  | [] => [(k, v)]
  | (k', v') :: m' =>
      if str_eqb k k' then (k', v) :: m' else (k', v') :: smap_set m' k v
  end.

Record ToolFunction : Type := {
  name : str;
  description : str;
  parameters : smap
}.

Definition SCHEMA : str := lit "schema".

Section ToolDecoder.

Variable fuel : nat.

(** The balanced-brace scan of lines 118-122. *)
Fixpoint params_scan (n : nat) (json : str) (params_end brace_count : Z)
  : result (Z * Z) :=
  if (params_end <? size json) && (0 <? brace_count) then
    match n with
    | O => OutOfFuel
    | S n' =>
        c <- index json params_end ;;
        brace_count' <-
          (if Ascii.eqb c lbrace then int_add brace_count 1
           else if Ascii.eqb c rbrace then int_add brace_count (-1)
           else Ok brace_count) ;;
        params_scan n' json (wrap (params_end + 1)) brace_count'
    end
  else Ok (params_end, brace_count).

(** One turn of the loop of lines 95-130: the position at which the
    search for the next marker goes on, and the tools so far. *)
Definition tools_body (json : str) (pos : Z) (tools : list ToolFunction)
  : result (Z * list ToolFunction) :=
  let name_pos := find json (quoted (lit "name")) pos in
  tool_name <-
    (if negb (name_pos =? npos) then
       let name_start := wrap (find_chr json dquote (wrap (name_pos + 6)) + 1) in
       let name_end := find_chr json dquote name_start in
       substr json name_start (wrap (name_end - name_start))
     else Ok []) ;;
  let desc_pos := find json (quoted (lit "description")) pos in
  tool_description <-
    (if negb (desc_pos =? npos) then
       let desc_start := wrap (find_chr json dquote (wrap (desc_pos + 13)) + 1) in
       let desc_end := find_chr json dquote desc_start in
       substr json desc_start (wrap (desc_end - desc_start))
     else Ok []) ;;
  let params_pos := find json (quoted (lit "parameters")) pos in
  tool_parameters <-
    (if negb (params_pos =? npos) then
       let params_start := find_chr json lbrace params_pos in
       if negb (params_start =? npos) then
         '(params_end, _) <- params_scan fuel json (wrap (params_start + 1)) 1 ;;
         schema <- substr json params_start (wrap (params_end - params_start)) ;;
         Ok (smap_set [] SCHEMA schema)
       else Ok []
     else Ok []) ;;
  Ok (find json (quoted (lit "function")) name_pos,
      tools ++ [{| name := tool_name; description := tool_description;
                   parameters := tool_parameters |}]).

Fixpoint tools_loop (n : nat) (json : str) (pos : Z) (tools : list ToolFunction)
  : result (list ToolFunction) :=
  if pos =? npos then Ok tools else
  match n with
  | O => OutOfFuel
  | S n' =>
      '(pos', tools') <- tools_body json pos tools ;;
      tools_loop n' json pos' tools'
  end.

Definition parse_tools_json (json : str) : result (list ToolFunction) :=
  match json with
  | [] => Ok []
  | _ =>
      let pos := find_chr json lbracket 0 in
      if pos =? npos then Ok [] else
      tools_loop fuel json (find json (quoted (lit "function")) pos) []
  end.

End ToolDecoder.

(** ** [format_tools_for_prompt] *)

Definition format_tool (i : Z) (tool : ToolFunction) : str :=
  (if 0 <? i then lit "," ++ [newline] else [])
  ++ lit "  {" ++ [newline]
  ++ lit "    " ++ quoted (lit "type") ++ lit ": " ++ quoted (lit "function") ++ lit "," ++ [newline]
  ++ lit "    " ++ quoted (lit "function") ++ lit ": {" ++ [newline]
  ++ (lit "      " ++ quoted (lit "name") ++ lit ": " ++ [dquote] ++ name tool ++ [dquote]
        ++ lit "," ++ [newline])
  ++ (lit "      " ++ quoted (lit "description") ++ lit ": " ++ [dquote]
        ++ description tool ++ [dquote])
  ++ match smap_find (parameters tool) SCHEMA with
     | Some schema =>
         lit "," ++ [newline] ++ lit "      " ++ quoted (lit "parameters") ++ lit ": " ++ schema
     | None => []
     end
  ++ [newline] ++ lit "    }" ++ [newline] ++ lit "  }".

(** The loop of lines 193-204, [i] counting the tools already written. *)
Fixpoint format_tools_loop (tools : list ToolFunction) (i : Z)
  (formatted_tools_json : str) : str :=
  match tools with
  | [] => formatted_tools_json
  | tool :: rest =>
      format_tools_loop rest (wrap (i + 1)) (formatted_tools_json ++ format_tool i tool)
  end.

Definition format_tools_for_prompt (tools : list ToolFunction) : str :=
  match tools with
  | [] => []
  | _ => format_tools_loop tools 0 []
  end.

(** ** Numbers in text: [std::stoul], [std::stof] and [operator<<] *)

Module Numeric.

Definition code (c : ascii) : Z := Z.of_N (N_of_ascii c).

(** [isspace] in the C locale. *)
Definition is_space (c : ascii) : bool :=
  (code c =? 32) || ((9 <=? code c) && (code c <=? 13)).

Fixpoint skip_spaces (s : str) : str :=
  match s with
  | c :: s' => if is_space c then skip_spaces s' else s
  | [] => []
  end.

Definition digit_of (c : ascii) : option Z :=
  if (48 <=? code c) && (code c <=? 57) then Some (code c - 48) else None.

Definition hex_digit_of (c : ascii) : option Z :=
  if (48 <=? code c) && (code c <=? 57) then Some (code c - 48)
  else if (97 <=? code c) && (code c <=? 102) then Some (code c - 87)
  else if (65 <=? code c) && (code c <=? 70) then Some (code c - 55)
  else None.

Definition to_lower (c : ascii) : ascii :=
  if (65 <=? code c) && (code c <=? 90) then ascii_of_N (Z.to_N (code c + 32)) else c.

(** Reads the longest run of digits: its value in [base] on top of [acc],
    the number of digits read, and the text left. *)
Fixpoint read_digits (base : Z) (dig : ascii -> option Z) (s : str) (acc count : Z)
  : Z * Z * str :=
  match s with
  | c :: s' =>
      match dig c with
      | Some d => read_digits base dig s' (acc * base + d) (count + 1)
      | None => (acc, count, s)
      end
  | [] => (acc, count, [])
  end.

Definition read_sign (s : str) : bool * str :=
  match s with
  | c :: s' =>
      if Ascii.eqb c "-"%char then (true, s')
      else if Ascii.eqb c "+"%char then (false, s')
      else (false, s)
  | [] => (false, [])
  end.

Definition ULONG_MAX : Z := 2 ^ 64 - 1.

(** [std::stoul(s)], that is [strtoul] in base ten: blanks, a sign, digits.
    No digit is [std::invalid_argument], a value beyond [ULONG_MAX] is
    [std::out_of_range], and a minus sign negates modulo [2^64]. *)
Definition stoul (s : str) : result Z :=
  let '(neg, s1) := read_sign (skip_spaces s) in
  let '(v, count, _) := read_digits 10 digit_of s1 0 0 in
  if count =? 0 then Throw invalid_argument
  else if ULONG_MAX <? v then Throw out_of_range
  else Ok (if neg then wrap (- v) else v).

(** What [strtof] and [strtod] read before rounding. *)
Inductive float_literal : Type :=
| lit_decimal (m e10 : Z)
| lit_hex (m e2 : Z)
| lit_inf
| lit_nan.

(** The optional exponent part introduced by [marker]. *)
Definition read_exponent (marker : ascii) (s : str) : Z :=
  match s with
  | c :: s' =>
      if Ascii.eqb (to_lower c) marker then
        let '(neg, s2) := read_sign s' in
        let '(v, count, _) := read_digits 10 digit_of s2 0 0 in
        if count =? 0 then 0 else if neg then - v else v
      else 0
  | [] => 0
  end.

(** Digits, an optional point and more digits, an optional exponent; at
    least one digit is required. *)
Definition scan_mantissa (base : Z) (dig : ascii -> option Z) (s : str)
  : option (Z * Z * str) :=
  let '(vi, ni, s1) := read_digits base dig s 0 0 in
  let '(v, nf, s2) :=
    match s1 with
    | c :: s1' =>
        if Ascii.eqb c "."%char then read_digits base dig s1' vi 0 else (vi, 0, s1)
    | [] => (vi, 0, s1)
    end in
  if ni + nf =? 0 then None else Some (v, nf, s2).

Definition scan_decimal (s : str) : option float_literal :=
  match scan_mantissa 10 digit_of s with
  | Some (v, nf, s2) => Some (lit_decimal v (read_exponent "e"%char s2 - nf))
  | None => None
  end.

Definition scan_hex (s : str) : option float_literal :=
  match s with
  | z :: x :: s' =>
      if Ascii.eqb z "0"%char && Ascii.eqb (to_lower x) "x"%char then
        match scan_mantissa 16 hex_digit_of s' with
        | Some (v, nf, s2) => Some (lit_hex v (read_exponent "p"%char s2 - 4 * nf))
        | None => None
        end
      else None
  | _ => None
  end.

Definition scan_special (s : str) : option float_literal :=
  match map to_lower (firstn 3 s) with
  | [a; b; c] =>
      if Ascii.eqb a "i"%char && Ascii.eqb b "n"%char && Ascii.eqb c "f"%char then Some lit_inf
      else if Ascii.eqb a "n"%char && Ascii.eqb b "a"%char && Ascii.eqb c "n"%char then Some lit_nan
      else None
  | _ => None
  end.

Definition scan_float (s : str) : option (bool * float_literal) :=
  let '(neg, s1) := read_sign (skip_spaces s) in
  match scan_special s1 with
  | Some l => Some (neg, l)
  | None =>
      match scan_hex s1 with
      | Some l => Some (neg, l)
      | None => option_map (pair neg) (scan_decimal s1)
      end
  end.

Section Format.

(** [prec] and [emax] of the binary format: 24 and 128 for [float],
    53 and 1024 for [double]. *)
Variables prec emax : Z.

(** The value [m * base^e] rounded to the nearest number of the format,
    ties to even. *)
Definition round_scaled (neg : bool) (m base e : Z) : spec_float :=
  match m with
  | Zpos p =>
      if 0 <=? e then binary_normalize prec emax (cond_Zopp neg (m * base ^ e)) 0 neg
      else SFdiv prec emax (S754_finite neg p 0)
                           (S754_finite false (Z.to_pos (base ^ (- e))) 0)
  | _ => S754_zero neg
  end.

Definition round_literal (neg : bool) (l : float_literal) : spec_float :=
  match l with
  | lit_decimal m e10 => round_scaled neg m 10 e10
  | lit_hex m e2 => round_scaled neg m 2 e2
  | lit_inf => S754_infinity neg
  | lit_nan => S754_nan
  end.

(** [ERANGE]: a literal that is not zero and rounds to an infinity, to
    zero or to a subnormal number. For a result too small to be a
    normal number the C standard leaves the report to the library, and
    libraries differ: glibc reports such a result only when it is
    inexact, so it accepts a literal that is exactly a subnormal number
    and rejects one below the least normal number that rounds up to it.
    The model reports every result that is zero or subnormal, exact or
    not, and none that is normal. *)
Definition range_error (l : float_literal) (x : spec_float) : bool :=
  match l with
  | lit_decimal m _ | lit_hex m _ =>
      if m =? 0 then false
      else match x with
           | S754_finite _ mx _ => negb (Zpos (digits2_pos mx) =? prec)
           | S754_nan => false
           | _ => true
           end
  | _ => false
  end.

Definition strto (s : str) : result spec_float :=
  match scan_float s with
  | None => Throw invalid_argument
  | Some (neg, l) =>
      let x := round_literal neg l in
      if range_error l x then Throw out_of_range else Ok x
  end.

End Format.

(** [std::stof(s)] *)
Definition stof (s : str) : result spec_float := strto 24 128 s.

(** The [float] and [double] written as the decimal [m * 10^e10]. *)
Definition float_of_decimal (neg : bool) (m e10 : Z) : spec_float :=
  round_literal 24 128 neg (lit_decimal m e10).
Definition double_of_decimal (neg : bool) (m e10 : Z) : spec_float :=
  round_literal 53 1024 neg (lit_decimal m e10).

Definition digit_char (d : Z) : ascii := ascii_of_N (Z.to_N (48 + d)).

(** The decimal digits of a natural number, most significant first. *)
Fixpoint digits_of_pos (fuel : nat) (n : Z) (acc : str) : str :=
  match fuel with
  | O => acc
  | S fuel' =>
      let acc := digit_char (n mod 10) :: acc in
      if n / 10 =? 0 then acc else digits_of_pos fuel' (n / 10) acc
  end.

(** [os << n] for an unsigned integer. *)
Definition show_unsigned (n : Z) : str :=
  digits_of_pos (S (Z.to_nat (Z.log2 n))) n [].

(** Rounds [num / den] to the nearest integer, ties to even. *)
Definition div_nearest_even (num den : Z) : Z :=
  let q := num / den in
  let r := num mod den in
  if 2 * r <? den then q
  else if den <? 2 * r then q + 1
  else if Z.even q then q else q + 1.

(** The magnitude of a finite number in hundredths, rounded. *)
Definition hundredths (m : positive) (e : Z) : Z :=
  if 0 <=? e then Zpos m * 2 ^ e * 100
  else div_nearest_even (Zpos m * 100) (2 ^ (- e)).

Definition sign_text (neg : bool) : str := if neg then lit "-" else [].

(** [os << std::fixed << std::setprecision(2) << x] for a [double]. *)
Definition show_fixed2 (x : spec_float) : str :=
  match x with
  | S754_nan => lit "nan"
  | S754_infinity s => sign_text s ++ lit "inf"
  | S754_zero s => sign_text s ++ lit "0.00"
  | S754_finite s m e =>
      let h := hundredths m e in
      sign_text s ++ show_unsigned (h / 100) ++ lit "."
        ++ [digit_char (h / 10 mod 10); digit_char (h mod 10)]
  end.

End Numeric.

Import Numeric.

(** ** [parse_options_json] *)

Record SamplingOptions : Type := {
  temperature : spec_float;
  top_p : spec_float;
  top_k : Z;
  max_tokens : Z;
  stop_sequences : list str
}.

(** The five reference parameters are a state the function writes to; a
    step maps their values to their new values and the way it ended, so
    that what was written before an exception stays written. *)
Definition step : Type := SamplingOptions -> SamplingOptions * result unit.

Definition skip : step := fun o => (o, Ok tt).

Definition and_then (c k : step) : step :=
  fun o => match c o with
           | (o', Ok _) => k o'
           | (o', r) => (o', r)
           end.

Notation "c >> k" := (and_then c k) (at level 62, right associativity).

(** [field = r], where evaluating [r] may throw. *)
Definition assign {A} (r : result A) (set : SamplingOptions -> A -> SamplingOptions)
  : step :=
  fun o => match r with
           | Ok v => (set o v, Ok tt)
           | Throw e => (o, Throw e)
           | Undefined => (o, Undefined)
           | OutOfFuel => (o, OutOfFuel)
           end.

Definition set_temperature (o : SamplingOptions) (v : spec_float) :=
  {| temperature := v; top_p := top_p o; top_k := top_k o;
     max_tokens := max_tokens o; stop_sequences := stop_sequences o |}.
Definition set_top_p (o : SamplingOptions) (v : spec_float) :=
  {| temperature := temperature o; top_p := v; top_k := top_k o;
     max_tokens := max_tokens o; stop_sequences := stop_sequences o |}.
Definition set_top_k (o : SamplingOptions) (v : Z) :=
  {| temperature := temperature o; top_p := top_p o; top_k := v;
     max_tokens := max_tokens o; stop_sequences := stop_sequences o |}.
Definition set_max_tokens (o : SamplingOptions) (v : Z) :=
  {| temperature := temperature o; top_p := top_p o; top_k := top_k o;
     max_tokens := v; stop_sequences := stop_sequences o |}.
Definition push_stop_sequence (o : SamplingOptions) (v : str) :=
  {| temperature := temperature o; top_p := top_p o; top_k := top_k o;
     max_tokens := max_tokens o; stop_sequences := stop_sequences o ++ [v] |}.

(** [-1.0f] *)
Definition MINUS_ONE : spec_float := Eval vm_compute in float_of_decimal true 10 (-1).

Definition default_options : SamplingOptions :=
  {| temperature := MINUS_ONE; top_p := MINUS_ONE; top_k := 0;
     max_tokens := 100; stop_sequences := [] |}.

Section OptionsDecoder.

Variable fuel : nat.

(** Lines 147-151. *)
Definition read_temperature (json : str) : step :=
  let pos := find json (quoted (lit "temperature")) 0 in
  if negb (pos =? npos) then
    let pos := wrap (find_chr json colon pos + 1) in
    assign (s <- substr_from json pos ;; stof s) set_temperature
  else skip.

(** Lines 153-157. *)
Definition read_top_p (json : str) : step :=
  let pos := find json (quoted (lit "top_p")) 0 in
  if negb (pos =? npos) then
    let pos := wrap (find_chr json colon pos + 1) in
    assign (s <- substr_from json pos ;; stof s) set_top_p
  else skip.

(** Lines 159-163. *)
Definition read_top_k (json : str) : step :=
  let pos := find json (quoted (lit "top_k")) 0 in
  if negb (pos =? npos) then
    let pos := wrap (find_chr json colon pos + 1) in
    assign (s <- substr_from json pos ;; stoul s) set_top_k
  else skip.

(** Lines 165-169. *)
Definition read_max_tokens (json : str) : step :=
  let pos := find json (quoted (lit "max_tokens")) 0 in
  if negb (pos =? npos) then
    let pos := wrap (find_chr json colon pos + 1) in
    assign (s <- substr_from json pos ;; stoul s) set_max_tokens
  else skip.

(** The loop of lines 178-185. *)
Fixpoint stop_loop (n : nat) (json : str) (end_pos seq_pos : Z) : step :=
  if negb (seq_pos =? npos) && (seq_pos <? end_pos) then
    match n with
    | O => fun o => (o, OutOfFuel)
    | S n' =>
        let seq_start := wrap (seq_pos + 1) in
        let seq_end := find_chr json dquote seq_start in
        (if negb (seq_end =? npos)
         then assign (substr json seq_start (wrap (seq_end - seq_start)))
                     push_stop_sequence
         else skip)
        >> stop_loop n' json end_pos (find_chr json dquote (wrap (seq_end + 1)))
    end
  else skip.

(** Lines 171-187. *)
Definition read_stop_sequences (json : str) : step :=
  let pos := find json (quoted (lit "stop_sequences")) 0 in
  if negb (pos =? npos) then
    let pos := find_chr json lbracket pos in
    if negb (pos =? npos) then
      let end_pos := find_chr json rbracket pos in
      let seq_pos := find_chr json dquote pos in
      stop_loop fuel json end_pos seq_pos
    else skip
  else skip.

Definition parse_options_json (json : str) : step :=
  fun _ =>
    let o := default_options in
    match json with
    | [] => (o, Ok tt)
    | _ =>
        (read_temperature json >> read_top_p json >> read_top_k json
         >> read_max_tokens json >> read_stop_sequences json) o
    end.

End OptionsDecoder.

(** ** [construct_response_json] *)

Definition escape_char (c : ascii) : str :=
  if Ascii.eqb c dquote then [backslash; dquote]
  else if Ascii.eqb c newline then [backslash; "n"%char]
  else if Ascii.eqb c carriage then [backslash; "r"%char]
  else if Ascii.eqb c tab then [backslash; "t"%char]
  else if Ascii.eqb c backslash then [backslash; backslash]
  else [c].

(** The loop of lines 267-270. *)
Fixpoint write_calls (function_calls : list str) (i : Z) (out : str) : str :=
  match function_calls with
  | [] => out
  | call :: rest =>
      write_calls rest (wrap (i + 1))
        (out ++ (if 0 <? i then lit "," else []) ++ call)
  end.

Definition construct_response_json (regular_response : str)
  (function_calls : list str)
  (time_to_first_token total_time_ms tokens_per_second : spec_float)
  (prompt_tokens completion_tokens : Z) : str :=
  lit "{"
  ++ (quoted (lit "success") ++ lit ":true,")
  ++ (quoted (lit "response") ++ lit ":" ++ [dquote])
  ++ List.concat (map escape_char regular_response)
  ++ (dquote :: lit ",")
  ++ match function_calls with
     | [] => []
     | _ => (quoted (lit "function_calls") ++ lit ":[")
            ++ write_calls function_calls 0 [] ++ lit "],"
     end
  ++ (quoted (lit "time_to_first_token_ms") ++ lit ":"
        ++ show_fixed2 time_to_first_token ++ lit ",")
  ++ (quoted (lit "total_time_ms") ++ lit ":" ++ show_fixed2 total_time_ms ++ lit ",")
  ++ (quoted (lit "tokens_per_second") ++ lit ":"
        ++ show_fixed2 tokens_per_second ++ lit ",")
  ++ (quoted (lit "prefill_tokens") ++ lit ":" ++ show_unsigned prompt_tokens ++ lit ",")
  ++ (quoted (lit "decode_tokens") ++ lit ":" ++ show_unsigned completion_tokens ++ lit ",")
  ++ (quoted (lit "total_tokens") ++ lit ":"
        ++ show_unsigned (wrap (prompt_tokens + completion_tokens)))
  ++ lit "}".

(** * Vocabulary of the statements *)

(** [contains p s]: the text [p] occurs in [s]. *)
Definition contains (p s : str) : bool :=
  match index_of p s with
  | Some _ => true
  | None => false
  end.

(** [sub s a b] is the text of [s] from position [a] to position [b]. *)
Definition sub (s : str) (a b : Z) : str :=
  firstn (Z.to_nat (b - a)) (skipn (Z.to_nat a) s).

(** [approx r r']: the run [r] ran out of fuel, or it is [r']. *)
Definition approx {A} (r r' : result A) : Prop := r = OutOfFuel \/ r = r'.

(** ** Options *)

(** The key text occurs in the options text. *)
Definition present (json : str) (key : string) : bool :=
  negb (find json (quoted (lit key)) 0 =? npos).

(** The text that follows the first colon after the key. *)
Definition field_text (json : str) (key : string) : result str :=
  substr_from json (wrap (find_chr json colon (find json (quoted (lit key)) 0) + 1)).

(** What the numeric conversion makes of the text after the key. *)
Definition field_value {A} (parse : str -> result A) (json : str) (key : string)
  : result A :=
  s <- field_text json key ;; parse s.

(** The key is there and the text after its colon is not a number of
    the declared type. *)
Definition unparsable {A} (parse : str -> result A) (json : str) (key : string)
  : Prop :=
  present json key = true /\ exists e, field_value parse json key = Throw e.

(** The exceptions of [std::stof] and [std::stoul]. *)
Definition numeric_parse_failure (e : exn) : Prop :=
  e = invalid_argument \/ e = out_of_range.

(** [approx_step c c']: the same for two steps of the options decoder,
    whose outcome comes with the values written so far. *)
Definition approx_step (c c' : step) : Prop :=
  forall o, snd (c o) = OutOfFuel \/ c o = c' o.

(** The four scalar blocks have one shape. *)
Definition read_scalar {A} (key : string) (parse : str -> result A)
  (set : SamplingOptions -> A -> SamplingOptions) (json : str) : step :=
  if present json key then assign (field_value parse json key) set else skip.

(** The options after the call, given the text and the way it ended:
    a field whose key is absent holds its default, and after a normal
    return a scalar field whose key is present holds the number read
    after the colon of the key. *)
Definition options_contract (json : str) (o : SamplingOptions) (r : result unit) : Prop :=
  (present json "temperature" = false -> temperature o = MINUS_ONE) /\
  (present json "top_p" = false -> top_p o = MINUS_ONE) /\
  (present json "top_k" = false -> top_k o = 0) /\
  (present json "max_tokens" = false -> max_tokens o = 100) /\
  (present json "stop_sequences" = false -> stop_sequences o = []) /\
  (r = Ok tt ->
     (present json "temperature" = true ->
        field_value stof json "temperature" = Ok (temperature o)) /\
     (present json "top_p" = true -> field_value stof json "top_p" = Ok (top_p o)) /\
     (present json "top_k" = true -> field_value stoul json "top_k" = Ok (top_k o)) /\
     (present json "max_tokens" = true ->
        field_value stoul json "max_tokens" = Ok (max_tokens o))).

Definition ex_options : str :=
  jq "{`temperature`:0.7,`stop_sequences`:[`END`,`STOP`]}".

(** A text cut inside a stop sequence. *)
Definition ex_options_forever : str := jq "{`stop_sequences`:[`a".

(** ** The encoded result *)

(** The texts of [l] with [sep] between them. *)
Fixpoint join (sep : str) (l : list str) : str :=
  match l with
  | [] => []
  | [x] => x
  | x :: rest => x ++ sep ++ join sep rest
  end.

(** The [function_calls] field: nothing for an empty list, else the
    entries as they are, between brackets. *)
Definition calls_field (calls : list str) : str :=
  match calls with
  | [] => []
  | _ => quoted (lit "function_calls") ++ lit ":[" ++ join (lit ",") calls ++ lit "],"
  end.

(** The JSON object of the specification, each field given as text. *)
Definition encoded_result (response : str) (calls : list str)
  (ttft total_time tps prefill decode total : str) : str :=
  lit "{" ++ quoted (lit "success") ++ lit ":true,"
  ++ quoted (lit "response") ++ lit ":" ++ quoted response ++ lit ","
  ++ calls_field calls
  ++ quoted (lit "time_to_first_token_ms") ++ lit ":" ++ ttft ++ lit ","
  ++ quoted (lit "total_time_ms") ++ lit ":" ++ total_time ++ lit ","
  ++ quoted (lit "tokens_per_second") ++ lit ":" ++ tps ++ lit ","
  ++ quoted (lit "prefill_tokens") ++ lit ":" ++ prefill ++ lit ","
  ++ quoted (lit "decode_tokens") ++ lit ":" ++ decode ++ lit ","
  ++ quoted (lit "total_tokens") ++ lit ":" ++ total ++ lit "}".

Definition is_digit (c : ascii) : bool :=
  match digit_of c with
  | Some _ => true
  | None => false
  end.

(** The value of a text of decimal digits. *)
Definition digits_value (s : str) : Z :=
  fold_left (fun acc c => acc * 10 + (code c - 48)) s 0.

(** [text] is a fixed-point number with two decimal digits, the
    nearest to [x]: an optional minus sign, the digits of the integral
    part, a point and two digits, which together read as a number of
    hundredths at most half a hundredth away from [x]. *)
Definition two_decimals_of (x : spec_float) (text : str) : Prop :=
  exists (neg : bool) (ip : str) (d1 d2 : ascii),
    text = sign_text neg ++ ip ++ lit "." ++ [d1; d2]
    /\ ip <> [] /\ forallb is_digit (ip ++ [d1; d2]) = true
    /\ match x with
       | S754_zero s => neg = s /\ digits_value (ip ++ [d1; d2]) = 0
       | S754_finite s m e =>
           neg = s /\
           2 * Z.abs (digits_value (ip ++ [d1; d2]) * 2 ^ Z.max 0 (- e)
                      - Zpos m * 100 * 2 ^ Z.max 0 e) <= 2 ^ Z.max 0 (- e)
       | _ => False
       end.

Definition is_finite (x : spec_float) : bool :=
  match x with
  | S754_zero _ | S754_finite _ _ _ => true
  | _ => false
  end.

Definition ex_result_json : str :=
  construct_response_json (lit "ok") []
    (double_of_decimal false 123456 (-4)) (double_of_decimal false 1000 (-1))
    (double_of_decimal false 9999 (-3)) 5 7.

(** ** JSON texts (RFC 8259), to say what a syntactically valid JSON
    text is *)

Module Json.

Definition is_ws (c : ascii) : bool :=
  Ascii.eqb c space || Ascii.eqb c tab || Ascii.eqb c newline || Ascii.eqb c carriage.

Fixpoint skip_ws (s : str) : str :=
  match s with
  | c :: s' => if is_ws c then skip_ws s' else s
  | [] => []
  end.

Definition is_hex (c : ascii) : bool :=
  match hex_digit_of c with
  | Some _ => true
  | None => false
  end.

Definition simple_escape (c : ascii) : bool :=
  existsb (Ascii.eqb c) (dquote :: backslash :: lit "/bfnrt").

(** The characters of a string after its opening quote; the text after
    the closing quote. *)
Fixpoint string_rest (s : str) : option str :=
  match s with
  | [] => None
  | c :: s' =>
      if Ascii.eqb c dquote then Some s'
      else if Ascii.eqb c backslash then
        match s' with
        | e :: s'' =>
            if simple_escape e then string_rest s''
            else if Ascii.eqb e "u"%char then
              match s'' with
              | h1 :: h2 :: h3 :: h4 :: s3 =>
                  if is_hex h1 && is_hex h2 && is_hex h3 && is_hex h4
                  then string_rest s3 else None
              | _ => None
              end
            else None
        | [] => None
        end
      else if code c <? 32 then None
      else string_rest s'
  end.

Fixpoint skip_digits (s : str) : str :=
  match s with
  | c :: s' => if is_digit c then skip_digits s' else s
  | [] => []
  end.

(** At least one digit, then the text after the digits. *)
Definition digits1 (s : str) : option str :=
  match s with
  | c :: s' => if is_digit c then Some (skip_digits s') else None
  | [] => None
  end.

Definition number (s : str) : option str :=
  let s := match s with
           | c :: t => if Ascii.eqb c "-"%char then t else s
           | [] => s
           end in
  let int_part :=
    match s with
    | c :: t => if Ascii.eqb c "0"%char then Some t else digits1 s
    | [] => None
    end in
  match int_part with
  | None => None
  | Some s1 =>
      let frac :=
        match s1 with
        | c :: t => if Ascii.eqb c "."%char then digits1 t else Some s1
        | [] => Some s1
        end in
      match frac with
      | None => None
      | Some s2 =>
          match s2 with
          | c :: t =>
              if Ascii.eqb (to_lower c) "e"%char then
                match t with
                | g :: t' =>
                    if Ascii.eqb g "+"%char || Ascii.eqb g "-"%char
                    then digits1 t' else digits1 t
                | [] => None
                end
              else Some s2
          | [] => Some s2
          end
      end
  end.

(** One value, blanks before it allowed; the text after the value.
    [n] bounds the nesting. *)
Fixpoint value (n : nat) (s : str) : option str :=
  match n with
  | O => None
  | S n' =>
      let members :=
        fix members (k : nat) (s : str) : option str :=
          match k with
          | O => None
          | S k' =>
              match skip_ws s with
              | q :: r =>
                  if Ascii.eqb q dquote then
                    match string_rest r with
                    | Some r1 =>
                        match skip_ws r1 with
                        | c :: r2 =>
                            if Ascii.eqb c colon then
                              match value n' r2 with
                              | Some r3 =>
                                  match skip_ws r3 with
                                  | d :: r4 =>
                                      if Ascii.eqb d ","%char then members k' r4
                                      else if Ascii.eqb d rbrace then Some r4
                                      else None
                                  | [] => None
                                  end
                              | None => None
                              end
                            else None
                        | [] => None
                        end
                    | None => None
                    end
                  else None
              | [] => None
              end
          end in
      let elements :=
        fix elements (k : nat) (s : str) : option str :=
          match k with
          | O => None
          | S k' =>
              match value n' s with
              | Some r =>
                  match skip_ws r with
                  | d :: r' =>
                      if Ascii.eqb d ","%char then elements k' r'
                      else if Ascii.eqb d rbracket then Some r'
                      else None
                  | [] => None
                  end
              | None => None
              end
          end in
      match skip_ws s with
      | c :: r =>
          if Ascii.eqb c dquote then string_rest r
          else if Ascii.eqb c lbrace then
            match skip_ws r with
            | c2 :: r2 => if Ascii.eqb c2 rbrace then Some r2 else members (List.length r) r
            | [] => None
            end
          else if Ascii.eqb c lbracket then
            match skip_ws r with
            | c2 :: r2 => if Ascii.eqb c2 rbracket then Some r2 else elements (List.length r) r
            | [] => None
            end
          else if starts_with (lit "true") (c :: r) then Some (skipn 4 (c :: r))
          else if starts_with (lit "false") (c :: r) then Some (skipn 5 (c :: r))
          else if starts_with (lit "null") (c :: r) then Some (skipn 4 (c :: r))
          else number (c :: r)
      | [] => None
      end
  end.

(** [s] is one JSON value and nothing else. *)
Definition valid (s : str) : bool :=
  match value (S (List.length s)) s with
  | Some r => match skip_ws r with [] => true | _ => false end
  | None => false
  end.

(** The first character that is not a blank. *)
Definition first_char (s : str) : option ascii := hd_error (skip_ws s).

Definition is_object (s : str) : bool :=
  valid s && match first_char s with Some c => Ascii.eqb c lbrace | None => false end.

Definition is_array (s : str) : bool :=
  valid s && match first_char s with Some c => Ascii.eqb c lbracket | None => false end.

End Json.

(** The number of lines of a text. *)
Definition line_count (s : str) : nat :=
  match s with
  | [] => O
  | _ => S (count_occ ascii_dec s newline)
  end.

(** ** The tool descriptor of the specification's example *)

Definition ex_schema : str :=
  jq "{`type`:`object`,`properties`:{`x`:{`type`:`string`}}}".

Definition ex_tool : ToolFunction :=
  {| name := lit "get_weather"; description := lit "Look up the weather";
     parameters := [(SCHEMA, ex_schema)] |}.

Definition ex_tools_json : str :=
  jq "[{`type`:`function`,`function`:{`name`:`get_weather`,`description`:`Look up the weather`,`parameters`:"
  ++ ex_schema ++ lit "}}]".

(** Two wrapper objects, the first without any field. *)
Definition ex_two_wrappers : str :=
  jq "[{`type`:`function`,`function`:{}},{`type`:`function`,`function`:{`name`:`b`,`description`:`d`,`parameters`:{`k`:1}}}]".

(** No name key after the first marker. *)
Definition ex_nameless_wrapper : str :=
  jq "[{`type`:`function`,`function`:{`description`:`only`}},{`type`:`function`}]".

(** What the formatter writes between two tools. *)
Definition TOOL_SEPARATOR : str := lit "," ++ [newline].

(** ** Function calls in a response *)

Definition brace_delta (c : ascii) : Z :=
  b2z (Ascii.eqb c lbrace) - b2z (Ascii.eqb c rbrace).

(** From depth [d], the braces of [s] bring the depth to zero at the
    last character of [s] and not before. *)
Fixpoint closes_at_end (d : Z) (s : str) : bool :=
  match s with
  | [] => false
  | c :: s' =>
      if d + brace_delta c =? 0
      then match s' with [] => true | _ => false end
      else closes_at_end (d + brace_delta c) s'
  end.

(** A brace-balanced fragment: an opening brace and the text up to the
    brace that closes it. *)
Definition balanced (call : str) : bool :=
  match call with
  | c :: body => Ascii.eqb c lbrace && closes_at_end 1 body
  | [] => false
  end.

(** [r] without its last opening brace and what follows it. *)
Definition cut_at_last_brace (r : str) : str :=
  match last_index_of lbrace r with
  | Some k => firstn k r
  | None => r
  end.

(** [extracts text calls regular]: the fragments [calls] lie in [text]
    in this order, each one balanced and behind a marker with no brace
    in between, and [regular] is the whole text when there is no
    fragment and otherwise the text before the marker of the last
    fragment, cut at its last opening brace. *)
Inductive extracts : str -> list str -> str -> Prop :=
| extracts_none (text : str) : extracts text [] text
| extracts_call (text before gap call after : str) (calls : list str) (regular0 : str) :
    text = before ++ FUNCTION_CALL_MARKER ++ gap ++ call ++ after ->
    ~ In lbrace gap ->
    balanced call = true ->
    extracts before calls regular0 ->
    extracts text (calls ++ [call]) (cut_at_last_brace before).

Definition ex_response : str :=
  jq "Hello there. {`function_call`: {`name`:`lookup`,`arguments`:{`q`:`weather`}}}".

Definition ex_two_calls : str :=
  jq "A {`function_call`: {`n`:1}} B {`function_call`: {`n`:2}}".

(** What holds of the values written so far when the search in [text]
    is at [search_pos]. *)
Definition scanned (text : str) (search_pos : Z) (st : DecodedResponse) : Prop :=
  exists r0,
    extracts (sub text 0 search_pos) (function_calls st) r0
    /\ (function_calls st = [] -> regular_response st = text)
    /\ (function_calls st <> [] -> regular_response st = r0).

(** ** Chat arrays *)

(** The text [s] in which every occurrence of the two characters [a b]
    is replaced by [r], from left to right, an occurrence starting
    where the one before ends and what was written not being read
    again. *)
Fixpoint replace_pairs (a b r : ascii) (s : str) : str :=
  match s with
  | [] => []
  | x :: s' =>
      match s' with
      | y :: t =>
          if Ascii.eqb a x && Ascii.eqb b y then r :: replace_pairs a b r t
          else x :: replace_pairs a b r s'
      | [] => [x]
      end
  end.

(** The two passes, in their order: backslash-n first, then
    backslash-quote. *)
Definition unescape (raw : str) : str :=
  replace_pairs backslash dquote dquote
    (replace_pairs backslash "n"%char newline raw).

(** A turn as it is written: the role, and the content between its
    quotes, escapes included. *)
Record WireTurn : Type := {
  wire_role : str;
  wire_content : str
}.

Definition decode_turn (t : WireTurn) : ChatMessage :=
  {| role := wire_role t; content := unescape (wire_content t) |}.

(** Every double quote of the text is right after a backslash, [prev]
    being the character before the text, and the text does not end
    with a backslash. *)
Fixpoint quotes_escaped (prev : ascii) (raw : str) : bool :=
  match raw with
  | [] => negb (Ascii.eqb prev backslash)
  | c :: raw' =>
      (negb (Ascii.eqb c dquote) || Ascii.eqb prev backslash) && quotes_escaped c raw'
  end.

Definition well_formed_turn (t : WireTurn) : Prop :=
  ~ In dquote (wire_role t) /\ quotes_escaped dquote (wire_content t) = true.

(** What may stand between the parts of an object and between the
    objects: blanks, colons and commas. *)
Definition is_gap_char (c : ascii) : bool :=
  Json.is_ws c || Ascii.eqb c colon || Ascii.eqb c ","%char.

Definition gap (w : str) : Prop := forallb is_gap_char w = true.

Record Spacing : Type := {
  opening : str;            (* after the bracket *)
  before_role : str;        (* after the brace of an object *)
  after_role_key : str;
  after_role : str;
  after_content_key : str;
  after_content : str;      (* before the closing brace *)
  between : str;            (* between two objects *)
  closing : str             (* before the closing bracket *)
}.

Definition well_formed_spacing (sp : Spacing) : Prop :=
  gap (opening sp) /\ gap (before_role sp) /\ gap (after_role_key sp)
  /\ gap (after_role sp) /\ gap (after_content_key sp) /\ gap (after_content sp)
  /\ gap (between sp) /\ gap (closing sp).

(** The spacing of a compact encoder. *)
Definition compact : Spacing :=
  {| opening := []; before_role := []; after_role_key := lit ":";
     after_role := lit ","; after_content_key := lit ":"; after_content := [];
     between := lit ","; closing := [] |}.

Definition object_text (sp : Spacing) (t : WireTurn) : str :=
  lit "{" ++ before_role sp ++ quoted (lit "role") ++ after_role_key sp
  ++ quoted (wire_role t) ++ after_role sp ++ quoted (lit "content")
  ++ after_content_key sp ++ quoted (wire_content t) ++ after_content sp ++ lit "}".

Fixpoint objects_text (sp : Spacing) (ts : list WireTurn) : str :=
  match ts with
  | [] => []
  | [t] => object_text sp t
  | t :: rest => object_text sp t ++ between sp ++ objects_text sp rest
  end.

(** A chat array of the well-formed objects [ts]. *)
Definition array_text (sp : Spacing) (ts : list WireTurn) : str :=
  lit "[" ++ opening sp ++ objects_text sp ts ++ closing sp ++ lit "]".

(** An object up to the closing quote of its content. *)
Definition object_head (sp : Spacing) (t : WireTurn) : str :=
  lit "{" ++ before_role sp ++ quoted (lit "role") ++ after_role_key sp
  ++ quoted (wire_role t) ++ after_role sp ++ quoted (lit "content")
  ++ after_content_key sp ++ dquote :: wire_content t.

Definition ex_turns : list WireTurn :=
  [ {| wire_role := lit "user"; wire_content := lit "line one\nline two" |};
    {| wire_role := lit "assistant"; wire_content := jq "she said \`hi\`" |} ].

(** Texts cut after the content key. *)
Definition ex_read_before_start : str := jq "`[{`role`:`u`,`content`".
Definition ex_messages_forever : str := jq "x`[{`role`:`u`,`content`".

(** * Vocabulary of the further properties *)

(** ** Reading back what the encoders wrote *)

(** A JSON string body with the five escapes of [escape_char] resolved;
    any other character, a backslash before something else included,
    is kept. *)
Fixpoint json_unescape (s : str) : str :=
  match s with
  | [] => []
  | c :: s' =>
      if Ascii.eqb c backslash then
        match s' with
        | e :: s'' =>
            if Ascii.eqb e dquote then dquote :: json_unescape s''
            else if Ascii.eqb e "n"%char then newline :: json_unescape s''
            else if Ascii.eqb e "r"%char then carriage :: json_unescape s''
            else if Ascii.eqb e "t"%char then tab :: json_unescape s''
            else if Ascii.eqb e backslash then backslash :: json_unescape s''
            else c :: json_unescape s'
        | [] => [c]
        end
      else c :: json_unescape s'
  end.

(** A character that [escape_char] turns into valid JSON string text:
    no control character but line break, carriage return and tab. *)
Definition encodable (c : ascii) : bool :=
  (32 <=? code c) || Ascii.eqb c newline || Ascii.eqb c carriage || Ascii.eqb c tab.

(** A character of an error message that the sanitizer leaves valid
    inside a JSON string: a line break, or neither a control character
    nor a backslash. *)
Definition sanitizable (c : ascii) : bool :=
  Ascii.eqb c newline || ((32 <=? code c) && negb (Ascii.eqb c backslash)).

(** The two loops inside [Json.value], over a given reader of values:
    the members of an object after its opening brace, and the elements
    of an array after its opening bracket. *)
Section JsonLoops.

Variable v : str -> option str.

Fixpoint json_members (k : nat) (s : str) : option str :=
  match k with
  | O => None
  | S k' =>
      match Json.skip_ws s with
      | q :: r =>
          if Ascii.eqb q dquote then
            match Json.string_rest r with
            | Some r1 =>
                match Json.skip_ws r1 with
                | c :: r2 =>
                    if Ascii.eqb c colon then
                      match v r2 with
                      | Some r3 =>
                          match Json.skip_ws r3 with
                          | d :: r4 =>
                              if Ascii.eqb d ","%char then json_members k' r4
                              else if Ascii.eqb d rbrace then Some r4
                              else None
                          | [] => None
                          end
                      | None => None
                      end
                    else None
                | [] => None
                end
            | None => None
            end
          else None
      | [] => None
      end
  end.

Fixpoint json_elements (k : nat) (s : str) : option str :=
  match k with
  | O => None
  | S k' =>
      match v s with
      | Some r =>
          match Json.skip_ws r with
          | d :: r' =>
              if Ascii.eqb d ","%char then json_elements k' r'
              else if Ascii.eqb d rbracket then Some r'
              else None
          | [] => None
          end
      | None => None
      end
  end.

End JsonLoops.

(** A character that stands for itself inside a JSON string. *)
Definition plain_char (c : ascii) : bool :=
  (32 <=? code c) && negb (Ascii.eqb c dquote) && negb (Ascii.eqb c backslash).

(** What [construct_response_json] writes before the response text and
    [handle_error_response] before the message. *)
Definition RESPONSE_PREFIX : str := jq "{`success`:true,`response`:`".
Definition ERROR_PREFIX : str := jq "{`success`:false,`error`:`".

(** ** One call in its wrapper *)

(** A response text, the opening brace of a wrapper object, the marker
    and a fragment, with [g1] and [g2] around the marker and [post]
    after the fragment. *)
Definition wrapped_call_text (pre g1 g2 call post : str) : str :=
  pre ++ lbrace :: g1 ++ FUNCTION_CALL_MARKER ++ g2 ++ call ++ post.

(** ** Outcomes and partial inputs *)

(** The call ended with one of the exceptions the code throws itself or
    receives from the string and number functions. A loop that runs out
    of fuel is not among them: a loop that does not end is [OutOfFuel]
    for every fuel. On the machine the loops of the decoders that do
    not end append to a vector at every turn and stop when memory is
    exhausted, with an exception the model does not have. *)
Definition throws {A} (r : result A) : bool :=
  match r with
  | Throw _ => true
  | _ => false
  end.

(** A chat array that is not closed: the bracket, well-formed objects
    and any text after them. *)
Definition open_array_text (sp : Spacing) (ts : list WireTurn) (tail : str) : str :=
  lit "[" ++ opening sp ++ objects_text sp ts ++ tail.

(** A turn written with the escapes of [escape_char]. *)
Definition encode_turn (m : ChatMessage) : WireTurn :=
  {| wire_role := role m; wire_content := List.concat (map escape_char (content m)) |}.

(** A character whose escape the chat decoder undoes: any but the
    backslash, the carriage return and the tab. *)
Definition read_back_char (c : ascii) : bool :=
  negb (Ascii.eqb c backslash || Ascii.eqb c carriage || Ascii.eqb c tab).

Definition read_back_turn (m : ChatMessage) : Prop :=
  ~ In dquote (role m) /\ forallb read_back_char (content m) = true.

(** ** Options texts *)

(** An options object with the two counts, each given by its digits. *)
Definition counts_text (top_k_digits max_tokens_digits : str) : str :=
  lit "{" ++ quoted (lit "top_k") ++ lit ":" ++ top_k_digits ++ lit ","
  ++ quoted (lit "max_tokens") ++ lit ":" ++ max_tokens_digits ++ lit "}".

Definition with_counts (k n : Z) : SamplingOptions :=
  {| temperature := MINUS_ONE; top_p := MINUS_ONE; top_k := k;
     max_tokens := n; stop_sequences := [] |}.

(** The items of a stop-sequence array: each a text between quotes,
    with what stands before its opening quote. *)
Definition stop_items_text (items : list (str * str)) : str :=
  List.concat (map (fun i => fst i ++ quoted (snd i)) items).

(** An options text with the stop-sequence key after [pre], the array
    of [items] and [post] after its closing bracket. *)
Definition stop_options_text (pre g : str) (items : list (str * str))
  (w_end post : str) : str :=
  pre ++ quoted (lit "stop_sequences") ++ g
  ++ lbracket :: stop_items_text items ++ w_end ++ rbracket :: post.

Definition stop_item_ok (i : str * str) : Prop :=
  ~ In dquote (fst i) /\ ~ In rbracket (fst i)
  /\ ~ In dquote (snd i) /\ ~ In rbracket (snd i).

Definition with_stop_sequences (l : list str) : SamplingOptions :=
  {| temperature := MINUS_ONE; top_p := MINUS_ONE; top_k := 0;
     max_tokens := 100; stop_sequences := l |}.

(** ** JSON values inside a text *)

(** The integral part of a JSON number: digits, with no leading zero
    unless it is the only digit. *)
Definition json_int (ds : str) : bool :=
  match ds with
  | [] => false
  | c :: t =>
      forallb is_digit ds
      && (negb (Ascii.eqb c "0"%char) || match t with [] => true | _ => false end)
  end.

(** The characters that end a number in the texts at hand. *)
Definition ends_number (c : ascii) : bool :=
  Ascii.eqb c ","%char || Ascii.eqb c rbrace.

(** [v] is the text of one JSON value, whatever follows it: read from
    the start of [v ++ rest], with the length of [v] as a bound on the
    nesting, a value ends where [v] ends. *)
Definition json_value_text (v : str) : Prop :=
  forall n rest, (List.length v <= n)%nat -> Json.value n (v ++ rest) = Some rest.

(** The six members that end the encoded result, each value given as
    text. *)
Definition metrics_text (ttft total_time tps prefill decode total : str) : str :=
  quoted (lit "time_to_first_token_ms") ++ colon :: (ttft ++ ","%char ::
  (quoted (lit "total_time_ms") ++ colon :: (total_time ++ ","%char ::
  (quoted (lit "tokens_per_second") ++ colon :: (tps ++ ","%char ::
  (quoted (lit "prefill_tokens") ++ colon :: (prefill ++ ","%char ::
  (quoted (lit "decode_tokens") ++ colon :: (decode ++ ","%char ::
  (quoted (lit "total_tokens") ++ colon :: (total ++ [rbrace]))))))))))).

Definition ex_call : str := jq "{`name`:`f`}".

(** A tool the formatter can write as JSON: a name and a description
    that need no escape, and a schema, when there is one, that is the
    text of a JSON value. *)
Definition plain_tool (t : ToolFunction) : Prop :=
  forallb plain_char (name t) = true
  /\ forallb plain_char (description t) = true
  /\ match smap_find (parameters t) SCHEMA with
     | Some schema => json_value_text schema
     | None => True
     end.

(** A tool whose name holds a double quote. *)
Definition ex_quoted_name_tool : ToolFunction :=
  {| name := jq "say `hi`"; description := lit "greets"; parameters := [] |}.

(** ** Tools that are read back *)

(** A tool that [parse_tools_json] reads back from what
    [format_tools_for_prompt] wrote: its only parameter is a schema
    that is a brace-balanced text without the marker, and neither its
    name nor its description holds a double quote or is the word of a
    key that is searched after it. *)
Definition round_trip_tool (t : ToolFunction) : Prop :=
  (exists schema,
     parameters t = [(SCHEMA, schema)]
     /\ balanced schema = true
     /\ contains (quoted (lit "function")) schema = false)
  /\ ~ In dquote (name t) /\ ~ In dquote (description t)
  /\ name t <> lit "description" /\ name t <> lit "parameters"
  /\ name t <> lit "function"
  /\ description t <> lit "parameters" /\ description t <> lit "function".

(** Two tools, the first without a schema. *)
Definition ex_schemaless_tools : list ToolFunction :=
  [ {| name := lit "a"; description := lit "first"; parameters := [] |};
    {| name := lit "b"; description := lit "second";
       parameters := [(SCHEMA, jq "{`k`:1}")] |} ].

(** The fixed texts of the formatter's layout, around the name, the
    description and the schema of a tool. *)
Definition FT_OPEN : str := lit "  {" ++ [newline] ++ lit "    " ++ quoted (lit "type") ++ lit ": ".
Definition FT_MARKER : str := quoted (lit "function").
Definition FT_INNER : str :=
  lit "," ++ [newline] ++ lit "    " ++ quoted (lit "function") ++ lit ": {"
  ++ [newline] ++ lit "      ".
Definition FT_VALUE : str := lit ": " ++ [dquote].
Definition FT_NEXT : str := dquote :: lit "," ++ [newline] ++ lit "      ".
Definition FT_CLOSE : str := [newline] ++ lit "    }" ++ [newline] ++ lit "  }".

(** The text written for a tool that has a schema. *)
Definition tool_text (n d schema : str) : str :=
  FT_OPEN ++ FT_MARKER ++ FT_INNER
  ++ quoted (lit "name") ++ FT_VALUE ++ n ++ FT_NEXT
  ++ quoted (lit "description") ++ FT_VALUE ++ d ++ FT_NEXT
  ++ quoted (lit "parameters") ++ lit ": " ++ schema ++ FT_CLOSE.

(** * Facts about [std::string] *)

Section StdStringFacts.

Lemma size_nonneg (s : str) : 0 <= size s.
Proof. unfold size. lia. Qed.

Lemma size_app (a b : str) : size (a ++ b) = size a + size b.
Proof. unfold size. rewrite length_app. lia. Qed.

Lemma size_cons (c : ascii) (s : str) : size (c :: s) = 1 + size s.
Proof. unfold size. simpl List.length. lia. Qed.

Lemma size_nil : size [] = 0.
Proof. reflexivity. Qed.

Lemma npos_eq : npos = 18446744073709551615.
Proof. reflexivity. Qed.

Lemma wrap_small (z : Z) : 0 <= z < size_modulus -> wrap z = z.
Proof. intros H. unfold wrap. apply Z.mod_small. exact H. Qed.

Lemma wrap_npos_succ : wrap (npos + 1) = 0.
Proof. reflexivity. Qed.

Lemma skipn_size_app (a b : str) : skipn (Z.to_nat (size a)) (a ++ b) = b.
Proof.
  unfold size. rewrite Nat2Z.id, skipn_app, skipn_all, Nat.sub_diag. reflexivity.
Qed.

Lemma firstn_size_app (a b : str) : firstn (Z.to_nat (size a)) (a ++ b) = a.
Proof.
  unfold size. rewrite Nat2Z.id, firstn_app, firstn_all, Nat.sub_diag, firstn_0.
  apply app_nil_r.
Qed.

Lemma starts_with_app (p s : str) : starts_with p (p ++ s) = true.
Proof.
  induction p as [|a p IH]; simpl; [reflexivity|].
  rewrite Ascii.eqb_refl. exact IH.
Qed.

Lemma starts_with_true (p s : str) :
  starts_with p s = true -> exists t, s = p ++ t.
Proof.
  revert s. induction p as [|a p IH]; intros s H.
  - exists s. reflexivity.
  - destruct s as [|b s]; simpl in H; [discriminate|].
    apply andb_true_iff in H. destruct H as [Hab H].
    apply Ascii.eqb_eq in Hab. subst b.
    destruct (IH _ H) as [t ->]. exists t. reflexivity.
Qed.

Lemma starts_with_head (c : ascii) (p s : str) (x : ascii) :
  x <> c -> starts_with (c :: p) (x :: s) = false.
Proof.
  intros H. simpl. destruct (Ascii.eqb_spec c x); [congruence | reflexivity].
Qed.

(** [index_of] finds an occurrence, and the first one. *)
Lemma index_of_Some (p s : str) (k : nat) :
  index_of p s = Some k ->
  (k <= List.length s)%nat /\ starts_with p (skipn k s) = true /\
  forall j, (j < k)%nat -> starts_with p (skipn j s) = false.
Proof.
  revert k. induction s as [|x s IH]; intros k H.
  - simpl in H. destruct (starts_with p []) eqn:E; [|discriminate].
    injection H as <-. repeat split; [simpl; lia | exact E | intros j Hj; lia].
  - cbn [index_of] in H. destruct (starts_with p (x :: s)) eqn:E.
    + injection H as <-. repeat split; [simpl; lia | exact E | intros j Hj; lia].
    + destruct (index_of p s) as [k'|] eqn:E'; [|discriminate].
      injection H as <-. destruct (IH k' eq_refl) as (H1 & H2 & H3).
      repeat split; [simpl; lia | exact H2 |].
      intros [|j] Hj; [exact E | apply H3; lia].
Qed.

Lemma index_of_here (p s : str) : index_of p (p ++ s) = Some O.
Proof.
  destruct (p ++ s) eqn:E; cbn [index_of]; rewrite <- E, starts_with_app; reflexivity.
Qed.

(** A stretch of text that does not hold the first character of the
    pattern is skipped. *)
Lemma index_of_skip (c : ascii) (p a b : str) :
  ~ In c a ->
  index_of (c :: p) (a ++ b) = option_map (Nat.add (List.length a)) (index_of (c :: p) b).
Proof.
  intros H. induction a as [|x a IH].
  - simpl app. destruct (index_of (c :: p) b); reflexivity.
  - change ((x :: a) ++ b) with (x :: (a ++ b)). cbn [index_of].
    rewrite starts_with_head by (intros ->; apply H; left; reflexivity).
    rewrite IH by (intros Hc; apply H; right; exact Hc).
    destruct (index_of (c :: p) b); reflexivity.
Qed.

Lemma index_of_absent (c : ascii) (p a : str) :
  ~ In c a -> index_of (c :: p) a = None.
Proof.
  intros H. rewrite <- (app_nil_r a), index_of_skip by exact H. reflexivity.
Qed.

Lemma index_of_bound (c : ascii) (p s : str) (k : nat) :
  index_of (c :: p) s = Some k -> (k < List.length s)%nat.
Proof.
  intros H. destruct (index_of_Some _ _ _ H) as (H1 & H2 & _).
  destruct (Nat.eq_dec k (List.length s)) as [->|]; [|lia].
  rewrite skipn_all in H2. discriminate.
Qed.

(** [find] answers [npos] or a position inside the text, at or after
    the starting point. *)
Lemma find_range (s : str) (c : ascii) (p : str) (pos : Z) :
  0 <= pos ->
  find s (c :: p) pos = npos \/
  (pos <= find s (c :: p) pos < size s).
Proof.
  intros Hpos. unfold find. destruct (size s <? pos) eqn:E; [left; reflexivity|].
  apply Z.ltb_ge in E.
  destruct (index_of (c :: p) (skipn (Z.to_nat pos) s)) as [k|] eqn:Ek;
    [right | left; reflexivity].
  apply index_of_bound in Ek. rewrite length_skipn in Ek. unfold size in *. lia.
Qed.

Lemma find_from_prefix (pre rest p : str) :
  find (pre ++ rest) p (size pre) =
  match index_of p rest with
  | Some k => size pre + Z.of_nat k
  | None => npos
  end.
Proof.
  unfold find. rewrite skipn_size_app, size_app.
  pose proof (size_nonneg rest).
  destruct (size pre + size rest <? size pre) eqn:E; [apply Z.ltb_lt in E; lia|].
  reflexivity.
Qed.

Lemma find_skip (pre a : str) (c : ascii) (p b : str) :
  ~ In c a ->
  find (pre ++ a ++ (c :: p) ++ b) (c :: p) (size pre) = size pre + size a.
Proof.
  intros H. rewrite find_from_prefix, index_of_skip by exact H.
  rewrite index_of_here. simpl. unfold size. lia.
Qed.

Lemma find_chr_skip (pre a : str) (c : ascii) (b : str) :
  ~ In c a ->
  find_chr (pre ++ a ++ c :: b) c (size pre) = size pre + size a.
Proof. intros H. apply (find_skip pre a c [] b H). Qed.

Lemma find_absent (pre a : str) (c : ascii) (p : str) :
  ~ In c a -> find (pre ++ a) (c :: p) (size pre) = npos.
Proof.
  intros H. rewrite find_from_prefix, index_of_absent by exact H. reflexivity.
Qed.

Lemma find_chr_absent0 (s : str) (c : ascii) :
  ~ In c s -> find_chr s c 0 = npos.
Proof. intros H. apply (find_absent [] s c [] H). Qed.

Lemma find_past_end (s p : str) (pos : Z) : size s < pos -> find s p pos = npos.
Proof.
  intros H. unfold find. apply Z.ltb_lt in H. rewrite H. reflexivity.
Qed.

Lemma substr_mid (pre a b : str) :
  substr (pre ++ a ++ b) (size pre) (size a) = Ok a.
Proof.
  unfold substr. rewrite skipn_size_app, !size_app.
  pose proof (size_nonneg a). pose proof (size_nonneg b).
  destruct (size pre + (size a + size b) <? size pre) eqn:E; [apply Z.ltb_lt in E; lia|].
  rewrite Z.min_l by lia. rewrite firstn_size_app. reflexivity.
Qed.

Lemma substr_ok (s : str) (pos n : Z) :
  pos <= size s ->
  substr s pos n = Ok (firstn (Z.to_nat (Z.min n (size s - pos))) (skipn (Z.to_nat pos) s)).
Proof.
  intros H. unfold substr. destruct (size s <? pos) eqn:E; [apply Z.ltb_lt in E; lia|].
  reflexivity.
Qed.

Lemma index_mid (pre : str) (c : ascii) (b : str) :
  index (pre ++ c :: b) (size pre) = Ok c.
Proof.
  unfold index. rewrite size_app, size_cons. pose proof (size_nonneg b).
  destruct (size pre <? size pre + (1 + size b)) eqn:E; [|apply Z.ltb_ge in E; lia].
  unfold size. rewrite Nat2Z.id, nth_error_app2, Nat.sub_diag by lia. reflexivity.
Qed.

Lemma index_in_range (s : str) (i : Z) :
  0 <= i < size s -> exists c, index s i = Ok c /\ nth_error s (Z.to_nat i) = Some c.
Proof.
  intros H. unfold index. destruct (i <? size s) eqn:E; [|apply Z.ltb_ge in E; lia].
  destruct (nth_error s (Z.to_nat i)) as [c|] eqn:En; [eauto|].
  apply nth_error_None in En. unfold size in H. lia.
Qed.

(** A successful search stops where the pattern is. *)
Lemma find_hit (s p : str) (pos : Z) :
  0 <= pos -> size s < npos -> find s p pos <> npos ->
  starts_with p (skipn (Z.to_nat (find s p pos)) s) = true.
Proof.
  intros Hpos Hs. unfold find. destruct (size s <? pos); [congruence|].
  destruct (index_of p (skipn (Z.to_nat pos) s)) as [k|] eqn:E; [|congruence].
  intros _. destruct (index_of_Some _ _ _ E) as (_ & H & _).
  rewrite skipn_skipn in H. replace (Z.to_nat (pos + Z.of_nat k)) with (k + Z.to_nat pos)%nat by lia.
  exact H.
Qed.

End StdStringFacts.

(** * The top-level bracket: strict for messages, lenient for tools *)

(** C3. When the text holds no opening bracket, [parse_messages_json]
    throws its [runtime_error] while [parse_tools_json] returns no tool
    and no error; [parse_tools_json] also returns no tool on the empty
    text, and [parse_messages_json] returns no turn, and no error, on
    the empty array. *)
Theorem missing_bracket_strict_vs_lenient (fuel : nat) (json : str) :
  ~ In lbracket json ->
  parse_messages_json fuel json
    = Throw (runtime_error (lit "Invalid JSON: expected array"))
  /\ parse_tools_json fuel json = Ok []
  /\ parse_tools_json fuel [] = Ok []
  /\ parse_messages_json fuel (lit "[]") = Ok [].
Proof.
  intros H. apply find_chr_absent0 in H. repeat split.
  - unfold parse_messages_json. rewrite H. reflexivity.
  - unfold parse_tools_json. rewrite H. destruct json; reflexivity.
  - destruct fuel; reflexivity.
Qed.

Lemma missing_bracket_witness :
  parse_messages_json 8 (jq "{`role`:`user`}")
    = Throw (runtime_error (lit "Invalid JSON: expected array"))
  /\ parse_tools_json 8 (jq "{`role`:`user`}") = Ok []
  /\ parse_tools_json 8 [] = Ok []
  /\ parse_messages_json 8 (lit "[]") = Ok [].
Proof.
  apply (missing_bracket_strict_vs_lenient 8 (jq "{`role`:`user`}")).
  vm_compute. intros H. repeat (destruct H as [H|H]; [discriminate H|]). exact H.
Defined.

(** * More fuel changes nothing once a call has ended *)

Section Fuel.

Lemma approx_refl {A} (r : result A) : approx r r.
Proof. right. reflexivity. Qed.

Lemma approx_bind {A B} (c c' : result A) (k k' : A -> result B) :
  approx c c' -> (forall a, approx (k a) (k' a)) -> approx (bind c k) (bind c' k').
Proof.
  intros [->| ->] Hk; [left; reflexivity|].
  destruct c'; simpl; [apply Hk | right | right | right]; reflexivity.
Qed.

Ltac loop_mono n f :=
  induction n as [|n IH]; intros m;
  [ intros; cbn [f];
    match goal with |- context [if ?b then _ else _] => destruct b eqn:? end;
    [ left; reflexivity
    | destruct m; cbn [f];
      match goal with H : ?b = false |- context [if ?b then _ else _] => rewrite H end;
      apply approx_refl ]
  | destruct m as [|m]; [lia|]; intros; cbn [f];
    match goal with |- context [if ?b then _ else _] => destruct b end;
    [ | apply approx_refl ] ].

Lemma fc_brace_scan_mono (n : nat) :
  forall m text json_end brace_count, (n <= m)%nat ->
    approx (fc_brace_scan n text json_end brace_count)
           (fc_brace_scan m text json_end brace_count).
Proof.
  loop_mono n fc_brace_scan.
  apply approx_bind; [apply approx_refl|]. intros c.
  apply approx_bind; [apply approx_refl|]. intros b. apply IH. lia.
Qed.

Lemma fc_body_mono (f f' : nat) (text : str) (search_pos : Z) (st : DecodedResponse) :
  (f <= f')%nat -> approx (fc_body f text search_pos st) (fc_body f' text search_pos st).
Proof.
  intros H. unfold fc_body.
  repeat match goal with |- context [if ?b then _ else _] =>
    destruct b; [apply approx_refl|] end.
  apply approx_bind; [apply fc_brace_scan_mono; exact H|]. intros [e b].
  apply approx_refl.
Qed.

Lemma fc_loop_mono (f f' : nat) (n : nat) :
  forall m text search_pos st, (f <= f')%nat -> (n <= m)%nat ->
    approx (fc_loop f n text search_pos st) (fc_loop f' m text search_pos st).
Proof.
  induction n as [|n IH]; intros m text search_pos st Hf Hn.
  - cbn [fc_loop]. destruct (search_pos <? size text) eqn:E; [left; reflexivity|].
    destruct m; cbn [fc_loop]; rewrite E; apply approx_refl.
  - destruct m as [|m]; [lia|]. cbn [fc_loop].
    destruct (search_pos <? size text); [|apply approx_refl].
    apply approx_bind; [apply fc_body_mono; exact Hf|].
    intros [st'|[pos' st']]; [apply approx_refl | apply IH; lia].
Qed.

Lemma parse_function_calls_mono (f f' : nat) (text : str) :
  (f <= f')%nat ->
  approx (parse_function_calls_from_response f text)
         (parse_function_calls_from_response f' text).
Proof. intros H. apply fc_loop_mono; exact H. Qed.

Lemma content_end_scan_mono (n : nat) :
  forall m json content_end, (n <= m)%nat ->
    approx (content_end_scan n json content_end) (content_end_scan m json content_end).
Proof.
  loop_mono n content_end_scan.
  match goal with |- context [if ?b then _ else _] => destruct b; [apply approx_refl|] end.
  apply approx_bind; [apply approx_refl|]. intros c.
  destruct (negb (Ascii.eqb c backslash)); [apply approx_refl | apply IH; lia].
Qed.

Lemma unescape_loop_mono (n : nat) :
  forall m pat rep text escape_pos, (n <= m)%nat ->
    approx (unescape_loop n pat rep text escape_pos)
           (unescape_loop m pat rep text escape_pos).
Proof.
  induction n as [|n IH]; intros m pat rep text escape_pos Hn.
  - cbn [unescape_loop]. destruct (find text pat escape_pos =? npos) eqn:E; [|left; reflexivity].
    destruct m; cbn [unescape_loop]; rewrite E; apply approx_refl.
  - destruct m as [|m]; [lia|]. cbn [unescape_loop].
    destruct (find text pat escape_pos =? npos); [apply approx_refl|].
    apply approx_bind; [apply approx_refl|]. intros c. apply IH. lia.
Qed.

Lemma msg_body_mono (f f' : nat) (json : str) (pos : Z) (messages : list ChatMessage) :
  (f <= f')%nat -> approx (msg_body f json pos messages) (msg_body f' json pos messages).
Proof.
  intros H. unfold msg_body.
  match goal with |- context [if ?b then _ else _] => destruct b; [apply approx_refl|] end.
  apply approx_bind; [apply approx_refl|]. intros r.
  match goal with |- context [if ?b then _ else _] => destruct b; [apply approx_refl|] end.
  apply approx_bind; [apply content_end_scan_mono; exact H|]. intros e.
  apply approx_bind; [apply approx_refl|]. intros c.
  apply approx_bind; [apply unescape_loop_mono; exact H|]. intros c1.
  apply approx_bind; [apply unescape_loop_mono; exact H|]. intros c2.
  apply approx_refl.
Qed.

Lemma msg_loop_mono (f f' : nat) (n : nat) :
  forall m json pos messages, (f <= f')%nat -> (n <= m)%nat ->
    approx (msg_loop f n json pos messages) (msg_loop f' m json pos messages).
Proof.
  induction n as [|n IH]; intros m json pos messages Hf Hn.
  - cbn [msg_loop]. destruct (pos =? npos) eqn:E; [|left; reflexivity].
    destruct m; cbn [msg_loop]; rewrite E; apply approx_refl.
  - destruct m as [|m]; [lia|]. cbn [msg_loop].
    destruct (pos =? npos); [apply approx_refl|].
    apply approx_bind; [apply msg_body_mono; exact Hf|].
    intros [ms|[pos' ms]]; [apply approx_refl | apply IH; lia].
Qed.

Lemma parse_messages_mono (f f' : nat) (json : str) :
  (f <= f')%nat -> approx (parse_messages_json f json) (parse_messages_json f' json).
Proof.
  intros H. unfold parse_messages_json.
  destruct (find_chr json lbracket 0 =? npos); [apply approx_refl|].
  apply msg_loop_mono; exact H.
Qed.

Lemma params_scan_mono (n : nat) :
  forall m json params_end brace_count, (n <= m)%nat ->
    approx (params_scan n json params_end brace_count)
           (params_scan m json params_end brace_count).
Proof.
  loop_mono n params_scan.
  apply approx_bind; [apply approx_refl|]. intros c.
  apply approx_bind; [apply approx_refl|]. intros b. apply IH. lia.
Qed.

Lemma tools_body_mono (f f' : nat) (json : str) (pos : Z) (tools : list ToolFunction) :
  (f <= f')%nat -> approx (tools_body f json pos tools) (tools_body f' json pos tools).
Proof.
  intros H. unfold tools_body.
  apply approx_bind; [apply approx_refl|]. intros nm.
  apply approx_bind; [apply approx_refl|]. intros ds.
  apply approx_bind; [|intros; apply approx_refl].
  repeat match goal with |- context [if ?b then _ else _] =>
    destruct b; [|apply approx_refl] end.
  apply approx_bind; [apply params_scan_mono; exact H|]. intros [e b].
  apply approx_refl.
Qed.

Lemma tools_loop_mono (f f' : nat) (n : nat) :
  forall m json pos tools, (f <= f')%nat -> (n <= m)%nat ->
    approx (tools_loop f n json pos tools) (tools_loop f' m json pos tools).
Proof.
  induction n as [|n IH]; intros m json pos tools Hf Hn.
  - cbn [tools_loop]. destruct (pos =? npos) eqn:E; [|left; reflexivity].
    destruct m; cbn [tools_loop]; rewrite E; apply approx_refl.
  - destruct m as [|m]; [lia|]. cbn [tools_loop].
    destruct (pos =? npos); [apply approx_refl|].
    apply approx_bind; [apply tools_body_mono; exact Hf|].
    intros [pos' ts]. apply IH; lia.
Qed.

Lemma parse_tools_mono (f f' : nat) (json : str) :
  (f <= f')%nat -> approx (parse_tools_json f json) (parse_tools_json f' json).
Proof.
  intros H. unfold parse_tools_json. destruct json; [apply approx_refl|].
  match goal with |- context [if ?b then _ else _] => destruct b; [apply approx_refl|] end.
  apply tools_loop_mono; exact H.
Qed.

Lemma approx_step_refl (c : step) : approx_step c c.
Proof. intros o. right. reflexivity. Qed.

Lemma approx_and_then (c k k' : step) :
  approx_step k k' -> approx_step (c >> k) (c >> k').
Proof.
  intros H o. unfold and_then. destruct (c o) as [o1 [[]| | |]];
    try (right; reflexivity). apply H.
Qed.

Lemma stop_loop_mono (n : nat) :
  forall m json end_pos seq_pos, (n <= m)%nat ->
    approx_step (stop_loop n json end_pos seq_pos) (stop_loop m json end_pos seq_pos).
Proof.
  induction n as [|n IH]; intros m json end_pos seq_pos Hn.
  - cbn [stop_loop]. destruct (negb (seq_pos =? npos) && (seq_pos <? end_pos)) eqn:E.
    + intros o. left. reflexivity.
    + destruct m; cbn [stop_loop]; rewrite E; apply approx_step_refl.
  - destruct m as [|m]; [lia|]. cbn [stop_loop].
    destruct (negb (seq_pos =? npos) && (seq_pos <? end_pos)); [|apply approx_step_refl].
    apply approx_and_then. apply IH. lia.
Qed.

Lemma parse_options_mono (f f' : nat) (json : str) (o0 : SamplingOptions) :
  (f <= f')%nat ->
  snd (parse_options_json f json o0) = OutOfFuel \/
  parse_options_json f json o0 = parse_options_json f' json o0.
Proof.
  intros H. unfold parse_options_json. cbv zeta.
  destruct json as [|c json']; [right; reflexivity|].
  repeat apply approx_and_then. unfold read_stop_sequences.
  repeat match goal with |- context [if ?b then _ else _] =>
    destruct b; [|apply approx_step_refl] end.
  apply stop_loop_mono. exact H.
Qed.

End Fuel.

(** A run that ended with some fuel ends the same way with more. *)
Ltac more_fuel lemma f0 :=
  match goal with
  | |- ?lhs = ?rhs =>
      let M := fresh "M" in
      eassert (M : approx _ lhs) by (apply (lemma f0); lia);
      destruct M as [M|M]; [|rewrite <- M; vm_compute; reflexivity];
      exfalso; vm_compute in M; discriminate M
  end.

(** * The error response and its bounded destination *)

Section CStrings.

Lemma c_string_terminated (s rest : str) :
  ~ In nul s -> c_string (s ++ nul :: rest) = s.
Proof.
  induction s as [|c s IH]; intros H.
  - reflexivity.
  - cbn [app c_string].
    destruct (Ascii.eqb_spec c nul) as [->|N]; [exfalso; apply H; left; reflexivity|].
    rewrite IH; [reflexivity|]. intros X. apply H. right. exact X.
Qed.

Lemma c_string_whole (s : str) : ~ In nul s -> c_string s = s.
Proof.
  induction s as [|c s IH]; intros H.
  - reflexivity.
  - cbn [c_string].
    destruct (Ascii.eqb_spec c nul) as [->|N]; [exfalso; apply H; left; reflexivity|].
    rewrite IH; [reflexivity|]. intros X. apply H. right. exact X.
Qed.

(** The terminator that [c_str] appends ends the text at the latest. *)
Lemma c_string_c_str (s : str) : c_string (c_str s) = c_string s.
Proof.
  unfold c_str. induction s as [|c s IH].
  - reflexivity.
  - cbn [app c_string]. rewrite IH. reflexivity.
Qed.

Lemma sanitize_char_nul (c : ascii) : c <> nul -> sanitize_char c <> nul.
Proof.
  unfold sanitize_char.
  destruct (Ascii.eqb_spec c dquote) as [->|Q]; [discriminate|].
  destruct (Ascii.eqb_spec c newline) as [->|N]; [discriminate|].
  auto.
Qed.

Lemma error_json_shape (m : str) :
  error_json_of m = ERROR_PREFIX ++ map sanitize_char m ++ dquote :: lit "}".
Proof. reflexivity. Qed.

Lemma error_json_no_nul (m : str) : ~ In nul m -> ~ In nul (error_json_of m).
Proof.
  intros H X. rewrite error_json_shape in X.
  apply in_app_or in X. destruct X as [X|X].
  - vm_compute in X. repeat (destruct X as [X|X]; [discriminate X|]). exact X.
  - apply in_app_or in X. destruct X as [X|X].
    + apply in_map_iff in X. destruct X as (c & E & Hc).
      apply (sanitize_char_nul c); [|exact E]. intros ->. apply H. exact Hc.
    + vm_compute in X. repeat (destruct X as [X|X]; [discriminate X|]). exact X.
Qed.

End CStrings.

Section ErrorResponse.

Variables (error_message : str) (response_buffer : option str) (buffer_size : Z).

Lemma handle_error_response_overflow :
  response_buffer = None \/ buffer_size <= size (error_json_of error_message) ->
  handle_error_response error_message response_buffer buffer_size
    = Ok (tt, response_buffer).
Proof.
  intros H. unfold handle_error_response.
  destruct response_buffer as [mem|]; [|reflexivity].
  destruct H as [H|H]; [discriminate|].
  apply Z.ltb_ge in H. rewrite H. reflexivity.
Qed.

Lemma handle_error_response_written (r : unit) (buffer' : option str) :
  handle_error_response error_message response_buffer buffer_size = Ok (r, buffer') ->
  buffer' = response_buffer \/
  exists rest,
    buffer' = Some (c_string (error_json_of error_message) ++ nul :: rest)
    /\ size (error_json_of error_message) < buffer_size.
Proof.
  unfold handle_error_response.
  destruct response_buffer as [mem|]; [|intros [= _ <-]; left; reflexivity].
  destruct (size (error_json_of error_message) <? buffer_size) eqn:F;
    [|intros [= _ <-]; left; reflexivity].
  apply Z.ltb_lt in F.
  unfold strcpy. cbv zeta. rewrite c_string_c_str.
  destruct (size (c_string (error_json_of error_message)) + 1 <=? size mem);
    [|discriminate].
  cbn [bind]. intros [= _ <-]. right. eexists. split; [reflexivity | exact F].
Qed.

End ErrorResponse.

(** C9, as the code has it. When the error JSON does not fit the
    destination (its length is not below [buffer_size]) or the pointer
    is null, the destination is left as it was. Whenever the call
    returns, the destination is either untouched or, the JSON being
    shorter than [buffer_size], starts with what [strcpy] copies of it:
    the bytes of the JSON before its first zero byte, then a
    terminator. That is the whole JSON when the message holds no zero
    byte; a zero byte in the message ends the copy there. The function
    returns [void], so the caller receives no status. *)
Theorem error_response_leaves_destination
  (error_message : str) (response_buffer : option str) (buffer_size : Z) :
  response_buffer = None \/ buffer_size <= size (error_json_of error_message) ->
  handle_error_response error_message response_buffer buffer_size
    = Ok (tt, response_buffer)
  /\ forall msg buf n r buf',
       handle_error_response msg buf n = Ok (r, buf') ->
       r = tt /\
       (buf' = buf \/
        exists rest,
          buf' = Some (c_string (error_json_of msg) ++ nul :: rest)
          /\ size (error_json_of msg) < n
          /\ (~ In nul msg -> c_string (error_json_of msg) = error_json_of msg)).
Proof.
  intros H. split.
  - apply handle_error_response_overflow. exact H.
  - intros msg buf n r buf' E. split; [destruct r; reflexivity|].
    destruct (handle_error_response_written msg buf n r buf' E) as [U|(rest & W & F)];
      [left; exact U | right].
    exists rest. split; [exact W|]. split; [exact F|].
    intros N. apply c_string_whole. apply error_json_no_nul. exact N.
Qed.

Lemma error_response_leaves_destination_witness :
  handle_error_response (lit "engine failed") (Some (lit "0123456789")) 10
    = Ok (tt, Some (lit "0123456789"))
  /\ forall msg buf n r buf',
       handle_error_response msg buf n = Ok (r, buf') ->
       r = tt /\
       (buf' = buf \/
        exists rest,
          buf' = Some (c_string (error_json_of msg) ++ nul :: rest)
          /\ size (error_json_of msg) < n
          /\ (~ In nul msg -> c_string (error_json_of msg) = error_json_of msg)).
Proof.
  apply (error_response_leaves_destination (lit "engine failed")
           (Some (lit "0123456789")) 10).
  right. vm_compute. discriminate.
Defined.

(** C9, as stated, fails: no reading of the value the function returns
    tells an overflow from a success, since a call that overflows and a
    call that fits return the same (empty) value. *)
Lemma error_response_status_counterexample :
  ~ exists signal : unit -> bool,
      forall msg buf n r buf',
        handle_error_response msg buf n = Ok (r, buf') ->
        (signal r = true <-> (buf = None \/ n <= size (error_json_of msg))).
Proof.
  intros [signal H].
  assert (E1 : handle_error_response (lit "x") (Some (repeat nul 40)) 4
               = Ok (tt, Some (repeat nul 40))) by reflexivity.
  assert (E2 : exists buf', handle_error_response (lit "x") (Some (repeat nul 40)) 40
                            = Ok (tt, buf'))
    by (eexists; reflexivity).
  destruct E2 as [buf' E2]. apply H in E1. apply H in E2.
  destruct E1 as [_ E1]. destruct E2 as [E2 _].
  assert (S : signal tt = true) by (apply E1; right; vm_compute; discriminate).
  destruct (E2 S) as [E|E]; [discriminate E|].
  vm_compute in E. apply E. reflexivity.
Qed.

(** * The options decoder *)

Section OptionsFacts.

Variable fuel : nat.

Lemma stoul_outcome (s : str) :
  (exists v, stoul s = Ok v) \/
  (exists e, stoul s = Throw e /\ numeric_parse_failure e).
Proof.
  unfold stoul, numeric_parse_failure.
  destruct (read_sign (skip_spaces s)) as [neg s1].
  destruct (read_digits 10 digit_of s1 0 0) as [[v count] rest].
  destruct (count =? 0); [right; eauto|].
  destruct (ULONG_MAX <? v); [right; eauto | left; eauto].
Qed.

Lemma strto_outcome (prec emax : Z) (s : str) :
  (exists v, strto prec emax s = Ok v) \/
  (exists e, strto prec emax s = Throw e /\ numeric_parse_failure e).
Proof.
  unfold strto, numeric_parse_failure.
  destruct (scan_float s) as [[neg l]|]; [|right; eauto].
  destruct (range_error prec l (round_literal prec emax neg l));
    [right; eauto | left; eauto].
Qed.

Lemma field_value_outcome {A} (parse : str -> result A) (json : str) (key : string) :
  (forall s, (exists v, parse s = Ok v) \/
             (exists e, parse s = Throw e /\ numeric_parse_failure e)) ->
  (exists v, field_value parse json key = Ok v) \/
  (exists e, field_value parse json key = Throw e /\ numeric_parse_failure e).
Proof.
  intros Hp. unfold field_value, field_text, substr_from, substr.
  match goal with |- context [if ?b then _ else _] => destruct b end.
  - right. exists out_of_range. split; [reflexivity | right; reflexivity].
  - simpl. apply Hp.
Qed.

Lemma read_temperature_scalar json :
  read_temperature json = read_scalar "temperature" stof set_temperature json.
Proof. reflexivity. Qed.

Lemma read_top_p_scalar json :
  read_top_p json = read_scalar "top_p" stof set_top_p json.
Proof. reflexivity. Qed.

Lemma read_top_k_scalar json :
  read_top_k json = read_scalar "top_k" stoul set_top_k json.
Proof. reflexivity. Qed.

Lemma read_max_tokens_scalar json :
  read_max_tokens json = read_scalar "max_tokens" stoul set_max_tokens json.
Proof. reflexivity. Qed.

(** What a scalar block does: nothing when the key is absent, an
    assignment when the conversion succeeds, and otherwise the
    exception of the conversion, the options being left as they were. *)
Lemma read_scalar_cases {A} (key : string) (parse : str -> result A)
  (set : SamplingOptions -> A -> SamplingOptions) (json : str) (o : SamplingOptions) :
  (forall s, (exists v, parse s = Ok v) \/
             (exists e, parse s = Throw e /\ numeric_parse_failure e)) ->
  (present json key = false /\ read_scalar key parse set json o = (o, Ok tt)) \/
  (present json key = true /\ exists v, field_value parse json key = Ok v /\
     read_scalar key parse set json o = (set o v, Ok tt)) \/
  (present json key = true /\ exists e, field_value parse json key = Throw e /\
     numeric_parse_failure e /\ read_scalar key parse set json o = (o, Throw e)).
Proof.
  intros Hp. unfold read_scalar. destruct (present json key); [right | left; auto].
  destruct (field_value_outcome parse json key Hp) as [[v E]|[e [E He]]].
  - left. split; [reflexivity|]. exists v. unfold assign. rewrite E. auto.
  - right. split; [reflexivity|]. exists e. unfold assign. rewrite E. auto.
Qed.

(** The stop-sequence loop writes to [stop_sequences] only. *)
Lemma stop_loop_frame (n : nat) (json : str) (end_pos seq_pos : Z)
  (o o' : SamplingOptions) (r : result unit) :
  stop_loop n json end_pos seq_pos o = (o', r) ->
  temperature o' = temperature o /\ top_p o' = top_p o /\
  top_k o' = top_k o /\ max_tokens o' = max_tokens o.
Proof.
  revert seq_pos o. induction n as [|n IH]; intros seq_pos o; cbn [stop_loop];
    destruct (negb (seq_pos =? npos) && (seq_pos <? end_pos));
    try (intros [= <- <-]; auto).
  unfold and_then.
  match goal with |- context [if ?b then _ else _] => destruct b end.
  - unfold assign at 1.
    match goal with |- context [substr ?a ?b ?c] => destruct (substr a b c) end;
      try (intros [= <- <-]; auto).
    intros H. apply IH in H. simpl in H. exact H.
  - unfold skip at 1. apply IH.
Qed.

Lemma read_stop_sequences_frame (json : str) (o o' : SamplingOptions) (r : result unit) :
  read_stop_sequences fuel json o = (o', r) ->
  temperature o' = temperature o /\ top_p o' = top_p o /\
  top_k o' = top_k o /\ max_tokens o' = max_tokens o /\
  (present json "stop_sequences" = false -> o' = o /\ r = Ok tt).
Proof.
  unfold read_stop_sequences, present.
  destruct (negb (find json (quoted (lit "stop_sequences")) 0 =? npos)).
  - match goal with |- context [if ?b then _ else _] => destruct b end.
    + intros H. apply stop_loop_frame in H. intuition discriminate.
    + intros [= <- <-]. intuition discriminate.
  - intros [= <- <-]. intuition.
Qed.

End OptionsFacts.

Ltac scalar_cases H :=
  match type of H with
  | context [read_scalar ?key ?parse ?set ?json ?o] =>
      let Hp := fresh "Hp" in
      assert (Hp : forall s, (exists v, parse s = Ok v) \/
                     (exists e, parse s = Throw e /\ numeric_parse_failure e))
        by (first [exact stoul_outcome | exact (strto_outcome 24 128)]);
      let P := fresh "P" in let E := fresh "E" in let F := fresh "F" in
      let v := fresh "v" in let e := fresh "e" in let N := fresh "N" in
      destruct (read_scalar_cases key parse set json o Hp)
        as [[P E]|[[P [v [F E]]]|[P [e [F [N E]]]]]];
      rewrite E in H; clear E Hp; cbn iota beta in H
  end.

Lemma parse_options_contract (fuel : nat) (json : str) (o0 o : SamplingOptions)
  (r : result unit) :
  parse_options_json fuel json o0 = (o, r) -> options_contract json o r.
Proof.
  unfold parse_options_json, options_contract. cbv zeta. destruct json as [|c json'].
  - intros [= <- <-]. repeat split; intros; try reflexivity;
      match goal with H : present [] _ = true |- _ => vm_compute in H; discriminate H end.
  - set (json := c :: json').
    rewrite read_temperature_scalar, read_top_p_scalar, read_top_k_scalar,
      read_max_tokens_scalar.
    unfold and_then at 1. intros H. scalar_cases H;
      [| | injection H as <- <-; repeat split; try reflexivity; intros; congruence].
    all: unfold and_then at 1 in H; scalar_cases H;
      [| | injection H as <- <-; repeat split; try reflexivity; intros; congruence].
    all: unfold and_then at 1 in H; scalar_cases H;
      [| | injection H as <- <-; repeat split; try reflexivity; intros; congruence].
    all: unfold and_then at 1 in H; scalar_cases H;
      [| | injection H as <- <-; repeat split; try reflexivity; intros; congruence].
    all: apply read_stop_sequences_frame in H; cbn in H;
      destruct H as (H1 & H2 & H3 & H4 & H5);
      repeat split; intros; try congruence;
      try (destruct H5 as [-> _]; [assumption | reflexivity]).
Qed.

(** The [float] read from [0.7] is the binary32 number nearest to 7/10:
    it is [11744051 / 2^24], within half a unit in the last place. *)
Lemma float_0_7_nearest :
  float_of_decimal false 7 (-1) = S754_finite false 11744051 (-24)
  /\ 2 * Z.abs (10 * 11744051 - 7 * 2 ^ 24) <= 10.
Proof. split; [reflexivity | vm_compute; discriminate]. Qed.

Lemma parse_options_no_key (fuel : nat) (json : str) (o0 : SamplingOptions) :
  present json "temperature" = false -> present json "top_p" = false ->
  present json "top_k" = false -> present json "max_tokens" = false ->
  present json "stop_sequences" = false ->
  parse_options_json fuel json o0 = (default_options, Ok tt).
Proof.
  intros H1 H2 H3 H4 H5. unfold parse_options_json. cbv zeta.
  destruct json as [|c json']; [reflexivity|].
  rewrite read_temperature_scalar, read_top_p_scalar, read_top_k_scalar,
    read_max_tokens_scalar.
  unfold read_scalar, read_stop_sequences. fold (present (c :: json') "stop_sequences").
  rewrite H1, H2, H3, H4, H5. reflexivity.
Qed.

(** C6. [parse_options_json] first sets the five options to their
    defaults whatever they held (temperature and top_p [-1.0], top_k 0,
    max_tokens 100, no stop sequence), and then writes to a field only
    if its key text is found: a field whose key is absent holds its
    default after the call, and after a normal return a scalar field
    whose key is present holds the number read after the key's colon.
    On the text of the specification the call returns with temperature
    0.7, the defaults for top_p, top_k and max_tokens, and the stop
    sequences END and STOP in that order. *)
Theorem options_defaults_then_overwrite
  (fuel : nat) (json : str) (o0 o : SamplingOptions) (r : result unit) :
  parse_options_json fuel json o0 = (o, r) ->
  (forall o1, parse_options_json fuel json o1 = (o, r))
  /\ options_contract json o r
  /\ (present json "temperature" = false -> present json "top_p" = false ->
      present json "top_k" = false -> present json "max_tokens" = false ->
      present json "stop_sequences" = false ->
      o = default_options /\ r = Ok tt)
  /\ default_options
     = {| temperature := float_of_decimal true 10 (-1);
          top_p := float_of_decimal true 10 (-1);
          top_k := 0; max_tokens := 100; stop_sequences := [] |}
  /\ parse_options_json (2 + fuel) ex_options o0
     = ({| temperature := float_of_decimal false 7 (-1);
           top_p := float_of_decimal true 10 (-1);
           top_k := 0; max_tokens := 100;
           stop_sequences := [lit "END"; lit "STOP"] |}, Ok tt).
Proof.
  intros H. split; [|split; [|split; [|split]]].
  - intros o1. exact H.
  - eapply parse_options_contract. exact H.
  - intros H1 H2 H3 H4 H5.
    rewrite (parse_options_no_key fuel json o0 H1 H2 H3 H4 H5) in H.
    injection H as <- <-. split; reflexivity.
  - reflexivity.
  - destruct (parse_options_mono 2 (2 + fuel) ex_options o0 ltac:(lia)) as [M|M].
    + vm_compute in M. discriminate M.
    + rewrite <- M. vm_compute. reflexivity.
Qed.

Lemma options_defaults_then_overwrite_witness :
  (forall o1, parse_options_json 2 ex_options o1
              = ({| temperature := S754_finite false 11744051 (-24);
                    top_p := MINUS_ONE; top_k := 0; max_tokens := 100;
                    stop_sequences := [lit "END"; lit "STOP"] |}, Ok tt))
  /\ top_k default_options = 0.
Proof.
  destruct (options_defaults_then_overwrite 2 ex_options default_options
              {| temperature := S754_finite false 11744051 (-24);
                 top_p := MINUS_ONE; top_k := 0; max_tokens := 100;
                 stop_sequences := [lit "END"; lit "STOP"] |} (Ok tt))
    as (H1 & _).
  - vm_compute. reflexivity.
  - split; [exact H1 | reflexivity].
Defined.

(** C7. If the text after the colon of a scalar option key that is
    present cannot be read as a number of the field's type, the call
    does not return: it throws the exception of the conversion
    ([std::invalid_argument] or [std::out_of_range]), whatever the other
    keys. With [oops] as the value of top_k the exception is
    [std::invalid_argument], and top_k was not given a value. *)
Theorem numeric_parse_failure_is_fatal (fuel : nat) (json : str) (o0 : SamplingOptions) :
  unparsable stof json "temperature" \/ unparsable stof json "top_p" \/
  unparsable stoul json "top_k" \/ unparsable stoul json "max_tokens" ->
  (exists o e, parse_options_json fuel json o0 = (o, Throw e)
               /\ numeric_parse_failure e)
  /\ parse_options_json fuel (jq "{`top_k`:`oops`}") o0
     = (default_options, Throw invalid_argument).
Proof.
  intros U. split; [|vm_compute; reflexivity].
  unfold unparsable in U.
  destruct (parse_options_json fuel json o0) as [o r] eqn:H.
  revert H. unfold parse_options_json. cbv zeta. destruct json as [|c json'].
  - intros _. exfalso.
    destruct U as [[P _]|[[P _]|[[P _]|[P _]]]]; vm_compute in P; discriminate P.
  - set (json := c :: json') in *.
    rewrite read_temperature_scalar, read_top_p_scalar, read_top_k_scalar,
      read_max_tokens_scalar.
    unfold and_then at 1. intros H. scalar_cases H;
      [| | injection H as <- <-; eauto].
    all: unfold and_then at 1 in H; scalar_cases H;
      [| | injection H as <- <-; eauto].
    all: unfold and_then at 1 in H; scalar_cases H;
      [| | injection H as <- <-; eauto].
    all: unfold and_then at 1 in H; scalar_cases H;
      [| | injection H as <- <-; eauto].
    all: exfalso;
      destruct U as [[Q [x X]]|[[Q [x X]]|[[Q [x X]]|[Q [x X]]]]]; congruence.
Qed.

Lemma numeric_parse_failure_is_fatal_witness :
  (exists o e, parse_options_json 4 (jq "{`max_tokens`: many}") default_options
               = (o, Throw e) /\ numeric_parse_failure e)
  /\ parse_options_json 4 (jq "{`top_k`:`oops`}") default_options
     = (default_options, Throw invalid_argument).
Proof.
  apply (numeric_parse_failure_is_fatal 4 (jq "{`max_tokens`: many}") default_options).
  right. right. right. split; [reflexivity|].
  exists invalid_argument. reflexivity.
Defined.

(** * Numbers written as text *)

Section NumberText.

Lemma digit_char_is_digit (d : Z) : 0 <= d <= 9 -> is_digit (digit_char d) = true.
Proof.
  intros H.
  assert (C : d = 0 \/ d = 1 \/ d = 2 \/ d = 3 \/ d = 4 \/ d = 5 \/ d = 6 \/ d = 7
              \/ d = 8 \/ d = 9) by lia.
  repeat (destruct C as [->|C]; [reflexivity|]). subst d. reflexivity.
Qed.

Lemma digit_char_code (d : Z) : 0 <= d <= 9 -> code (digit_char d) - 48 = d.
Proof.
  intros H.
  assert (C : d = 0 \/ d = 1 \/ d = 2 \/ d = 3 \/ d = 4 \/ d = 5 \/ d = 6 \/ d = 7
              \/ d = 8 \/ d = 9) by lia.
  repeat (destruct C as [->|C]; [reflexivity|]). subst d. reflexivity.
Qed.

Lemma digits_value_app (a b : str) :
  digits_value (a ++ b)
  = fold_left (fun acc c => acc * 10 + (code c - 48)) b (digits_value a).
Proof. unfold digits_value. apply fold_left_app. Qed.

(** [show_unsigned] writes the decimal digits of its argument. *)
Lemma digits_of_pos_spec (fuel : nat) (n : Z) (acc : str) :
  0 <= n -> Z.log2 n < Z.of_nat fuel ->
  exists ds, digits_of_pos fuel n acc = ds ++ acc
             /\ ds <> [] /\ forallb is_digit ds = true /\ digits_value ds = n.
Proof.
  revert n acc. induction fuel as [|fuel IH]; intros n acc Hn Hf.
  - pose proof (Z.log2_nonneg n). lia.
  - cbn [digits_of_pos].
    assert (Hd : 0 <= n mod 10 <= 9) by (pose proof (Z.mod_pos_bound n 10); lia).
    destruct (n / 10 =? 0) eqn:E.
    + apply Z.eqb_eq in E. exists [digit_char (n mod 10)]. repeat split.
      * discriminate.
      * simpl. rewrite digit_char_is_digit by exact Hd. reflexivity.
      * unfold digits_value. simpl. rewrite digit_char_code by exact Hd.
        pose proof (Z.div_mod n 10). lia.
    + apply Z.eqb_neq in E.
      assert (H10 : 10 <= n).
      { destruct (Z_lt_le_dec n 10) as [L|L]; [|exact L].
        rewrite Z.div_small in E by lia. congruence. }
      assert (Hq : 0 < n / 10) by (apply Z.div_str_pos; lia).
      assert (Hl : Z.log2 (n / 10) < Z.of_nat fuel).
      { assert (n / 10 <= Z.div2 n)
          by (rewrite Z.div2_div; apply Z.div_le_compat_l; lia).
        assert (Z.log2 (n / 10) <= Z.log2 (Z.div2 n)) by (apply Z.log2_le_mono; assumption).
        assert (Z.log2 (Z.div2 n) = Z.max 0 (Z.log2 n - 1))
          by (rewrite Z.div2_spec; apply Z.log2_shiftr; lia).
        assert (0 < Z.log2 n) by (apply Z.log2_pos; lia).
        lia. }
      destruct (IH (n / 10) (digit_char (n mod 10) :: acc) (Z.lt_le_incl _ _ Hq) Hl)
        as (ds & E1 & E2 & E3 & E4).
      exists (ds ++ [digit_char (n mod 10)]). repeat split.
      * rewrite E1, <- app_assoc. reflexivity.
      * destruct ds; discriminate.
      * rewrite forallb_app, E3. simpl. rewrite digit_char_is_digit by exact Hd.
        reflexivity.
      * rewrite digits_value_app, E4. simpl. rewrite digit_char_code by exact Hd.
        pose proof (Z.div_mod n 10). lia.
Qed.

Lemma show_unsigned_spec (n : Z) :
  0 <= n ->
  show_unsigned n <> [] /\ forallb is_digit (show_unsigned n) = true
  /\ digits_value (show_unsigned n) = n.
Proof.
  intros Hn. unfold show_unsigned.
  destruct (digits_of_pos_spec (S (Z.to_nat (Z.log2 n))) n [] Hn) as (ds & E & H).
  - pose proof (Z.log2_nonneg n). lia.
  - rewrite E, app_nil_r. exact H.
Qed.

Lemma div_nearest_even_spec (num den : Z) :
  0 <= num -> 0 < den ->
  0 <= div_nearest_even num den
  /\ 2 * Z.abs (div_nearest_even num den * den - num) <= den.
Proof.
  intros Hn Hd. unfold div_nearest_even.
  pose proof (Z.div_mod num den ltac:(lia)) as E.
  pose proof (Z.mod_pos_bound num den Hd) as B.
  assert (Q : 0 <= num / den) by (apply Z.div_pos; lia).
  destruct (2 * (num mod den) <? den) eqn:E1; [apply Z.ltb_lt in E1; lia|].
  apply Z.ltb_ge in E1.
  destruct (den <? 2 * (num mod den)) eqn:E2; [apply Z.ltb_lt in E2; lia|].
  apply Z.ltb_ge in E2.
  destruct (Z.even (num / den)); lia.
Qed.

Lemma hundredths_spec (m : positive) (e : Z) :
  0 <= hundredths m e
  /\ 2 * Z.abs (hundredths m e * 2 ^ Z.max 0 (- e) - Zpos m * 100 * 2 ^ Z.max 0 e)
     <= 2 ^ Z.max 0 (- e).
Proof.
  unfold hundredths. destruct (0 <=? e) eqn:E.
  - apply Z.leb_le in E. rewrite (Z.max_l 0 (- e)), (Z.max_r 0 e) by lia.
    assert (0 < 2 ^ e) by (apply Z.pow_pos_nonneg; lia).
    split; [nia|]. simpl (2 ^ 0).
    replace (_ - _) with 0 by ring. simpl. lia.
  - apply Z.leb_gt in E. rewrite (Z.max_r 0 (- e)), (Z.max_l 0 e) by lia.
    assert (0 < 2 ^ (- e)) by (apply Z.pow_pos_nonneg; lia).
    destruct (div_nearest_even_spec (Zpos m * 100) (2 ^ (- e))) as [H1 H2]; [lia|lia|].
    split; [exact H1|]. simpl (2 ^ 0). rewrite Z.mul_1_r. exact H2.
Qed.

(** A finite [double] is written with exactly two decimal digits, and
    they are those of the nearest number of hundredths. *)
Lemma show_fixed2_two_decimals (x : spec_float) :
  is_finite x = true -> two_decimals_of x (show_fixed2 x).
Proof.
  destruct x as [s|s| |s m e]; try discriminate; intros _.
  - exists s, (lit "0"), "0"%char, "0"%char. repeat split. discriminate.
  - destruct (hundredths_spec m e) as [H0 H1].
    set (h := hundredths m e) in *.
    assert (Hq : 0 <= h / 100) by (apply Z.div_pos; lia).
    destruct (show_unsigned_spec (h / 100) Hq) as (E1 & E2 & E3).
    assert (D1 : 0 <= h / 10 mod 10 <= 9)
      by (pose proof (Z.mod_pos_bound (h / 10) 10); lia).
    assert (D2 : 0 <= h mod 10 <= 9) by (pose proof (Z.mod_pos_bound h 10); lia).
    exists s, (show_unsigned (h / 100)), (digit_char (h / 10 mod 10)),
      (digit_char (h mod 10)).
    assert (V : digits_value (show_unsigned (h / 100)
                              ++ [digit_char (h / 10 mod 10); digit_char (h mod 10)]) = h).
    { rewrite digits_value_app, E3. simpl.
      rewrite !digit_char_code by assumption.
      pose proof (Z.div_mod h 10). pose proof (Z.div_mod (h / 10) 10).
      rewrite Z.div_div in * by lia. simpl (10 * 10) in *. lia. }
    repeat split.
    + exact E1.
    + rewrite forallb_app, E2. simpl. rewrite !digit_char_is_digit by assumption.
      reflexivity.
    + rewrite V. exact H1.
Qed.

End NumberText.

(** * The encoded result *)

Section ResponseJson.

Lemma join_cons (sep x : str) (rest : list str) :
  join sep (x :: rest) = x ++ List.concat (map (fun c => sep ++ c) rest).
Proof.
  revert x. induction rest as [|y rest IH]; intros x.
  - simpl. rewrite app_nil_r. reflexivity.
  - change (join sep (x :: y :: rest)) with (x ++ sep ++ join sep (y :: rest)).
    rewrite IH. simpl. rewrite <- app_assoc. reflexivity.
Qed.

Lemma write_calls_later (calls : list str) (i : Z) (out : str) :
  0 < i -> i + Z.of_nat (List.length calls) < size_modulus ->
  write_calls calls i out = out ++ List.concat (map (fun c => lit "," ++ c) calls).
Proof.
  revert i out. induction calls as [|c calls IH]; intros i out Hi Hn.
  - simpl. rewrite app_nil_r. reflexivity.
  - cbn [write_calls]. simpl List.length in Hn.
    rewrite wrap_small by lia. rewrite IH by lia.
    destruct (0 <? i) eqn:E; [|apply Z.ltb_ge in E; lia].
    simpl. rewrite <- !app_assoc. reflexivity.
Qed.

(** The loop over the calls writes them with commas in between. *)
Lemma write_calls_join (calls : list str) :
  Z.of_nat (List.length calls) < size_modulus ->
  write_calls calls 0 [] = join (lit ",") calls.
Proof.
  intros Hn. destruct calls as [|c calls]; [reflexivity|].
  cbn [write_calls]. simpl List.length in Hn.
  rewrite write_calls_later by (change (wrap (0 + 1)) with 1; lia).
  rewrite join_cons. reflexivity.
Qed.

End ResponseJson.

(** C8. [construct_response_json] writes the object of the
    specification: the three timing metrics, when finite, with exactly
    two decimal digits (those of the nearest number of hundredths), the
    [function_calls] field only for a non-empty list, its entries as
    they are and separated by commas, and as [total_tokens] the sum of
    the two token counts, which is not an input of its own. For the
    response [ok], no call, 12.3456, 100.0, 9.999, 5 and 7 the text has
    [time_to_first_token_ms] at 12.35, no [function_calls] key and
    [total_tokens] at 12. *)
Theorem response_json_contract
  (regular_response : str) (function_calls : list str)
  (time_to_first_token total_time_ms tokens_per_second : spec_float)
  (prompt_tokens completion_tokens : Z) :
  is_finite time_to_first_token = true ->
  is_finite total_time_ms = true ->
  is_finite tokens_per_second = true ->
  0 <= prompt_tokens -> 0 <= completion_tokens ->
  prompt_tokens + completion_tokens < size_modulus ->
  Z.of_nat (List.length function_calls) < size_modulus ->
  construct_response_json regular_response function_calls time_to_first_token
      total_time_ms tokens_per_second prompt_tokens completion_tokens
    = encoded_result (List.concat (map escape_char regular_response)) function_calls
        (show_fixed2 time_to_first_token) (show_fixed2 total_time_ms)
        (show_fixed2 tokens_per_second)
        (show_unsigned prompt_tokens) (show_unsigned completion_tokens)
        (show_unsigned (prompt_tokens + completion_tokens))
  /\ two_decimals_of time_to_first_token (show_fixed2 time_to_first_token)
  /\ two_decimals_of total_time_ms (show_fixed2 total_time_ms)
  /\ two_decimals_of tokens_per_second (show_fixed2 tokens_per_second)
  /\ digits_value (show_unsigned (prompt_tokens + completion_tokens))
     = prompt_tokens + completion_tokens
  /\ (function_calls = [] <-> calls_field function_calls = [])
  /\ ex_result_json
     = encoded_result (lit "ok") [] (lit "12.35") (lit "100.00") (lit "10.00")
         (lit "5") (lit "7") (lit "12")
  /\ contains (quoted (lit "time_to_first_token_ms") ++ lit ":12.35,") ex_result_json = true
  /\ contains (lit "function_calls") ex_result_json = false
  /\ contains (quoted (lit "total_tokens") ++ lit ":12}") ex_result_json = true.
Proof.
  intros F1 F2 F3 Hp Hc Hs Hn.
  split; [|split; [|split; [|split; [|split; [|split]]]]].
  - unfold construct_response_json, encoded_result, calls_field, quoted.
    rewrite wrap_small by lia.
    destruct function_calls as [|c calls].
    + repeat (rewrite <- ?app_assoc; cbn [app]). reflexivity.
    + rewrite write_calls_join by exact Hn.
      repeat (rewrite <- ?app_assoc; cbn [app]). reflexivity.
  - apply show_fixed2_two_decimals. exact F1.
  - apply show_fixed2_two_decimals. exact F2.
  - apply show_fixed2_two_decimals. exact F3.
  - apply show_unsigned_spec. lia.
  - destruct function_calls; simpl; split; intros; (reflexivity || discriminate).
  - repeat split; vm_compute; reflexivity.
Qed.

Lemma response_json_contract_witness :
  construct_response_json (lit "ok") [lit "{}"] (double_of_decimal false 5 (-1))
      (S754_zero false) (double_of_decimal true 125 (-3)) 3 4
    = encoded_result (lit "ok") [lit "{}"] (lit "0.50") (lit "0.00") (lit "-0.12")
        (lit "3") (lit "4") (lit "7").
Proof.
  pose proof (response_json_contract (lit "ok") [lit "{}"]
                (double_of_decimal false 5 (-1)) (S754_zero false)
                (double_of_decimal true 125 (-3)) 3 4
                eq_refl eq_refl eq_refl
                ltac:(discriminate) ltac:(discriminate) eq_refl eq_refl) as [H _].
  rewrite H. reflexivity.
Defined.

(** * The tool decoder *)

Section ToolFacts.

Lemma after_quote_bound (s : str) (c : ascii) (pos : Z) :
  size s < npos -> 0 <= pos ->
  0 <= wrap (find_chr s c pos + 1) <= size s.
Proof.
  intros Hs Hpos. pose proof (size_nonneg s).
  destruct (find_range s c [] pos Hpos) as [E|E]; fold (find_chr s c pos) in E.
  - rewrite E, wrap_npos_succ. lia.
  - rewrite npos_eq in Hs. rewrite wrap_small by (unfold size_modulus; lia). lia.
Qed.

Lemma wrap_nonneg (z : Z) : 0 <= wrap z.
Proof. unfold wrap. apply Z.mod_pos_bound. reflexivity. Qed.

(** The text between the first two quotes after a key is always there
    to be taken: [substr] does not throw. *)
Lemma quoted_value_total (s : str) (key_end : Z) :
  size s < npos ->
  let start := wrap (find_chr s dquote (wrap key_end) + 1) in
  exists v, substr s start (wrap (find_chr s dquote start - start)) = Ok v.
Proof.
  intros Hs start.
  destruct (after_quote_bound s dquote (wrap key_end) Hs (wrap_nonneg _)) as [_ H].
  fold start in H. rewrite substr_ok by exact H. eauto.
Qed.

Lemma int_add_ok (x y : Z) :
  INT_MIN <= x + y <= INT_MAX -> int_add x y = Ok (x + y).
Proof.
  intros H. unfold int_add.
  destruct (INT_MIN <=? x + y) eqn:E1; [|apply Z.leb_gt in E1; lia].
  destruct (x + y <=? INT_MAX) eqn:E2; [|apply Z.leb_gt in E2; lia].
  reflexivity.
Qed.

(** The brace scan of the schema ends, stays inside the text and keeps
    its counter inside [int], as long as the text is no longer than
    [INT_MAX]. *)
Lemma params_scan_total (n : nat) :
  forall json params_end brace_count,
    size json < npos -> 0 <= params_end ->
    size json - params_end <= Z.of_nat n ->
    0 <= brace_count -> brace_count + (size json - params_end) <= INT_MAX ->
    exists params_end' brace_count',
      params_scan n json params_end brace_count = Ok (params_end', brace_count')
      /\ params_end <= params_end'
      /\ (params_end' <= size json \/ params_end' = params_end).
Proof.
  induction n as [|n IH]; intros json pe bc Hs Hpe Hn Hbc Hmax; cbn [params_scan];
    destruct ((pe <? size json) && (0 <? bc)) eqn:C;
    try (exists pe, bc; split; [reflexivity | lia]).
  - apply andb_true_iff in C. destruct C as [C _]. apply Z.ltb_lt in C. lia.
  - apply andb_true_iff in C. destruct C as [C1 C2].
    apply Z.ltb_lt in C1. apply Z.ltb_lt in C2.
    destruct (index_in_range json pe) as [c [-> _]]; [lia|]. cbn [bind].
    assert (B : INT_MIN <= bc - 1 /\ bc + 1 <= INT_MAX /\ INT_MIN <= bc /\ bc <= INT_MAX)
      by (unfold INT_MIN, INT_MAX in *; lia).
    assert (W : wrap (pe + 1) = pe + 1)
      by (apply wrap_small; rewrite npos_eq in Hs; unfold size_modulus; lia).
    rewrite W.
    destruct (Ascii.eqb c lbrace); [|destruct (Ascii.eqb c rbrace)].
    + rewrite int_add_ok by lia. cbn [bind].
      destruct (IH json (pe + 1) (bc + 1)) as (e & b & E & H1 & H2); try lia.
      exists e, b. split; [exact E | lia].
    + rewrite int_add_ok by lia. cbn [bind].
      destruct (IH json (pe + 1) (bc + -1)) as (e & b & E & H1 & H2); try lia.
      exists e, b. split; [exact E | lia].
    + cbn [bind].
      destruct (IH json (pe + 1) bc) as (e & b & E & H1 & H2); try lia.
      exists e, b. split; [exact E | lia].
Qed.

Variable fuel : nat.
Variable json : str.
Hypothesis json_short : size json <= INT_MAX.
Hypothesis enough_fuel : size json <= Z.of_nat fuel.

Lemma json_below_npos : size json < npos.
Proof. rewrite npos_eq. unfold INT_MAX in json_short. lia. Qed.

Lemma find_quoted_range (s key : str) (pos : Z) :
  0 <= pos ->
  find s (quoted key) pos = npos \/ pos <= find s (quoted key) pos < size s.
Proof. apply (find_range s dquote (key ++ [dquote]) pos). Qed.

Lemma find_chr_range (s : str) (c : ascii) (pos : Z) :
  0 <= pos ->
  find_chr s c pos = npos \/ pos <= find_chr s c pos < size s.
Proof. apply (find_range s c [] pos). Qed.

(** One turn of the loop always appends one tool. *)
Lemma tools_body_total (pos : Z) (tools : list ToolFunction) :
  0 <= pos ->
  exists tool,
    tools_body fuel json pos tools
    = Ok (find json (quoted (lit "function")) (find json (quoted (lit "name")) pos),
          tools ++ [tool])
    /\ (find json (quoted (lit "name")) pos = npos -> name tool = []).
Proof.
  intros Hpos. pose proof json_below_npos as Hs. unfold tools_body.
  set (name_pos := find json (quoted (lit "name")) pos).
  set (desc_pos := find json (quoted (lit "description")) pos).
  set (params_pos := find json (quoted (lit "parameters")) pos).
  assert (N : exists v,
    (if negb (name_pos =? npos)
     then substr json (wrap (find_chr json dquote (wrap (name_pos + 6)) + 1))
            (wrap (find_chr json dquote (wrap (find_chr json dquote (wrap (name_pos + 6)) + 1))
                   - wrap (find_chr json dquote (wrap (name_pos + 6)) + 1)))
     else Ok []) = Ok v /\ (name_pos = npos -> v = [])).
  { destruct (name_pos =? npos) eqn:E; cbn [negb].
    - exists []. auto.
    - destruct (quoted_value_total json (name_pos + 6) Hs) as [v Hv].
      exists v. split; [exact Hv|]. apply Z.eqb_neq in E. congruence. }
  destruct N as (nm & -> & Hnm). cbn [bind].
  assert (D : exists v,
    (if negb (desc_pos =? npos)
     then substr json (wrap (find_chr json dquote (wrap (desc_pos + 13)) + 1))
            (wrap (find_chr json dquote (wrap (find_chr json dquote (wrap (desc_pos + 13)) + 1))
                   - wrap (find_chr json dquote (wrap (desc_pos + 13)) + 1)))
     else Ok []) = Ok v).
  { destruct (desc_pos =? npos); cbn [negb]; [eauto|].
    apply (quoted_value_total json (desc_pos + 13) Hs). }
  destruct D as (ds & ->). cbn [bind].
  assert (P : exists v,
    (if negb (params_pos =? npos)
     then if negb (find_chr json lbrace params_pos =? npos)
          then '(params_end, _) <-
                 params_scan fuel json (wrap (find_chr json lbrace params_pos + 1)) 1 ;;
               schema <- substr json (find_chr json lbrace params_pos)
                           (wrap (params_end - find_chr json lbrace params_pos)) ;;
               Ok (smap_set [] SCHEMA schema)
          else Ok []
     else Ok []) = Ok v).
  { destruct (params_pos =? npos) eqn:E; cbn [negb]; [eauto|].
    destruct (find_chr json lbrace params_pos =? npos) eqn:E'; cbn [negb]; [eauto|].
    apply Z.eqb_neq in E, E'.
    destruct (find_quoted_range json (lit "parameters") pos Hpos) as [F|F];
      fold params_pos in F; [congruence|].
    destruct (find_chr_range json lbrace params_pos ltac:(lia)) as [G|G]; [congruence|].
    set (params_start := find_chr json lbrace params_pos) in *.
    assert (W : wrap (params_start + 1) = params_start + 1)
      by (apply wrap_small; rewrite npos_eq in Hs; unfold size_modulus; lia).
    rewrite W.
    destruct (params_scan_total fuel json (params_start + 1) 1)
      as (e & b & -> & H1 & H2); try lia.
    cbn [bind]. rewrite substr_ok by lia. cbn [bind]. eauto. }
  destruct P as (ps & ->). cbn [bind].
  eexists. split; [reflexivity|]. exact Hnm.
Qed.

(** Each turn moves the search position forward. *)
Lemma tools_next_pos (pos : Z) :
  0 <= pos ->
  let pos' := find json (quoted (lit "function")) (find json (quoted (lit "name")) pos) in
  pos' = npos \/ pos < pos' < size json.
Proof.
  intros Hpos pos'. pose proof json_below_npos as Hs.
  destruct (find_quoted_range json (lit "name") pos Hpos) as [F|F].
  - left. unfold pos'. rewrite F. apply find_past_end. exact Hs.
  - destruct (find_quoted_range json (lit "function")
                (find json (quoted (lit "name")) pos) ltac:(lia)) as [G|G];
      fold pos' in G; [left; exact G | right].
    destruct (Z.eq_dec pos' pos) as [Heq|]; [exfalso | lia].
    assert (Hn : find json (quoted (lit "name")) pos = pos) by lia.
    assert (H1 := find_hit json (quoted (lit "name")) pos Hpos Hs ltac:(lia)).
    assert (H2 := find_hit json (quoted (lit "function"))
                    (find json (quoted (lit "name")) pos) ltac:(lia) Hs ltac:(fold pos'; lia)).
    fold pos' in H2. rewrite Hn in H1. rewrite Heq in H2.
    destruct (skipn (Z.to_nat pos) json) as [|a [|b l]];
      cbn [starts_with quoted lit list_ascii_of_string app] in H1, H2;
      [discriminate H1 | rewrite andb_false_r in H1; discriminate H1 |].
    apply andb_true_iff in H1, H2.
    destruct H1 as [_ H1]. destruct H2 as [_ H2].
    apply andb_true_iff in H1, H2. destruct H1 as [H1 _]. destruct H2 as [H2 _].
    apply Ascii.eqb_eq in H1, H2. congruence.
Qed.

Lemma tools_loop_total (n : nat) :
  forall pos tools,
    pos = npos \/ (0 <= pos < size json /\ size json - pos <= Z.of_nat n) ->
    exists tools', tools_loop fuel n json pos tools = Ok tools'.
Proof.
  pose proof json_below_npos as Hs.
  induction n as [|n IH]; intros pos tools Hn; cbn [tools_loop];
    destruct (pos =? npos) eqn:E; eauto; apply Z.eqb_neq in E;
    destruct Hn as [Hn|[Hpos Hn]]; try congruence; [lia|].
  destruct (tools_body_total pos tools) as (tool & -> & _); [lia|]. cbn [bind].
  destruct (tools_next_pos pos) as [F|F]; [lia| |]; apply IH; [left; exact F | right; lia].
Qed.

End ToolFacts.

(** [parse_tools_json] returns for every text that [int] can count:
    no fuel is missing once there is as much as characters, no
    exception is thrown and no character is read out of range. *)
Lemma parse_tools_json_total (fuel : nat) (json : str) :
  size json <= INT_MAX -> size json <= Z.of_nat fuel ->
  exists tools, parse_tools_json fuel json = Ok tools.
Proof.
  intros Hs Hf. unfold parse_tools_json. destruct json as [|c json']; [eauto|].
  set (json := c :: json') in *.
  destruct (find_chr json lbracket 0 =? npos) eqn:E; [eauto|]. apply Z.eqb_neq in E.
  destruct (find_chr_range json lbracket 0 ltac:(lia)) as [F|F]; [congruence|].
  apply tools_loop_total; try assumption.
  destruct (find_quoted_range json (lit "function") (find_chr json lbracket 0) ltac:(lia))
    as [G|G]; [left; exact G | right; lia].
Qed.

Lemma tools_loop_at_npos (fuel n : nat) (json : str) (tools : list ToolFunction) :
  tools_loop fuel n json npos tools = Ok tools.
Proof. destruct n; reflexivity. Qed.

(** C10. In [parse_tools_json] the name, the description and the
    parameters of a record are searched forward from the marker, each on
    its own and with no regard for the end of the wrapper object, and
    the search for the next marker goes on from where the name key of
    this record was found. So, when no name key follows the marker, the
    loop appends that one record, with an empty name, and stops; and on
    a text of two wrapper objects of which the first has no name key
    the decoder returns one record, made of the fields of the second
    object, instead of two. *)
Theorem tools_searches_ignore_wrapper_end
  (fuel n : nat) (json : str) (pos : Z) (tools : list ToolFunction) :
  size json <= INT_MAX -> size json <= Z.of_nat fuel -> 0 <= pos < size json ->
  (exists tool,
     tools_body fuel json pos tools
     = Ok (find json (quoted (lit "function")) (find json (quoted (lit "name")) pos),
           tools ++ [tool]))
  /\ (find json (quoted (lit "name")) pos = npos ->
      exists tool, name tool = []
                   /\ tools_loop fuel (S n) json pos tools = Ok (tools ++ [tool]))
  /\ parse_tools_json (16 + fuel) ex_two_wrappers
     = Ok [{| name := lit "b"; description := lit "d";
              parameters := [(SCHEMA, jq "{`k`:1}")] |}]
  /\ parse_tools_json (16 + fuel) ex_nameless_wrapper
     = Ok [{| name := []; description := lit "only"; parameters := [] |}].
Proof.
  intros Hs Hf Hpos.
  destruct (tools_body_total fuel json Hs Hf pos tools ltac:(lia)) as (tool & E & Hn).
  split; [|split; [|split]].
  - exists tool. exact E.
  - intros F. exists tool. split; [apply Hn; exact F|].
    cbn [tools_loop].
    destruct (pos =? npos) eqn:P; [apply Z.eqb_eq in P; rewrite npos_eq in P;
                                   unfold INT_MAX in Hs; lia|].
    rewrite E. cbn [bind]. rewrite F.
    rewrite find_past_end by (rewrite npos_eq; unfold INT_MAX in Hs; lia).
    apply tools_loop_at_npos.
  - more_fuel parse_tools_mono 16%nat.
  - more_fuel parse_tools_mono 16%nat.
Qed.

Lemma tools_searches_ignore_wrapper_end_witness :
  exists tool, name tool = []
    /\ tools_loop 80 1 ex_nameless_wrapper 9 [] = Ok [tool].
Proof.
  destruct (tools_searches_ignore_wrapper_end 80 0 ex_nameless_wrapper 9 [])
    as (_ & H & _).
  - vm_compute. discriminate.
  - vm_compute. discriminate.
  - vm_compute. split; [discriminate | reflexivity].
  - apply H. vm_compute. reflexivity.
Defined.

(** * The prompt formatter *)

Section PromptFormat.

Lemma format_tool_later (i : Z) (tool : ToolFunction) :
  0 < i -> format_tool i tool = TOOL_SEPARATOR ++ format_tool 0 tool.
Proof.
  intros H. unfold format_tool. apply Z.ltb_lt in H. rewrite H.
  change (0 <? 0) with false. cbn [app]. reflexivity.
Qed.

Lemma format_tools_loop_later (tools : list ToolFunction) (i : Z) (out : str) :
  0 < i -> i + Z.of_nat (List.length tools) < size_modulus ->
  format_tools_loop tools i out
  = out ++ List.concat (map (fun t => TOOL_SEPARATOR ++ format_tool 0 t) tools).
Proof.
  revert i out. induction tools as [|t tools IH]; intros i out Hi Hn.
  - simpl. rewrite app_nil_r. reflexivity.
  - cbn [format_tools_loop map List.concat]. simpl List.length in Hn.
    rewrite wrap_small by lia. rewrite IH by lia.
    rewrite format_tool_later by exact Hi. rewrite <- !app_assoc. reflexivity.
Qed.

(** The tools are written one after the other, a comma and a line
    break between two of them, and nothing around them. *)
Lemma format_tools_join (tools : list ToolFunction) :
  Z.of_nat (List.length tools) < size_modulus ->
  format_tools_for_prompt tools = join TOOL_SEPARATOR (map (format_tool 0) tools).
Proof.
  intros Hn. destruct tools as [|t tools]; [reflexivity|].
  unfold format_tools_for_prompt. cbn [format_tools_loop]. simpl List.length in Hn.
  rewrite format_tools_loop_later by (change (wrap (0 + 1)) with 1; lia).
  cbn [map]. rewrite join_cons, map_map. reflexivity.
Qed.

End PromptFormat.

(** C5, as the code has it. [format_tools_for_prompt] writes each tool
    as a [{"type": "function", "function": {...}}] object laid out over
    several lines, the objects separated by a comma and a line break
    and with no bracket around them, and returns the empty text for no
    tool. For the descriptor of the specification, the schema that
    [parse_tools_json] stores is the brace-balanced text of the input,
    byte for byte; the formatter's output for it is a syntactically
    valid JSON object that holds this schema text unchanged, and
    decoding that output between brackets gives the descriptor back. *)
Theorem format_tools_contract (fuel : nat) (tools : list ToolFunction) :
  Z.of_nat (List.length tools) < size_modulus ->
  format_tools_for_prompt tools = join TOOL_SEPARATOR (map (format_tool 0) tools)
  /\ format_tools_for_prompt [] = []
  /\ parse_tools_json (64 + fuel) ex_tools_json = Ok [ex_tool]
  /\ smap_find (parameters ex_tool) SCHEMA = Some ex_schema
  /\ contains ex_schema ex_tools_json = true
  /\ Json.is_object (format_tools_for_prompt [ex_tool]) = true
  /\ contains ex_schema (format_tools_for_prompt [ex_tool]) = true
  /\ line_count (format_tools_for_prompt [ex_tool]) = 8%nat
  /\ parse_tools_json (64 + fuel)
       (lit "[" ++ format_tools_for_prompt [ex_tool] ++ lit "]") = Ok [ex_tool].
Proof.
  intros Hn. split; [apply format_tools_join; exact Hn|].
  split; [reflexivity|].
  split; [more_fuel parse_tools_mono 64%nat|].
  split; [reflexivity|].
  split; [vm_compute; reflexivity|].
  split; [vm_compute; reflexivity|].
  split; [vm_compute; reflexivity|].
  split; [vm_compute; reflexivity|].
  more_fuel parse_tools_mono 64%nat.
Qed.

Lemma format_tools_contract_witness :
  format_tools_for_prompt [ex_tool; ex_tool]
  = format_tool 0 ex_tool ++ TOOL_SEPARATOR ++ format_tool 0 ex_tool.
Proof.
  destruct (format_tools_contract 0 [ex_tool; ex_tool]) as [H _].
  - vm_compute. reflexivity.
  - exact H.
Defined.

(** C5, as stated, fails: the output for one tool is no JSON array (it
    starts with a brace), the output for two tools is no JSON text at
    all, and one tool takes eight lines. *)
Lemma format_tools_array_counterexample :
  ~ (forall tools, tools <> [] ->
       Json.is_array (format_tools_for_prompt tools) = true
       /\ line_count (format_tools_for_prompt tools) = List.length tools)
  /\ Json.first_char (format_tools_for_prompt [ex_tool]) = Some lbrace
  /\ Json.valid (format_tools_for_prompt [ex_tool; ex_tool]) = false.
Proof.
  split; [|split; vm_compute; reflexivity].
  intros H. destruct (H [ex_tool]) as [A _]; [discriminate|].
  vm_compute in A. discriminate A.
Qed.

(** * Partial input: where the decoders go wrong *)

Section PartialInput.

(** On [ex_messages_forever] each turn of the loop appends a message
    and comes back to the same brace. *)
Lemma msg_body_repeats (f : nat) (messages : list ChatMessage) :
  msg_body (S f) ex_messages_forever 3 messages
  = Ok (inr (3, messages ++ [{| role := lit "u"; content := lit "x" |}])).
Proof.
  destruct (msg_body_mono 1 (S f) ex_messages_forever 3 messages ltac:(lia)) as [M|M].
  - vm_compute in M. discriminate M.
  - rewrite <- M. vm_compute. reflexivity.
Qed.

Lemma msg_loop_forever (f n : nat) :
  forall messages, msg_loop f n ex_messages_forever 3 messages = OutOfFuel.
Proof.
  induction n as [|n IH]; intros messages; [reflexivity|].
  cbn [msg_loop]. change (3 =? npos) with false. cbv iota.
  destruct f as [|f]; [reflexivity|].
  rewrite msg_body_repeats. cbn [bind]. apply IH.
Qed.

Lemma stop_loop_unfold (n : nat) (json : str) (end_pos seq_pos : Z) :
  stop_loop (S n) json end_pos seq_pos
  = if negb (seq_pos =? npos) && (seq_pos <? end_pos) then
      (if negb (find_chr json dquote (wrap (seq_pos + 1)) =? npos)
       then assign (substr json (wrap (seq_pos + 1))
                      (wrap (find_chr json dquote (wrap (seq_pos + 1)) - wrap (seq_pos + 1))))
                   push_stop_sequence
       else skip)
      >> stop_loop n json end_pos
           (find_chr json dquote (wrap (find_chr json dquote (wrap (seq_pos + 1)) + 1)))
    else skip.
Proof. reflexivity. Qed.

(** On [ex_options_forever] the loop goes from the last quote back to
    the first one, and from there to the last one again. *)
Lemma stop_loop_forever (n : nat) :
  forall o,
    snd (stop_loop n ex_options_forever npos 19 o) = OutOfFuel
    /\ snd (stop_loop n ex_options_forever npos 1 o) = OutOfFuel.
Proof.
  induction n as [|n IH]; intros o; [split; reflexivity|].
  rewrite !stop_loop_unfold. split.
  - change (find_chr ex_options_forever dquote (wrap (19 + 1))) with npos.
    change (negb (19 =? npos) && (19 <? npos)) with true.
    change (negb (npos =? npos)) with false. cbv iota.
    change (find_chr ex_options_forever dquote (wrap (npos + 1))) with 1.
    unfold and_then, skip. apply IH.
  - change (find_chr ex_options_forever dquote (wrap (1 + 1))) with 16.
    change (negb (1 =? npos) && (1 <? npos)) with true.
    change (negb (16 =? npos)) with true. cbv iota.
    change (find_chr ex_options_forever dquote (wrap (16 + 1))) with 19.
    change (substr ex_options_forever (wrap (1 + 1)) (wrap (16 - wrap (1 + 1))))
      with (Ok (lit "stop_sequences")).
    unfold and_then, assign. apply IH.
Qed.

End PartialInput.

(** C1 fails on the code. On a text cut after the content key,
    [parse_messages_json] reads the character before the start of the
    text when the text begins with a double quote (index [2^64 - 1],
    out of range), and never leaves its loop when it does not; on a
    text cut inside a stop sequence [parse_options_json] never leaves
    its loop either: whatever the fuel, the run is not over. *)
Theorem partial_input_breaks_decoders (fuel : nat) :
  parse_messages_json (S fuel) ex_read_before_start = Undefined
  /\ parse_messages_json fuel ex_messages_forever = OutOfFuel
  /\ snd (parse_options_json fuel ex_options_forever default_options) = OutOfFuel.
Proof.
  split; [|split].
  - more_fuel parse_messages_mono 1%nat.
  - unfold parse_messages_json.
    change (find_chr ex_messages_forever lbracket 0) with 2.
    change (2 =? npos) with false. cbv iota.
    change (find_chr ex_messages_forever lbrace 2) with 3.
    apply msg_loop_forever.
  - unfold parse_options_json. cbv zeta.
    change ex_options_forever with ("{"%char :: tl ex_options_forever) at 1. cbv iota.
    rewrite read_temperature_scalar, read_top_p_scalar, read_top_k_scalar,
      read_max_tokens_scalar.
    unfold read_scalar.
    change (present ex_options_forever "temperature") with false.
    change (present ex_options_forever "top_p") with false.
    change (present ex_options_forever "top_k") with false.
    change (present ex_options_forever "max_tokens") with false.
    cbv iota. unfold and_then at 1 2 3 4. unfold skip at 1 2 3 4. cbv iota beta.
    unfold read_stop_sequences.
    change (find ex_options_forever (quoted (lit "stop_sequences")) 0) with 1.
    change (negb (1 =? npos)) with true. cbv iota.
    change (find_chr ex_options_forever lbracket 1) with 18.
    change (negb (18 =? npos)) with true. cbv iota.
    change (find_chr ex_options_forever rbracket 18) with npos.
    change (find_chr ex_options_forever dquote 18) with 19.
    apply stop_loop_forever.
Qed.

(** * Slices of a text *)

Section Slices.

Variable s : str.

Lemma sub_full : sub s 0 (size s) = s.
Proof.
  unfold sub, size. simpl skipn. rewrite Z.sub_0_r, Nat2Z.id. apply firstn_all.
Qed.

Lemma sub_empty (a : Z) : sub s a a = [].
Proof. unfold sub. rewrite Z.sub_diag. reflexivity. Qed.

Lemma size_sub (a b : Z) : 0 <= a <= b -> b <= size s -> size (sub s a b) = b - a.
Proof.
  intros H1 H2. unfold sub, size in *. rewrite length_firstn, length_skipn. lia.
Qed.

Lemma sub_split (a b c : Z) :
  0 <= a <= b -> b <= c -> sub s a c = sub s a b ++ sub s b c.
Proof.
  intros H1 H2. unfold sub.
  replace (Z.to_nat (c - a)) with (Z.to_nat (b - a) + Z.to_nat (c - b))%nat by lia.
  rewrite <- (firstn_skipn (Z.to_nat (b - a)) (skipn (Z.to_nat a) s)) at 1.
  rewrite firstn_app, length_firstn.
  destruct (Nat.le_gt_cases (Z.to_nat (b - a)) (List.length (skipn (Z.to_nat a) s))) as [L|L].
  - rewrite Nat.min_l by exact L.
    rewrite firstn_all2 by (rewrite length_firstn; lia).
    replace (Z.to_nat (b - a) + Z.to_nat (c - b) - Z.to_nat (b - a))%nat
      with (Z.to_nat (c - b)) by lia.
    rewrite skipn_skipn. replace (Z.to_nat (b - a) + Z.to_nat a)%nat with (Z.to_nat b) by lia.
    reflexivity.
  - rewrite Nat.min_r by lia.
    rewrite (skipn_all2 (n := Z.to_nat (b - a))) by lia.
    rewrite firstn_nil, app_nil_r.
    rewrite firstn_all2 by (rewrite length_firstn; lia).
    rewrite (skipn_all2 (n := Z.to_nat b)); [rewrite firstn_nil, app_nil_r; reflexivity|].
    rewrite length_skipn in L. lia.
Qed.

Lemma sub_prefix (b : Z) : sub s 0 b = firstn (Z.to_nat b) s.
Proof. unfold sub. rewrite Z.sub_0_r. reflexivity. Qed.

Lemma sub_cons (a b : Z) (c : ascii) :
  0 <= a < b -> nth_error s (Z.to_nat a) = Some c ->
  sub s a b = c :: sub s (a + 1) b.
Proof.
  intros H E. unfold sub.
  replace (Z.to_nat (b - a)) with (S (Z.to_nat (b - (a + 1)))) by lia.
  replace (Z.to_nat (a + 1)) with (S (Z.to_nat a)) by lia.
  revert E. generalize (Z.to_nat a) as k. intros k. revert s.
  induction k as [|k IH]; intros [|x l] E; try discriminate.
  - injection E as ->. reflexivity.
  - apply (IH l E).
Qed.

Lemma substr_sub (a b : Z) :
  size s < npos -> 0 <= a <= b -> b <= size s ->
  substr s a (wrap (b - a)) = Ok (sub s a b).
Proof.
  intros Hs H1 H2. rewrite substr_ok by lia.
  rewrite wrap_small by (rewrite npos_eq in Hs; unfold size_modulus; lia).
  rewrite Z.min_l by lia. reflexivity.
Qed.

(** What a successful search says about the text. *)
Lemma find_sub (p : str) (pos : Z) :
  0 <= pos -> size s < npos -> find s p pos <> npos ->
  pos <= find s p pos
  /\ find s p pos + size p <= size s
  /\ sub s (find s p pos) (find s p pos + size p) = p.
Proof.
  intros Hpos Hs Hf. pose proof (find_hit s p pos Hpos Hs Hf) as H.
  apply starts_with_true in H. destruct H as [t Ht].
  assert (Hle : pos <= find s p pos).
  { revert Hf. unfold find. destruct (size s <? pos); [congruence|].
    destruct (index_of p _); [lia | congruence]. }
  assert (L : List.length (skipn (Z.to_nat (find s p pos)) s)
              = (List.length p + List.length t)%nat)
    by (rewrite Ht, length_app; reflexivity).
  rewrite length_skipn in L.
  assert (B : find s p pos <= size s).
  { revert Hf. unfold find. destruct (size s <? pos) eqn:E; [congruence|].
    apply Z.ltb_ge in E.
    destruct (index_of p (skipn (Z.to_nat pos) s)) as [k|] eqn:Ek; [|congruence].
    intros _. destruct (index_of_Some _ _ _ Ek) as (Hk & _).
    rewrite length_skipn in Hk. unfold size in *. lia. }
  split; [exact Hle|]. split; [unfold size in *; lia|].
  unfold sub. rewrite Ht.
  replace (Z.to_nat (find s p pos + size p - find s p pos)) with (List.length p)
    by (unfold size; lia).
  rewrite firstn_app, firstn_all, Nat.sub_diag, firstn_0. apply app_nil_r.
Qed.

(** A character search stops at the first occurrence. *)
Lemma find_chr_first (c : ascii) (pos : Z) :
  0 <= pos -> size s < npos -> find_chr s c pos <> npos ->
  pos <= find_chr s c pos < size s
  /\ nth_error s (Z.to_nat (find_chr s c pos)) = Some c
  /\ ~ In c (sub s pos (find_chr s c pos)).
Proof.
  intros Hpos Hs Hf. unfold find_chr in *. revert Hf. unfold find.
  destruct (size s <? pos) eqn:E; [congruence|]. apply Z.ltb_ge in E.
  destruct (index_of [c] (skipn (Z.to_nat pos) s)) as [k|] eqn:Ek; [|congruence].
  intros _. pose proof (index_of_bound _ _ _ _ Ek) as Hb.
  destruct (index_of_Some _ _ _ Ek) as (_ & H1 & H2).
  rewrite length_skipn in Hb. split; [unfold size in *; lia|]. split.
  - replace (Z.to_nat (pos + Z.of_nat k)) with (Z.to_nat pos + k)%nat by lia.
    rewrite <- nth_error_skipn.
    destruct (skipn k (skipn (Z.to_nat pos) s)) as [|x l] eqn:El; [discriminate|].
    simpl in H1. rewrite andb_true_r in H1. apply Ascii.eqb_eq in H1. subst x.
    rewrite <- (Nat.add_0_r k), <- nth_error_skipn, El. reflexivity.
  - unfold sub. replace (Z.to_nat (pos + Z.of_nat k - pos)) with k by lia.
    intros Hin. apply In_nth_error in Hin. destruct Hin as [j Hj].
    assert (Hjk : (j < k)%nat).
    { assert (Hk : nth_error (firstn k (skipn (Z.to_nat pos) s)) j <> None) by congruence.
      apply nth_error_Some in Hk. rewrite length_firstn in Hk. lia. }
    specialize (H2 j Hjk).
    rewrite nth_error_firstn in Hj.
    destruct (Nat.ltb_spec j k); [|lia].
    rewrite <- (Nat.add_0_r j), <- nth_error_skipn in Hj.
    destruct (skipn j (skipn (Z.to_nat pos) s)) as [|x l]; [discriminate|].
    simpl in Hj. injection Hj as ->. simpl in H2. rewrite Ascii.eqb_refl in H2.
    discriminate.
Qed.

End Slices.

(** * Function calls in a response *)

Section ResponseFacts.

Lemma brace_delta_range (c : ascii) : -1 <= brace_delta c <= 1.
Proof.
  unfold brace_delta, b2z. destruct (Ascii.eqb c lbrace), (Ascii.eqb c rbrace); lia.
Qed.

Lemma fc_brace_scan_closed (n : nat) (text : str) (json_end : Z) :
  fc_brace_scan n text json_end 0 = Ok (json_end, 0).
Proof.
  destruct n; cbn [fc_brace_scan]; change (0 <? 0) with false;
    rewrite andb_false_r; reflexivity.
Qed.

(** The brace scan ends inside the text, either on the brace that
    closes the fragment or at the end of the text with braces left
    open. *)
Lemma fc_brace_scan_spec (n : nat) (text : str) :
  size text <= INT_MAX ->
  forall json_end brace_count,
    0 <= json_end <= size text -> 0 < brace_count ->
    brace_count + (size text - json_end) <= INT_MAX ->
    size text - json_end <= Z.of_nat n ->
    exists json_end' brace_count',
      fc_brace_scan n text json_end brace_count = Ok (json_end', brace_count')
      /\ json_end <= json_end' <= size text
      /\ ((brace_count' = 0 /\ json_end < json_end'
           /\ closes_at_end brace_count (sub text json_end json_end') = true)
          \/ (0 < brace_count' /\ json_end' = size text)).
Proof.
  intros Hs. induction n as [|n IH]; intros je bc Hje Hbc Hmax Hn;
    cbn [fc_brace_scan];
    destruct ((je <? size text) && (0 <? bc)) eqn:C.
  - apply andb_true_iff in C. destruct C as [C _]. apply Z.ltb_lt in C. lia.
  - exists je, bc. split; [reflexivity|]. split; [lia|]. right.
    apply andb_false_iff in C. destruct C as [C|C];
      [apply Z.ltb_ge in C | apply Z.ltb_ge in C]; lia.
  - apply andb_true_iff in C. destruct C as [C _]. apply Z.ltb_lt in C.
    destruct (index_in_range text je ltac:(lia)) as (c & -> & Hc). cbn [bind].
    pose proof (brace_delta_range c) as Hd. fold (brace_delta c).
    rewrite int_add_ok by (unfold INT_MIN, INT_MAX in *; lia). cbn [bind].
    rewrite wrap_small by (unfold size_modulus, INT_MAX in *; lia).
    destruct (Z.eq_dec (bc + brace_delta c) 0) as [Z0|Z0].
    + rewrite Z0, fc_brace_scan_closed. exists (je + 1), 0.
      split; [reflexivity|]. split; [lia|]. left. split; [reflexivity|]. split; [lia|].
      rewrite (sub_cons text je (je + 1) c) by (assumption || lia).
      rewrite sub_empty. cbn [closes_at_end]. rewrite Z0. reflexivity.
    + destruct (IH (je + 1) (bc + brace_delta c)) as (e & b & E & H1 & H2); try lia.
      exists e, b. split; [exact E|]. split; [lia|].
      destruct H2 as [(Hb & Hlt & Hcl)|H2]; [left | right; exact H2].
      split; [exact Hb|]. split; [lia|].
      rewrite (sub_cons text je e c) by (assumption || lia).
      cbn [closes_at_end]. apply Z.eqb_neq in Z0. rewrite Z0. exact Hcl.
  - exists je, bc. split; [reflexivity|]. split; [lia|]. right.
    apply andb_false_iff in C. destruct C as [C|C];
      [apply Z.ltb_ge in C | apply Z.ltb_ge in C]; lia.
Qed.

Lemma last_index_of_bound (c : ascii) (s : str) (k : nat) :
  last_index_of c s = Some k -> (k < List.length s)%nat.
Proof.
  revert k. induction s as [|x s IH]; intros k; [discriminate|].
  cbn [last_index_of]. destruct (last_index_of c s) as [j|].
  - intros [= <-]. specialize (IH j eq_refl). simpl. lia.
  - destruct (Ascii.eqb x c); [|discriminate]. intros [= <-]. simpl. lia.
Qed.

(** Lines 236-239 cut the text at its last opening brace. *)
Lemma rfind_cut (rr : str) :
  size rr < npos ->
  (if rfind_chr rr lbrace =? npos then Ok rr else substr rr 0 (rfind_chr rr lbrace))
  = Ok (cut_at_last_brace rr).
Proof.
  intros Hs. unfold rfind_chr, cut_at_last_brace.
  destruct (last_index_of lbrace rr) as [k|] eqn:E; [|reflexivity].
  apply last_index_of_bound in E.
  destruct (Z.of_nat k =? npos) eqn:E'; [apply Z.eqb_eq in E'; unfold size in Hs; lia|].
  rewrite substr_ok by (unfold size; lia). simpl skipn.
  rewrite Z.min_l by (unfold size; lia). rewrite Nat2Z.id. reflexivity.
Qed.

(** More text after the last fragment changes nothing. *)
Lemma extracts_extend (p x : str) (calls : list str) (r : str) :
  extracts p calls r ->
  exists r', extracts (p ++ x) calls r' /\ (calls <> [] -> r' = r).
Proof.
  intros H. destruct H as [text|text before gap call after calls regular0 E G B H].
  - exists (text ++ x). split; [constructor | congruence].
  - exists (cut_at_last_brace before). split; [|reflexivity].
    apply (extracts_call _ before gap call (after ++ x) calls regular0); try assumption.
    rewrite E, <- !app_assoc. reflexivity.
Qed.

(** The response text is a prefix of the text, the whole of it when
    there is no fragment. *)
Lemma extracts_prefix (t : str) (calls : list str) (r : str) :
  extracts t calls r -> exists rest, t = r ++ rest.
Proof.
  intros H. destruct H as [text|text before gap call after calls regular0 E G B H].
  - exists []. symmetry. apply app_nil_r.
  - unfold cut_at_last_brace. destruct (last_index_of lbrace before) as [k|].
    + exists (skipn k before ++ FUNCTION_CALL_MARKER ++ gap ++ call ++ after).
      rewrite app_assoc, firstn_skipn. exact E.
    + eexists. exact E.
Qed.

Lemma extracts_nil (t r : str) : extracts t [] r -> r = t.
Proof.
  intros H. remember [] as calls eqn:Ec.
  destruct H as [text|text before gap call after calls regular0 E G B H]; [reflexivity|].
  apply app_eq_nil in Ec. destruct Ec as [_ Ec]. discriminate Ec.
Qed.

Variable text : str.

Lemma scanned_start :
  scanned text 0 {| regular_response := text; function_calls := [] |}.
Proof.
  exists []. split; [rewrite sub_empty; constructor|]. split; simpl; congruence.
Qed.

Lemma scanned_extend (sp sp' : Z) (st : DecodedResponse) :
  0 <= sp <= sp' -> scanned text sp st -> scanned text sp' st.
Proof.
  intros H (r0 & E & H1 & H2).
  destruct (extracts_extend _ (sub text sp sp') _ _ E) as (r' & E' & Hr).
  exists r'. rewrite (sub_split text 0 sp sp') by lia.
  split; [exact E'|]. split; [exact H1|]. intros N. rewrite (Hr N). apply H2. exact N.
Qed.

Lemma scanned_final (sp : Z) (st : DecodedResponse) :
  0 <= sp -> scanned text sp st ->
  extracts text (function_calls st) (regular_response st).
Proof.
  intros H S.
  destruct (scanned_extend sp (Z.max sp (size text)) st ltac:(lia) S) as (r0 & E & H1 & H2).
  assert (F : sub text 0 (Z.max sp (size text)) = text).
  { unfold sub. simpl skipn. apply firstn_all2. unfold size. lia. }
  rewrite F in E. destruct (function_calls st) as [|c cs] eqn:Ec.
  - rewrite H1 by reflexivity. inversion E; subst.
    + constructor.
    + match goal with H : _ ++ [_] = [] |- _ => apply app_eq_nil in H; destruct H; discriminate end.
  - rewrite H2 by discriminate. exact E.
Qed.

End ResponseFacts.

Section ResponseLoop.

Variable text : str.
Hypothesis text_short : size text <= INT_MAX.
Variable fuel : nat.
Hypothesis enough_fuel : size text <= Z.of_nat fuel.

Lemma text_below_npos : size text < npos.
Proof. rewrite npos_eq. unfold INT_MAX in text_short. lia. Qed.

Lemma marker_has_no_brace : ~ In lbrace FUNCTION_CALL_MARKER.
Proof.
  vm_compute. intros H. repeat (destruct H as [H|H]; [discriminate H|]). exact H.
Qed.

(** One turn of the loop either leaves it with nothing changed or goes
    on from a later position, with one more fragment or with the end of
    the text reached. *)
Lemma fc_body_spec (search_pos : Z) (st : DecodedResponse) :
  0 <= search_pos -> scanned text search_pos st ->
  fc_body fuel text search_pos st = Ok (inl st)
  \/ exists search_pos' st',
       fc_body fuel text search_pos st = Ok (inr (search_pos', st'))
       /\ search_pos < search_pos' <= size text
       /\ scanned text search_pos' st'.
Proof.
  intros Hsp Sc. pose proof text_below_npos as Hs. unfold fc_body.
  set (marker_pos := find text FUNCTION_CALL_MARKER search_pos).
  destruct (marker_pos =? npos) eqn:Em; [left; reflexivity|]. apply Z.eqb_neq in Em.
  set (json_start := find_chr text lbrace marker_pos).
  destruct (json_start =? npos) eqn:Ej; [left; reflexivity|]. apply Z.eqb_neq in Ej.
  right.
  destruct (find_sub text FUNCTION_CALL_MARKER search_pos Hsp Hs Em) as (M1 & M2 & M3).
  fold marker_pos in M1, M2, M3. change (size FUNCTION_CALL_MARKER) with 15 in M2, M3.
  destruct (find_chr_first text lbrace marker_pos ltac:(lia) Hs Ej) as (J1 & J2 & J3).
  fold json_start in J1, J2, J3.
  assert (J4 : marker_pos + 15 <= json_start).
  { destruct (Z_lt_le_dec json_start (marker_pos + 15)) as [L|L]; [exfalso | exact L].
    apply marker_has_no_brace. rewrite <- M3.
    rewrite (sub_split text marker_pos json_start (marker_pos + 15)) by lia.
    rewrite (sub_cons text json_start (marker_pos + 15) lbrace) by (assumption || lia).
    apply in_or_app. right. left. reflexivity. }
  rewrite wrap_small by (unfold size_modulus, INT_MAX in *; lia).
  destruct (fc_brace_scan_spec fuel text text_short (json_start + 1) 1)
    as (je & bc & -> & S1 & S2); try (unfold INT_MAX in *; lia).
  cbn [bind]. destruct S2 as [(-> & S2 & S3)|(S2 & ->)].
  - change (0 =? 0) with true. cbv iota.
    rewrite substr_sub by lia. cbn [bind].
    rewrite substr_ok by lia. cbn [bind].
    rewrite Z.min_l by lia. change (skipn (Z.to_nat 0) text) with text.
    rewrite <- sub_prefix.
    rewrite rfind_cut
      by (rewrite size_sub by lia; unfold INT_MAX in *; rewrite npos_eq; lia).
    cbn [bind]. eexists _, _. split; [reflexivity|]. split; [lia|].
    destruct (scanned_extend text search_pos marker_pos st ltac:(lia) Sc) as (r0 & E & _).
    exists (cut_at_last_brace (sub text 0 marker_pos)). cbn [function_calls regular_response].
    split; [|split; [intros N; apply app_eq_nil in N; destruct N; discriminate | reflexivity]].
    apply (extracts_call _ (sub text 0 marker_pos) (sub text (marker_pos + 15) json_start)
             (sub text json_start je) [] (function_calls st) r0).
    + rewrite app_nil_r.
      rewrite (sub_split text 0 marker_pos je) by lia.
      rewrite (sub_split text marker_pos (marker_pos + 15) je) by lia.
      rewrite (sub_split text (marker_pos + 15) json_start je) by lia.
      rewrite M3. reflexivity.
    + intros Hin. apply J3.
      rewrite (sub_split text marker_pos (marker_pos + 15) json_start) by lia.
      apply in_or_app. right. exact Hin.
    + rewrite (sub_cons text json_start je lbrace) by (assumption || lia).
      cbn [balanced]. rewrite Ascii.eqb_refl. exact S3.
    + exact E.
  - destruct (bc =? 0) eqn:Eb; [apply Z.eqb_eq in Eb; lia|]. cbn [bind].
    eexists _, _. split; [reflexivity|]. split; [lia|].
    apply (scanned_extend text search_pos (size text) st); [lia | exact Sc].
Qed.

Lemma fc_loop_spec (n : nat) :
  forall search_pos st,
    0 <= search_pos <= size text -> size text - search_pos <= Z.of_nat n ->
    scanned text search_pos st ->
    exists st', fc_loop fuel n text search_pos st = Ok st'
                /\ extracts text (function_calls st') (regular_response st').
Proof.
  induction n as [|n IH]; intros sp st Hsp Hn Sc; cbn [fc_loop];
    destruct (sp <? size text) eqn:C;
    try (exists st; split; [reflexivity | apply (scanned_final text sp); [lia | exact Sc]]).
  - apply Z.ltb_lt in C. lia.
  - destruct (fc_body_spec sp st ltac:(lia) Sc) as [->|(sp' & st' & -> & H1 & H2)];
      cbn [bind].
    + exists st. split; [reflexivity | apply (scanned_final text sp); [lia | exact Sc]].
    + apply IH; [lia | lia | exact H2].
Qed.

(** The decoder returns for every text that [int] can count, and what
    it returns is described by [extracts]. *)
Lemma parse_function_calls_spec :
  exists st, parse_function_calls_from_response fuel text = Ok st
             /\ extracts text (function_calls st) (regular_response st).
Proof.
  unfold parse_function_calls_from_response. pose proof (size_nonneg text).
  apply fc_loop_spec; [lia | lia | apply scanned_start].
Qed.

End ResponseLoop.

(** C2. On the text of the specification the decoder finds the one
    fragment [{"name":"lookup",...}] and leaves [Hello there. ] as
    response text. With two function calls in one response both
    fragments are appended, in their order of appearance, but the
    response text is not the text with the fragments removed: line 235
    cuts the original text anew at every fragment, so the cut of the
    second call brings back what the cut of the first had removed, and
    the first fragment stays in the response text together with the
    object that wraps it. Decoding that response text once more finds
    the first fragment in it and leaves [A ]. The results are those of
    every run with that much fuel or more. *)
Theorem two_calls_leave_first_fragment (n : nat) :
  parse_function_calls_from_response (96 + n) ex_response
  = Ok {| regular_response := lit "Hello there. ";
          function_calls := [jq "{`name`:`lookup`,`arguments`:{`q`:`weather`}}"] |}
  /\ parse_function_calls_from_response (64 + n) ex_two_calls
     = Ok {| regular_response := jq "A {`function_call`: {`n`:1}} B ";
             function_calls := [jq "{`n`:1}"; jq "{`n`:2}"] |}
  /\ parse_function_calls_from_response (64 + n) (jq "A {`function_call`: {`n`:1}} B ")
     = Ok {| regular_response := lit "A ";
             function_calls := [jq "{`n`:1}"] |}.
Proof.
  split; [|split].
  - more_fuel parse_function_calls_mono 96%nat.
  - more_fuel parse_function_calls_mono 64%nat.
  - more_fuel parse_function_calls_mono 64%nat.
Qed.

(** * The message decoder *)

Section Unescape.

Variables a b r : ascii.

Lemma replace_pairs_none (s : str) :
  index_of [a; b] s = None -> replace_pairs a b r s = s.
Proof.
  induction s as [|x s IH]; [reflexivity|]. cbn [index_of].
  destruct (starts_with [a; b] (x :: s)) eqn:E; [discriminate|].
  destruct (index_of [a; b] s) eqn:E'; [discriminate|]. intros _.
  cbn [replace_pairs]. destruct s as [|y t]; [reflexivity|].
  cbn [starts_with] in E. rewrite andb_true_r in E. rewrite E.
  rewrite IH by reflexivity. reflexivity.
Qed.

Lemma replace_pairs_first (s : str) (j : nat) :
  index_of [a; b] s = Some j ->
  replace_pairs a b r s = firstn j s ++ r :: replace_pairs a b r (skipn (j + 2) s).
Proof.
  revert j. induction s as [|x s IH]; intros j; [discriminate|]. cbn [index_of].
  destruct (starts_with [a; b] (x :: s)) eqn:E.
  - intros [= <-]. destruct s as [|y t]; cbn [starts_with] in E.
    + rewrite andb_false_r in E. discriminate.
    + rewrite andb_true_r in E. cbn [replace_pairs]. rewrite E. reflexivity.
  - destruct (index_of [a; b] s) as [k|] eqn:E'; [|discriminate]. intros [= <-].
    cbn [replace_pairs]. destruct s as [|y t]; [discriminate E'|].
    cbn [starts_with] in E. rewrite andb_true_r in E. rewrite E.
    rewrite (IH k eq_refl). reflexivity.
Qed.

(** The loop of lines 67-71 (and 72-76) computes [replace_pairs]. *)
Lemma unescape_loop_spec (n : nat) :
  forall text escape_pos,
    size text < npos -> 0 <= escape_pos <= size text ->
    size text - escape_pos <= Z.of_nat n ->
    unescape_loop n [a; b] [r] text escape_pos
    = Ok (sub text 0 escape_pos
          ++ replace_pairs a b r (skipn (Z.to_nat escape_pos) text)).
Proof.
  induction n as [|n IH]; intros text pos Hs Hpos Hn; cbn [unescape_loop];
    unfold find; (destruct (size text <? pos) eqn:E; [apply Z.ltb_lt in E; lia|]);
    destruct (index_of [a; b] (skipn (Z.to_nat pos) text)) as [j|] eqn:Ej.
  - apply index_of_bound in Ej. rewrite length_skipn in Ej. unfold size in *. lia.
  - change (npos =? npos) with true. cbv iota.
    rewrite replace_pairs_none by exact Ej.
    rewrite sub_prefix, firstn_skipn. reflexivity.
  - pose proof (index_of_bound _ _ _ _ Ej) as Hj. rewrite length_skipn in Hj.
    destruct (index_of_Some _ _ _ Ej) as (_ & Hst & _).
    apply starts_with_true in Hst. destruct Hst as [v Hv]. rewrite skipn_skipn in Hv.
    assert (Hlen : (j + Z.to_nat pos + 2 <= List.length text)%nat).
    { assert (L : List.length (skipn (j + Z.to_nat pos) text) = S (S (List.length v)))
        by (rewrite Hv; reflexivity).
      rewrite length_skipn in L. lia. }
    destruct (pos + Z.of_nat j =? npos) eqn:En;
      [apply Z.eqb_eq in En; unfold size in *; lia|].
    unfold replace. destruct (size text <? pos + Z.of_nat j) eqn:E2;
      [apply Z.ltb_lt in E2; unfold size in *; lia|].
    cbn [bind]. rewrite Z.min_l by (unfold size; lia).
    change (Z.to_nat 2) with 2%nat.
    replace (Z.to_nat (pos + Z.of_nat j)) with (j + Z.to_nat pos)%nat by lia.
    rewrite Hv. change (skipn 2 ([a; b] ++ v)) with v.
    set (text' := firstn (j + Z.to_nat pos) text ++ [r] ++ v).
    assert (S' : size text' = size text - 1).
    { unfold text', size. rewrite !length_app, length_firstn. simpl List.length.
      assert (L : List.length (skipn (j + Z.to_nat pos) text) = S (S (List.length v)))
        by (rewrite Hv; reflexivity).
      rewrite length_skipn in L. lia. }
    assert (W : wrap (pos + Z.of_nat j + 1) = pos + Z.of_nat j + 1)
      by (apply wrap_small; rewrite npos_eq in Hs; unfold size, size_modulus in *; lia).
    rewrite W, IH by (unfold size in *; lia). f_equal.
    rewrite (replace_pairs_first _ _ Ej).
    replace (skipn (j + 2) (skipn (Z.to_nat pos) text)) with v.
    2:{ rewrite skipn_skipn.
        replace (j + 2 + Z.to_nat pos)%nat with (2 + (j + Z.to_nat pos))%nat by lia.
        rewrite <- skipn_skipn, Hv. reflexivity. }
    assert (F : firstn (j + Z.to_nat pos) text
                = sub text 0 pos ++ firstn j (skipn (Z.to_nat pos) text)).
    { rewrite sub_prefix. rewrite <- (firstn_skipn (Z.to_nat pos) text) at 1.
      rewrite firstn_app, length_firstn.
      replace (j + Z.to_nat pos - Nat.min (Z.to_nat pos) (List.length text))%nat with j by lia.
      rewrite firstn_all2 by (rewrite length_firstn; lia). reflexivity. }
    replace (Z.to_nat (pos + Z.of_nat j + 1)) with (S (j + Z.to_nat pos)) by lia.
    assert (T1 : sub text' 0 (pos + Z.of_nat j + 1) = firstn (j + Z.to_nat pos) text ++ [r]).
    { rewrite sub_prefix. unfold text'.
      replace (Z.to_nat (pos + Z.of_nat j + 1))
        with (List.length (firstn (j + Z.to_nat pos) text ++ [r]))
        by (rewrite length_app, length_firstn; simpl; lia).
      rewrite app_assoc. rewrite firstn_app, firstn_all, Nat.sub_diag, firstn_0.
      apply app_nil_r. }
    assert (T2 : skipn (S (j + Z.to_nat pos)) text' = v).
    { unfold text'.
      replace (S (j + Z.to_nat pos))
        with (List.length (firstn (j + Z.to_nat pos) text ++ [r]))
        by (rewrite length_app, length_firstn; simpl; lia).
      rewrite app_assoc. rewrite skipn_app, skipn_all, Nat.sub_diag. reflexivity. }
    rewrite T1, T2, F, <- !app_assoc. reflexivity.
  - change (npos =? npos) with true. cbv iota.
    rewrite replace_pairs_none by exact Ej.
    rewrite sub_prefix, firstn_skipn. reflexivity.
Qed.

Lemma replace_pairs_step (x y : ascii) (t : str) :
  replace_pairs a b r (x :: y :: t)
  = if Ascii.eqb a x && Ascii.eqb b y then r :: replace_pairs a b r t
    else x :: replace_pairs a b r (y :: t).
Proof. reflexivity. Qed.

Lemma replace_pairs_size (s : str) : size (replace_pairs a b r s) <= size s.
Proof.
  assert (H : forall n s, (List.length s <= n)%nat ->
                          size (replace_pairs a b r s) <= size s).
  { clear s. induction n as [|n IH]; intros s Hn.
    - destruct s; [reflexivity | simpl in Hn; lia].
    - destruct s as [|x [|y t]]; [reflexivity | reflexivity |].
      rewrite replace_pairs_step. simpl in Hn.
      destruct (Ascii.eqb a x && Ascii.eqb b y).
      + rewrite !size_cons. specialize (IH t ltac:(lia)). lia.
      + rewrite (size_cons x), (size_cons x). specialize (IH (y :: t) ltac:(simpl; lia)).
        lia. }
  apply (H (List.length s)). lia.
Qed.

End Unescape.

(** Each loop, started at position zero, computes its pass. *)
Lemma unescape_loop_pass (fuel : nat) (a b r : ascii) (text : str) :
  size text < npos -> size text <= Z.of_nat fuel ->
  unescape_loop fuel [a; b] [r] text 0 = Ok (replace_pairs a b r text).
Proof.
  intros Hs Hf. pose proof (size_nonneg text).
  rewrite unescape_loop_spec by lia. rewrite sub_empty. reflexivity.
Qed.

(** The two loops in their order compute [unescape]. *)
Lemma unescape_loops (fuel : nat) (raw : str) :
  size raw < npos -> size raw <= Z.of_nat fuel ->
  (c1 <- unescape_loop fuel ESC_N [newline] raw 0 ;;
   unescape_loop fuel ESC_QUOTE [dquote] c1 0) = Ok (unescape raw).
Proof.
  intros Hs Hf. unfold ESC_N, ESC_QUOTE.
  rewrite unescape_loop_pass by assumption. cbn [bind].
  pose proof (replace_pairs_size backslash "n" newline raw).
  rewrite unescape_loop_pass by lia. reflexivity.
Qed.

Section ContentEnd.

Lemma last_cons_default (x : ascii) (l : str) (d : ascii) : last (x :: l) d = last l x.
Proof.
  revert x d. induction l as [|y l IH]; intros x d; [reflexivity|].
  change (last (x :: y :: l) d) with (last (y :: l) d).
  rewrite (IH y d), (IH y x). reflexivity.
Qed.

Lemma last_app_default (l1 l2 : str) (d : ascii) : last (l1 ++ l2) d = last l2 (last l1 d).
Proof.
  revert d. induction l1 as [|x l1 IH]; intros d; [reflexivity|].
  change ((x :: l1) ++ l2) with (x :: (l1 ++ l2)).
  rewrite !last_cons_default. apply IH.
Qed.

Lemma split_first (c : ascii) (v : str) :
  ~ In c v \/ exists v1 v2, v = v1 ++ c :: v2 /\ ~ In c v1.
Proof.
  induction v as [|x v IH]; [left; intros []|].
  destruct (ascii_dec x c) as [->|N].
  - right. exists [], v. split; [reflexivity | intros []].
  - destruct IH as [IH|(v1 & v2 & -> & IH)].
    + left. intros [H|H]; [congruence | exact (IH H)].
    + right. exists (x :: v1), v2. split; [reflexivity|].
      intros [H|H]; [congruence | exact (IH H)].
Qed.

Lemma quotes_escaped_end (p : ascii) (v : str) :
  quotes_escaped p v = true -> last v p <> backslash.
Proof.
  revert p. induction v as [|x v IH]; intros p; cbn [quotes_escaped].
  - intros H E. simpl in E. subst p. discriminate H.
  - intros H. apply andb_true_iff in H. destruct H as [_ H].
    rewrite last_cons_default. apply IH. exact H.
Qed.

Lemma quotes_escaped_split (p : ascii) (v1 v2 : str) :
  ~ In dquote v1 ->
  quotes_escaped p (v1 ++ dquote :: v2) = true ->
  last v1 p = backslash /\ quotes_escaped dquote v2 = true.
Proof.
  revert p. induction v1 as [|x v1 IH]; intros p Hn; cbn [app quotes_escaped].
  - intros H. apply andb_true_iff in H. destruct H as [H1 H2].
    rewrite Ascii.eqb_refl in H1. cbn [negb orb] in H1.
    apply Ascii.eqb_eq in H1. auto.
  - intros H. apply andb_true_iff in H. destruct H as [_ H].
    rewrite last_cons_default. apply IH; [|exact H].
    intros Hin. apply Hn. right. exact Hin.
Qed.

Lemma index_last (l rest : str) :
  l <> [] -> size (l ++ rest) < npos ->
  index (l ++ rest) (wrap (size l - 1)) = Ok (last l nul).
Proof.
  intros Hl Hs. destruct (exists_last Hl) as (l' & x & ->).
  rewrite last_last, size_app, size_cons, size_nil.
  pose proof (size_nonneg l'). pose proof (size_nonneg rest).
  rewrite !size_app, size_cons, size_nil in Hs.
  rewrite wrap_small by (rewrite npos_eq in Hs; unfold size_modulus; lia).
  replace (size l' + (1 + 0) - 1) with (size l') by lia.
  rewrite <- app_assoc. apply index_mid.
Qed.

(** Lines 58-63 on a content whose quotes are all escaped: the scan
    stops on the closing quote. *)
Lemma content_end_scan_spec (n : nat) :
  forall json done v rest,
    json = done ++ v ++ dquote :: rest -> size json < npos -> done <> [] ->
    quotes_escaped (last done nul) v = true ->
    size json - size done <= Z.of_nat n ->
    content_end_scan n json (size done) = Ok (size done + size v).
Proof.
  induction n as [|n IH]; intros json done v rest Hj Hs Hd Hq Hn;
    pose proof (size_nonneg done); pose proof (size_nonneg v);
    pose proof (size_nonneg rest);
    assert (Hsize : size json = size done + (size v + (1 + size rest)))
      by (rewrite Hj, !size_app, size_cons; reflexivity);
    cbn [content_end_scan];
    (destruct (size done <? size json) eqn:C; [|apply Z.ltb_ge in C; lia]);
    [lia|].
  destruct (split_first dquote v) as [Hv|(v1 & v2 & -> & Hv)].
  - assert (F : find_chr json dquote (size done) = size done + size v)
      by (rewrite Hj; apply find_chr_skip; exact Hv).
    rewrite F.
    destruct (size done + size v =? npos) eqn:E; [apply Z.eqb_eq in E; lia|].
    replace (size done + size v) with (size (done ++ v)) by apply size_app.
    rewrite Hj, app_assoc, index_last;
      [| destruct done; [congruence | discriminate]
       | rewrite <- app_assoc, <- Hj; exact Hs ].
    cbn [bind]. rewrite last_app_default.
    destruct (Ascii.eqb_spec (last v (last done nul)) backslash) as [E'|E'].
    + exfalso. exact (quotes_escaped_end _ _ Hq E').
    + reflexivity.
  - destruct (quotes_escaped_split _ _ _ Hv Hq) as [Q1 Q2].
    pose proof (size_nonneg v1). pose proof (size_nonneg v2).
    rewrite size_app, size_cons in *.
    assert (F : find_chr json dquote (size done) = size done + size v1).
    { rewrite Hj, <- app_assoc. apply find_chr_skip. exact Hv. }
    rewrite F.
    destruct (size done + size v1 =? npos) eqn:E; [apply Z.eqb_eq in E; lia|].
    replace (size done + size v1) with (size (done ++ v1)) by apply size_app.
    assert (Hj' : json = (done ++ v1) ++ dquote :: v2 ++ dquote :: rest)
      by (rewrite Hj, <- !app_assoc; reflexivity).
    rewrite Hj' at 1. rewrite index_last;
      [| destruct done; [congruence | discriminate]
       | rewrite <- Hj'; exact Hs ].
    cbn [bind]. rewrite last_app_default, Q1, Ascii.eqb_refl. cbn [negb].
    rewrite wrap_small
      by (rewrite size_app; rewrite npos_eq in Hs; unfold size_modulus; lia).
    replace (size (done ++ v1) + 1) with (size (done ++ v1 ++ [dquote]))
      by (rewrite !size_app, size_cons, size_nil; lia).
    rewrite (IH json (done ++ v1 ++ [dquote]) v2 rest).
    + f_equal. rewrite !size_app, size_cons, size_nil. lia.
    + rewrite Hj, <- !app_assoc. reflexivity.
    + exact Hs.
    + intros E'. apply (f_equal (@List.length _)) in E'.
      rewrite !length_app in E'. simpl in E'. lia.
    + rewrite !last_app_default. exact Q2.
    + rewrite !size_app, size_cons, size_nil. lia.
Qed.

End ContentEnd.

Section ObjectDecoding.

Lemma gap_not_in (w : str) (c : ascii) : gap w -> is_gap_char c = false -> ~ In c w.
Proof.
  unfold gap. intros G N H. rewrite forallb_forall in G. apply G in H. congruence.
Qed.

Lemma find_key_after_quote (P w key rest : str) (c0 : ascii) (key' : str) :
  gap w -> key = c0 :: key' -> is_gap_char c0 = false -> c0 <> dquote ->
  find (P ++ dquote :: w ++ quoted key ++ rest) (quoted key) (size P)
  = size P + 1 + size w.
Proof.
  intros G -> N D. rewrite find_from_prefix.
  assert (M : starts_with (quoted (c0 :: key')) (dquote :: w ++ quoted (c0 :: key') ++ rest)
              = false).
  { cbn [quoted app starts_with]. rewrite Ascii.eqb_refl. cbn [andb].
    destruct w as [|x w']; cbn [app].
    - destruct (Ascii.eqb_spec c0 dquote); [congruence | reflexivity].
    - destruct (Ascii.eqb_spec c0 x) as [->|]; [|reflexivity].
      unfold gap in G. cbn [forallb] in G. rewrite N in G. discriminate G. }
  cbn [index_of]. rewrite M.
  unfold quoted at 1 2. rewrite index_of_skip by (apply gap_not_in; [exact G | reflexivity]).
  change (dquote :: (c0 :: key') ++ [dquote]) with (quoted (c0 :: key')).
  unfold quoted at 2. rewrite <- app_comm_cons.
  change (dquote :: ((c0 :: key') ++ [dquote]) ++ rest)
    with ((dquote :: (c0 :: key') ++ [dquote]) ++ rest).
  rewrite index_of_here. cbn [option_map]. unfold size. lia.
Qed.

Variable sp : Spacing.
Hypothesis sp_ok : well_formed_spacing sp.
Variable json : str.
Hypothesis json_size : size json < npos.
Variable fuel : nat.
Hypothesis enough_fuel : size json <= Z.of_nat fuel.

Lemma object_text_head (t : WireTurn) :
  object_text sp t = object_head sp t ++ dquote :: after_content sp ++ lit "}".
Proof.
  unfold object_text, object_head, quoted.
  repeat (rewrite <- ?app_assoc; cbn [app]). reflexivity.
Qed.

Ltac assoc := repeat (rewrite <- ?app_assoc; cbn [app lit list_ascii_of_string quoted]);
              reflexivity.

(** One turn of the loop on a well-formed object: the turn is appended
    and the search for the next object goes on from the closing quote
    of the content. *)
Lemma msg_body_object (pre post : str) (t : WireTurn) (messages : list ChatMessage) :
  json = pre ++ object_text sp t ++ post ->
  well_formed_turn t ->
  msg_body fuel json (size pre) messages
  = Ok (inr (find_chr json lbrace (size (pre ++ object_head sp t)),
             messages ++ [decode_turn t])).
Proof.
  intros Hj [Hrole Hraw].
  destruct sp_ok as (_ & G1 & G2 & G3 & G4 & _).
  destruct t as [role raw]. unfold object_text, object_head in *. cbn [wire_role wire_content] in *.
  set (w1 := before_role sp) in *. set (w2 := after_role_key sp) in *.
  set (w3 := after_role sp) in *. set (w4 := after_content_key sp) in *.
  set (tail := dquote :: after_content sp ++ lit "}" ++ post).
  set (P1 := pre ++ lbrace :: w1).
  set (P2 := P1 ++ quoted (lit "role")).
  set (P3 := P2 ++ w2).
  set (P4 := P3 ++ [dquote]).
  set (P5 := P4 ++ role).
  set (P6 := P5 ++ dquote :: w3).
  set (P7 := P6 ++ quoted (lit "content")).
  set (P8 := P7 ++ w4).
  set (P9 := P8 ++ [dquote]).
  assert (J1 : json = pre ++ (lbrace :: w1) ++ quoted (lit "role")
                      ++ (w2 ++ quoted role ++ w3 ++ quoted (lit "content") ++ w4
                          ++ dquote :: raw ++ tail))
    by (rewrite Hj; unfold tail; assoc).
  assert (J3 : json = P2 ++ w2 ++ dquote :: (role ++ dquote :: w3 ++ quoted (lit "content")
                         ++ w4 ++ dquote :: raw ++ tail))
    by (rewrite Hj; unfold P2, P1, tail; assoc).
  assert (J5 : json = P4 ++ role ++ dquote :: (w3 ++ quoted (lit "content")
                         ++ w4 ++ dquote :: raw ++ tail))
    by (rewrite Hj; unfold P4, P3, P2, P1, tail; assoc).
  assert (J6 : json = P5 ++ dquote :: w3 ++ quoted (lit "content")
                        ++ (w4 ++ dquote :: raw ++ tail))
    by (rewrite Hj; unfold P5, P4, P3, P2, P1, tail; assoc).
  assert (J8 : json = P7 ++ w4 ++ dquote :: (raw ++ tail))
    by (rewrite Hj; unfold P7, P6, P5, P4, P3, P2, P1, tail; assoc).
  assert (J9 : json = P9 ++ raw ++ dquote :: (after_content sp ++ lit "}" ++ post))
    by (rewrite Hj; unfold P9, P8, P7, P6, P5, P4, P3, P2, P1, tail; assoc).
  assert (B : forall P rest, json = P ++ rest -> 0 <= size P <= size json).
  { intros P rest ->. rewrite size_app.
    pose proof (size_nonneg P). pose proof (size_nonneg rest). lia. }
  assert (W : forall P rest k, json = P ++ rest -> 0 <= k -> size P + k <= size json ->
                               wrap (size P + k) = size P + k).
  { intros P rest k E Hk Hle. pose proof (B P rest E). apply wrap_small.
    rewrite npos_eq in json_size. unfold size_modulus. lia. }
  assert (Q : ~ In dquote (lbrace :: w1)).
  { intros [H|H]; [discriminate H|]. revert H. apply gap_not_in; [exact G1 | reflexivity]. }
  (* the positions *)
  assert (E1 : find json (quoted (lit "role")) (size pre) = size P1).
  { rewrite J1 at 1. unfold quoted at 1 2. rewrite find_skip by exact Q.
    unfold P1. rewrite size_app. reflexivity. }
  assert (E2 : find_chr json dquote (wrap (size P1 + 6)) = size P3).
  { replace (size P1 + 6) with (size P2) by (unfold P2; rewrite size_app; reflexivity).
    rewrite wrap_small
      by (pose proof (B P2 _ J3); rewrite npos_eq in json_size; unfold size_modulus; lia).
    rewrite J3 at 1. rewrite find_chr_skip by (apply gap_not_in; [exact G2 | reflexivity]).
    unfold P3. rewrite size_app. reflexivity. }
  assert (S4 : size P4 = size P3 + 1)
    by (unfold P4; rewrite size_app, size_cons, size_nil; lia).
  assert (E3 : wrap (size P3 + 1) = size P4).
  { rewrite <- S4. pose proof (B P4 _ J5). apply wrap_small.
    rewrite npos_eq in json_size. unfold size_modulus. lia. }
  assert (E4 : find_chr json dquote (size P4) = size P5).
  { rewrite J5 at 1. rewrite find_chr_skip by exact Hrole.
    unfold P5. rewrite size_app. reflexivity. }
  assert (E5 : substr json (size P4) (wrap (size P5 - size P4)) = Ok role).
  { replace (size P5 - size P4) with (size role) by (unfold P5; rewrite size_app; lia).
    rewrite wrap_small.
    - rewrite J5 at 1. apply substr_mid.
    - pose proof (B P5 _ J6). pose proof (size_nonneg role). pose proof (B P4 _ J5).
      assert (size P5 = size P4 + size role) by (unfold P5; apply size_app).
      rewrite npos_eq in json_size. unfold size_modulus. lia. }
  assert (E6 : find json (quoted (lit "content")) (size P5) = size P6).
  { rewrite J6 at 1.
    rewrite (find_key_after_quote P5 w3 (lit "content") _ "c"%char (lit "ontent"))
      by (exact G3 || reflexivity || discriminate).
    unfold P6. rewrite size_app, size_cons. lia. }
  assert (E7 : find_chr json dquote (wrap (size P6 + 9)) = size P8).
  { replace (size P6 + 9) with (size P7) by (unfold P7; rewrite size_app; reflexivity).
    rewrite wrap_small
      by (pose proof (B P7 _ J8); rewrite npos_eq in json_size; unfold size_modulus; lia).
    rewrite J8 at 1. rewrite find_chr_skip by (apply gap_not_in; [exact G4 | reflexivity]).
    unfold P8. rewrite size_app. reflexivity. }
  assert (S9 : size P9 = size P8 + 1)
    by (unfold P9; rewrite size_app, size_cons, size_nil; lia).
  assert (E8 : wrap (size P8 + 1) = size P9).
  { rewrite <- S9. pose proof (B P9 _ J9). apply wrap_small.
    rewrite npos_eq in json_size. unfold size_modulus. lia. }
  assert (E9 : content_end_scan fuel json (size P9) = Ok (size P9 + size raw)).
  { apply (content_end_scan_spec fuel json P9 raw (after_content sp ++ lit "}" ++ post)).
    - exact J9.
    - exact json_size.
    - unfold P9. destruct P8; discriminate.
    - unfold P9. rewrite last_last. exact Hraw.
    - pose proof (B P9 _ J9). lia. }
  assert (E10 : substr json (size P9) (wrap (size P9 + size raw - size P9)) = Ok raw).
  { replace (size P9 + size raw - size P9) with (size raw) by lia.
    rewrite wrap_small.
    - rewrite J9 at 1. apply substr_mid.
    - pose proof (size_nonneg raw). pose proof (B P9 _ J9).
      assert (size json = size P9 + (size raw + size (dquote :: after_content sp ++ lit "}" ++ post)))
        by (rewrite J9 at 1; rewrite !size_app; reflexivity).
      pose proof (size_nonneg (dquote :: after_content sp ++ lit "}" ++ post)).
      rewrite npos_eq in json_size. unfold size_modulus. lia. }
  assert (Sraw : size raw <= size json).
  { assert (size json = size P9 + (size raw + size (dquote :: after_content sp ++ lit "}" ++ post)))
      by (rewrite J9 at 1; rewrite !size_app; reflexivity).
    pose proof (size_nonneg (dquote :: after_content sp ++ lit "}" ++ post)).
    pose proof (B P9 _ J9). lia. }
  assert (S1 : size P1 <= size P2) by (unfold P2; rewrite size_app; change (size (quoted (lit "role"))) with 6; lia).
  assert (S2 : size P2 <= size P3) by (unfold P3; rewrite size_app; pose proof (size_nonneg w2); lia).
  assert (S5 : size P4 <= size P5) by (unfold P5; rewrite size_app; pose proof (size_nonneg role); lia).
  assert (S6 : size P5 <= size P6) by (unfold P6; rewrite size_app; pose proof (size_nonneg (dquote :: w3)); lia).
  assert (S7 : size P6 <= size P7) by (unfold P7; rewrite size_app; change (size (quoted (lit "content"))) with 9; lia).
  assert (S8 : size P7 <= size P8) by (unfold P8; rewrite size_app; pose proof (size_nonneg w4); lia).
  pose proof (B P9 _ J9) as B9. pose proof (size_nonneg raw) as Rn.
  assert (N : forall z, z <= size P9 -> (z =? npos) = false)
    by (intros z Hz; apply Z.eqb_neq; lia).
  unfold msg_body. cbv zeta.
  rewrite E1, (N (size P1)) by lia.
  rewrite E2, E3, E4, E5. cbn [bind].
  rewrite E6, (N (size P6)) by lia.
  rewrite E7, E8, E9. cbn [bind]. rewrite E10. cbn [bind].
  unfold ESC_N, ESC_QUOTE.
  rewrite unescape_loop_pass by lia. cbn [bind].
  rewrite unescape_loop_pass
    by (pose proof (replace_pairs_size backslash "n" newline raw); lia).
  cbn [bind]. unfold decode_turn, unescape. cbn [wire_role wire_content].
  replace (size (pre ++ lit "{" ++ w1 ++ quoted (lit "role") ++ w2 ++ quoted role ++ w3
                 ++ quoted (lit "content") ++ w4 ++ dquote :: raw))
    with (size P9 + size raw); [reflexivity|].
  rewrite <- size_app. f_equal.
  unfold P9, P8, P7, P6, P5, P4, P3, P2, P1. assoc.
Qed.

End ObjectDecoding.

Ltac brace_free NB H :=
  cbn [lit list_ascii_of_string app] in H;
  repeat match type of H with
  | In _ [] => destruct H
  | In _ (_ :: _) => destruct H as [H|H]; [discriminate H|]
  | In _ (_ ++ _) =>
      apply in_app_or in H; destruct H as [H|H];
      [solve [eapply NB; [|exact H]; assumption] |]
  | In _ _ => solve [eapply NB; [|exact H]; assumption]
  end.

Section ArrayDecoding.

Variable sp : Spacing.
Hypothesis sp_ok : well_formed_spacing sp.
Variable json : str.
Hypothesis json_size : size json < npos.
Variable fuel : nat.
Hypothesis enough_fuel : size json <= Z.of_nat fuel.

Lemma objects_text_starts (ts : list WireTurn) :
  ts <> [] -> exists r, objects_text sp ts = lbrace :: r.
Proof.
  destruct ts as [|t [|t' ts]]; [congruence | |]; intros _; cbn [objects_text];
    unfold object_text; cbn [lit list_ascii_of_string app]; eauto.
Qed.

Lemma object_text_size (t : WireTurn) : 1 <= size (object_text sp t).
Proof.
  unfold object_text. rewrite size_app. change (size (lit "{")) with 1.
  match goal with |- _ <= _ + size ?r => pose proof (size_nonneg r) end. lia.
Qed.

(** Every object takes at least one character. *)
Lemma objects_text_size (ts : list WireTurn) :
  Z.of_nat (List.length ts) <= size (objects_text sp ts).
Proof.
  induction ts as [|x ts IH]; [reflexivity|].
  pose proof (object_text_size x).
  destruct ts as [|y ts]; [simpl List.length; cbn [objects_text]; lia|].
  change (objects_text sp (x :: y :: ts))
    with (object_text sp x ++ between sp ++ objects_text sp (y :: ts)).
  rewrite !size_app. pose proof (size_nonneg (between sp)).
  change (List.length (x :: y :: ts)) with (S (List.length (y :: ts))). lia.
Qed.

Lemma msg_loop_at_npos (n : nat) (messages : list ChatMessage) :
  msg_loop fuel n json npos messages = Ok messages.
Proof. destruct n; reflexivity. Qed.

(** The loop of lines 42-81 on well-formed objects: one turn each, in
    their order. *)
Lemma msg_loop_objects (ts : list WireTurn) :
  forall pre messages n,
    ts <> [] ->
    json = pre ++ objects_text sp ts ++ closing sp ++ lit "]" ->
    Forall well_formed_turn ts ->
    (List.length ts <= n)%nat ->
    msg_loop fuel n json (size pre) messages = Ok (messages ++ map decode_turn ts).
Proof.
  destruct sp_ok as (_ & _ & _ & _ & _ & G5 & G6 & G7).
  assert (NB : forall w, gap w -> ~ In lbrace w)
    by (intros w G; apply gap_not_in; [exact G | reflexivity]).
  induction ts as [|t ts IH]; intros pre messages n Hne Hj Hwf Hn; [congruence|].
  destruct n as [|n]; [simpl in Hn; lia|].
  pose proof (Forall_inv Hwf) as Ht. pose proof (Forall_inv_tail Hwf) as Hts.
  assert (Hpre : (size pre =? npos) = false).
  { apply Z.eqb_neq. rewrite Hj in json_size. rewrite size_app in json_size.
    pose proof (size_nonneg (objects_text sp (t :: ts) ++ closing sp ++ lit "]")). lia. }
  cbn [msg_loop]. rewrite Hpre.
  destruct ts as [|t' ts'].
  - cbn [objects_text] in Hj.
    rewrite (msg_body_object sp sp_ok json json_size fuel enough_fuel pre
               (closing sp ++ lit "]") t messages) by (first [exact Hj | exact Ht]).
    cbn [bind].
    assert (F : find_chr json lbrace (size (pre ++ object_head sp t)) = npos).
    { rewrite Hj at 1. rewrite object_text_head.
      replace (pre ++ (object_head sp t ++ dquote :: after_content sp ++ lit "}")
               ++ closing sp ++ lit "]")
        with ((pre ++ object_head sp t)
              ++ (dquote :: after_content sp ++ lit "}" ++ closing sp ++ lit "]"))
        by (repeat (rewrite <- ?app_assoc; cbn [app]); reflexivity).
      apply find_absent. intros H. brace_free NB H. }
    rewrite F, msg_loop_at_npos. reflexivity.
  - change (objects_text sp (t :: t' :: ts'))
      with (object_text sp t ++ between sp ++ objects_text sp (t' :: ts')) in Hj.
    rewrite (msg_body_object sp sp_ok json json_size fuel enough_fuel pre
               (between sp ++ objects_text sp (t' :: ts') ++ closing sp ++ lit "]")
               t messages)
      by (first [ exact Ht
                | etransitivity; [exact Hj|]; repeat rewrite <- app_assoc; reflexivity ]).
    cbn [bind].
    destruct (objects_text_starts (t' :: ts') ltac:(discriminate)) as [r Hr].
    set (gap5 := dquote :: after_content sp ++ lit "}" ++ between sp).
    assert (Hj' : json = (pre ++ object_head sp t) ++ gap5
                          ++ lbrace :: (r ++ closing sp ++ lit "]")).
    { rewrite Hj, object_text_head, Hr. unfold gap5.
      repeat (rewrite <- ?app_assoc; cbn [app]). reflexivity. }
    assert (F : find_chr json lbrace (size (pre ++ object_head sp t))
                = size (pre ++ object_text sp t ++ between sp)).
    { rewrite Hj' at 1. rewrite find_chr_skip.
      - rewrite <- size_app. f_equal. rewrite object_text_head. unfold gap5.
        repeat (rewrite <- ?app_assoc; cbn [app]). reflexivity.
      - unfold gap5. intros H. brace_free NB H. }
    rewrite F.
    rewrite (IH (pre ++ object_text sp t ++ between sp) _ n).
    + rewrite <- app_assoc. reflexivity.
    + discriminate.
    + etransitivity; [exact Hj|]. repeat rewrite <- app_assoc. reflexivity.
    + exact Hts.
    + simpl in Hn |- *. lia.
Qed.

Lemma parse_messages_array (ts : list WireTurn) :
  json = array_text sp ts ->
  Forall well_formed_turn ts ->
  parse_messages_json fuel json = Ok (map decode_turn ts).
Proof.
  intros Hj Hwf. destruct sp_ok as (G0 & _ & _ & _ & _ & _ & _ & G7).
  assert (NB : forall w, gap w -> ~ In lbrace w)
    by (intros w G; apply gap_not_in; [exact G | reflexivity]).
  unfold parse_messages_json, array_text in *.
  assert (F0 : find_chr json lbracket 0 = 0).
  { rewrite Hj. apply (find_chr_skip [] [] lbracket). intros []. }
  rewrite F0. change (0 =? npos) with false. cbv iota.
  destruct ts as [|t ts].
  - cbn [objects_text app] in Hj.
    assert (F : find_chr json lbrace 0 = npos).
    { rewrite Hj. apply (find_absent [] _ lbrace []). intros H. brace_free NB H. }
    rewrite F, msg_loop_at_npos. reflexivity.
  - destruct (objects_text_starts (t :: ts) ltac:(discriminate)) as [r Hr].
    assert (F : find_chr json lbrace 0 = size (lit "[" ++ opening sp)).
    { rewrite Hj, Hr. rewrite size_app.
      change (lit "[" ++ opening sp ++ (lbrace :: r) ++ closing sp ++ lit "]")
        with ([] ++ (lit "[" ++ opening sp) ++ lbrace :: (r ++ closing sp ++ lit "]")).
      rewrite find_chr_skip; [rewrite size_app; reflexivity|].
      intros H. brace_free NB H. }
    rewrite F.
    rewrite (msg_loop_objects (t :: ts) (lit "[" ++ opening sp) [] fuel).
    + reflexivity.
    + discriminate.
    + etransitivity; [exact Hj|]. rewrite <- app_assoc. reflexivity.
    + exact Hwf.
    + pose proof (objects_text_size (t :: ts)) as L.
      assert (size (objects_text sp (t :: ts)) <= size json).
      { rewrite Hj, !size_app.
        pose proof (size_nonneg (lit "[")). pose proof (size_nonneg (opening sp)).
        pose proof (size_nonneg (closing sp)). pose proof (size_nonneg (lit "]")). lia. }
      lia.
Qed.

End ArrayDecoding.

(** C4. On a chat array of N well-formed objects (a role without
    quotes and a content whose quotes are all escaped and which does not
    end with a backslash, with blanks, colons and commas in between)
    [parse_messages_json] returns N turns, those of the objects in their
    order, and the content of each is the written content after two
    passes in this order, one replacing every backslash-n by a line
    break and one replacing every backslash-quote by a quote, each from
    left to right over occurrences that do not overlap and without
    reading again what it wrote; the two loops of the code compute
    these passes on every text. *)
Theorem chat_array_decoded_in_order (fuel : nat) (sp : Spacing) (ts : list WireTurn) :
  well_formed_spacing sp -> Forall well_formed_turn ts ->
  size (array_text sp ts) < npos -> size (array_text sp ts) <= Z.of_nat fuel ->
  parse_messages_json fuel (array_text sp ts) = Ok (map decode_turn ts)
  /\ List.length (map decode_turn ts) = List.length ts
  /\ (forall t, content (decode_turn t)
                = replace_pairs backslash dquote dquote
                    (replace_pairs backslash "n" newline (wire_content t)))
  /\ (forall raw, size raw < npos -> size raw <= Z.of_nat fuel ->
        (c1 <- unescape_loop fuel ESC_N [newline] raw 0 ;;
         unescape_loop fuel ESC_QUOTE [dquote] c1 0) = Ok (unescape raw))
  /\ unescape (jq "\\`") = jq "\`".
Proof.
  intros Hsp Hwf Hs Hf. split; [|split; [|split; [|split]]].
  - apply (parse_messages_array sp Hsp (array_text sp ts) Hs fuel Hf ts eq_refl Hwf).
  - apply length_map.
  - reflexivity.
  - intros raw H1 H2. apply unescape_loops; assumption.
  - reflexivity.
Qed.

Lemma chat_array_decoded_in_order_witness :
  parse_messages_json 128 (array_text compact ex_turns)
  = Ok [ {| role := lit "user";
            content := lit "line one" ++ [newline] ++ lit "line two" |};
         {| role := lit "assistant"; content := jq "she said `hi`" |} ].
Proof.
  destruct (chat_array_decoded_in_order 128 compact ex_turns) as [H _].
  - repeat split.
  - repeat constructor; try (vm_compute; intros H; repeat (destruct H as [H|H]; [discriminate H|]); exact H).
  - vm_compute. reflexivity.
  - vm_compute. discriminate.
  - rewrite H. reflexivity.
Defined.

(** * Further properties: what the encoders write can be read back *)

Section Escaping.

Lemma escape_char_cases (c : ascii) :
  (c = dquote /\ escape_char c = [backslash; dquote])
  \/ (c = newline /\ escape_char c = [backslash; "n"%char])
  \/ (c = carriage /\ escape_char c = [backslash; "r"%char])
  \/ (c = tab /\ escape_char c = [backslash; "t"%char])
  \/ (c = backslash /\ escape_char c = [backslash; backslash])
  \/ (c <> dquote /\ c <> newline /\ c <> carriage /\ c <> tab /\ c <> backslash
      /\ escape_char c = [c]).
Proof.
  unfold escape_char.
  destruct (Ascii.eqb_spec c dquote); [auto|].
  destruct (Ascii.eqb_spec c newline); [auto|].
  destruct (Ascii.eqb_spec c carriage); [auto 6|].
  destruct (Ascii.eqb_spec c tab); [auto 7|].
  destruct (Ascii.eqb_spec c backslash); [auto 8|].
  do 5 right. auto 10.
Qed.

Lemma json_unescape_escape (s : str) :
  json_unescape (List.concat (map escape_char s)) = s.
Proof.
  induction s as [|c s IH]; [reflexivity|]. cbn [map List.concat].
  destruct (escape_char_cases c)
    as [[-> ->]|[[-> ->]|[[-> ->]|[[-> ->]|[[-> ->]|(N1 & N2 & N3 & N4 & N5 & ->)]]]]];
    try (cbn [app json_unescape]; change (Ascii.eqb backslash backslash) with true;
         cbv iota; cbn; rewrite IH; reflexivity).
  cbn [app json_unescape].
  destruct (Ascii.eqb_spec c backslash); [congruence|]. rewrite IH. reflexivity.
Qed.

Lemma string_rest_escape (s rest : str) :
  forallb encodable s = true ->
  Json.string_rest (List.concat (map escape_char s) ++ dquote :: rest) = Some rest.
Proof.
  induction s as [|c s IH]; intros H.
  - cbn. reflexivity.
  - cbn [forallb] in H. apply andb_true_iff in H. destruct H as [Hc H].
    specialize (IH H). cbn [map List.concat]. rewrite <- app_assoc.
    destruct (escape_char_cases c)
      as [[-> ->]|[[-> ->]|[[-> ->]|[[-> ->]|[[-> ->]|(N1 & N2 & N3 & N4 & N5 & ->)]]]]];
      try (cbn [app Json.string_rest];
           change (Ascii.eqb backslash dquote) with false;
           change (Ascii.eqb backslash backslash) with true; cbv iota;
           match goal with |- context [Json.simple_escape ?e] =>
             change (Json.simple_escape e) with true end;
           cbv iota; exact IH).
    cbn [app Json.string_rest].
    destruct (Ascii.eqb_spec c dquote); [congruence|].
    destruct (Ascii.eqb_spec c backslash); [congruence|].
    assert (L : (code c <? 32) = false).
    { unfold encodable in Hc.
      destruct (Ascii.eqb_spec c newline); [congruence|].
      destruct (Ascii.eqb_spec c carriage); [congruence|].
      destruct (Ascii.eqb_spec c tab); [congruence|].
      rewrite !orb_false_r in Hc. apply Z.leb_le in Hc. apply Z.ltb_ge. exact Hc. }
    rewrite L. exact IH.
Qed.

End Escaping.

Section EscapingMore.

Lemma string_rest_escape_char (c : ascii) (x : str) :
  encodable c = true ->
  Json.string_rest (escape_char c ++ x) = Json.string_rest x.
Proof.
  intros Hc.
  destruct (escape_char_cases c)
    as [[-> ->]|[[-> ->]|[[-> ->]|[[-> ->]|[[-> ->]|(N1 & N2 & N3 & N4 & N5 & ->)]]]]];
    try reflexivity.
  cbn [app Json.string_rest].
  destruct (Ascii.eqb_spec c dquote); [congruence|].
  destruct (Ascii.eqb_spec c backslash); [congruence|].
  unfold encodable in Hc.
  destruct (Ascii.eqb_spec c newline); [congruence|].
  destruct (Ascii.eqb_spec c carriage); [congruence|].
  destruct (Ascii.eqb_spec c tab); [congruence|].
  rewrite !orb_false_r in Hc. apply Z.leb_le in Hc.
  destruct (code c <? 32) eqn:L; [apply Z.ltb_lt in L; lia | reflexivity].
Qed.

Lemma string_rest_raw_control (c : ascii) (x : str) :
  encodable c = false -> Json.string_rest (escape_char c ++ x) = None.
Proof.
  intros Hc. unfold encodable in Hc.
  apply orb_false_iff in Hc. destruct Hc as [Hc Ht].
  apply orb_false_iff in Hc. destruct Hc as [Hc Hr].
  apply orb_false_iff in Hc. destruct Hc as [Hc Hn].
  apply Z.leb_gt in Hc.
  destruct (escape_char_cases c)
    as [[-> _]|[[-> _]|[[-> _]|[[-> _]|[[-> _]|(N1 & N2 & N3 & N4 & N5 & ->)]]]]];
    try discriminate.
  cbn [app Json.string_rest].
  destruct (Ascii.eqb_spec c dquote); [congruence|].
  destruct (Ascii.eqb_spec c backslash); [congruence|].
  destruct (code c <? 32) eqn:L; [reflexivity | apply Z.ltb_ge in L; lia].
Qed.

(** The escaped text is the body of a JSON string exactly when the
    text holds no raw control character. *)
Lemma string_rest_escaped (s rest : str) :
  Json.string_rest (List.concat (map escape_char s) ++ dquote :: rest)
  = if forallb encodable s then Some rest else None.
Proof.
  induction s as [|c s IH]; [reflexivity|].
  cbn [map List.concat forallb]. rewrite <- app_assoc.
  destruct (encodable c) eqn:E.
  - rewrite string_rest_escape_char by exact E. exact IH.
  - apply string_rest_raw_control. exact E.
Qed.

End EscapingMore.

(** X1. In the text [construct_response_json] writes, the response
    field is the escaped response text: resolving the five escapes
    gives the response text back, whatever it holds, and the field is a
    well-formed JSON string, ended by the quote the function writes
    after it, exactly when the response text holds no control character
    other than line break, carriage return and tab (such a character is
    written as it is, and the string is then rejected). *)
Theorem response_field_reads_back
  (regular_response : str) (function_calls : list str)
  (time_to_first_token total_time_ms tokens_per_second : spec_float)
  (prompt_tokens completion_tokens : Z) :
  exists body rest,
    construct_response_json regular_response function_calls time_to_first_token
      total_time_ms tokens_per_second prompt_tokens completion_tokens
    = RESPONSE_PREFIX ++ body ++ dquote :: rest
    /\ json_unescape body = regular_response
    /\ Json.string_rest (body ++ dquote :: rest)
       = if forallb encodable regular_response then Some rest else None.
Proof.
  eexists (List.concat (map escape_char regular_response)), _.
  split; [|split].
  - unfold construct_response_json, RESPONSE_PREFIX.
    cbn [jq lit list_ascii_of_string map quoted app].
    repeat (rewrite <- ?app_assoc; cbn [app]). reflexivity.
  - apply json_unescape_escape.
  - apply string_rest_escaped.
Qed.

(** * Reading JSON texts step by step *)

Section JsonSteps.

Lemma skip_ws_here (c : ascii) (r : str) :
  Json.is_ws c = false -> Json.skip_ws (c :: r) = c :: r.
Proof. intros H. cbn [Json.skip_ws]. rewrite H. reflexivity. Qed.

Lemma value_string (n : nat) (r : str) :
  Json.value (S n) (dquote :: r) = Json.string_rest r.
Proof. reflexivity. Qed.

Lemma value_object (n : nat) (r : str) :
  Json.value (S n) (lbrace :: r)
  = match Json.skip_ws r with
    | c2 :: r2 =>
        if Ascii.eqb c2 rbrace then Some r2
        else json_members (Json.value n) (List.length r) r
    | [] => None
    end.
Proof. reflexivity. Qed.

Lemma value_array (n : nat) (r : str) :
  Json.value (S n) (lbracket :: r)
  = match Json.skip_ws r with
    | c2 :: r2 =>
        if Ascii.eqb c2 rbracket then Some r2
        else json_elements (Json.value n) (List.length r) r
    | [] => None
    end.
Proof. reflexivity. Qed.

Lemma value_true (n : nat) (r : str) : Json.value (S n) (lit "true" ++ r) = Some r.
Proof. reflexivity. Qed.

Lemma value_false (n : nat) (r : str) : Json.value (S n) (lit "false" ++ r) = Some r.
Proof. reflexivity. Qed.

Lemma string_rest_plain (m rest : str) :
  forallb plain_char m = true ->
  Json.string_rest (m ++ dquote :: rest) = Some rest.
Proof.
  induction m as [|c m IH]; intros H.
  - reflexivity.
  - cbn [forallb] in H. apply andb_true_iff in H. destruct H as [Hc H].
    unfold plain_char in Hc.
    apply andb_true_iff in Hc. destruct Hc as [Hc Hb].
    apply andb_true_iff in Hc. destruct Hc as [Hc Hq].
    apply negb_true_iff in Hb, Hq. apply Z.leb_le in Hc.
    cbn [app Json.string_rest]. rewrite Hq, Hb.
    destruct (code c <? 32) eqn:L; [apply Z.ltb_lt in L; lia|].
    apply IH. exact H.
Qed.

(** One member whose key is a plain text and whose value the reader
    accepts. *)
Lemma json_members_step (v : str -> option str) (k : nat)
  (key text r3 : str) (d : ascii) (r4 : str) :
  forallb plain_char key = true ->
  v text = Some r3 -> Json.skip_ws r3 = d :: r4 ->
  json_members v (S k) (quoted key ++ colon :: text)
  = if Ascii.eqb d ","%char then json_members v k r4
    else if Ascii.eqb d rbrace then Some r4 else None.
Proof.
  intros Hk Hv Hd. unfold quoted. cbn [app json_members].
  rewrite skip_ws_here by reflexivity.
  change (Ascii.eqb dquote dquote) with true. cbv iota.
  rewrite <- app_assoc. cbn [app]. rewrite string_rest_plain by exact Hk.
  rewrite skip_ws_here by reflexivity.
  change (Ascii.eqb colon colon) with true. cbv iota.
  rewrite Hv, Hd. reflexivity.
Qed.

End JsonSteps.

(** * The error response as a text *)

Section ErrorText.

Lemma sanitize_char_plain (c : ascii) :
  sanitizable c = true -> plain_char (sanitize_char c) = true.
Proof.
  unfold sanitizable, sanitize_char, plain_char.
  destruct (Ascii.eqb_spec c dquote) as [->|Q]; [intros _; reflexivity|].
  destruct (Ascii.eqb_spec c newline) as [->|N]; [intros _; reflexivity|].
  cbn [orb]. intros H. apply andb_true_iff in H. destruct H as [H1 H2].
  rewrite H1, H2. apply Ascii.eqb_neq in Q. rewrite Q. reflexivity.
Qed.

Lemma sanitize_char_clean (c : ascii) :
  sanitize_char c <> dquote /\ sanitize_char c <> newline.
Proof.
  unfold sanitize_char.
  destruct (Ascii.eqb_spec c dquote) as [->|Q]; [split; discriminate|].
  destruct (Ascii.eqb_spec c newline) as [->|N]; [split; discriminate|].
  split; assumption.
Qed.

Lemma error_json_members (m : str) :
  error_json_of m
  = lbrace :: quoted (lit "success") ++ colon ::
      (lit "false" ++ ","%char ::
         (quoted (lit "error") ++ colon ::
            dquote :: (map sanitize_char m ++ dquote :: [rbrace]))).
Proof. reflexivity. Qed.

Lemma error_json_size (m : str) : size (error_json_of m) = size m + 28.
Proof.
  rewrite error_json_shape. rewrite !size_app.
  unfold size at 2. rewrite length_map. fold (size m).
  change (size ERROR_PREFIX) with 26.
  change (size (dquote :: lit "}")) with 2. lia.
Qed.

Lemma skip_ws_quoted (key r : str) :
  Json.skip_ws (quoted key ++ r) = quoted key ++ r.
Proof. reflexivity. Qed.

Lemma error_json_value (n : nat) (m : str) :
  forallb sanitizable m = true -> Json.value (S (S n)) (error_json_of m) = Some [].
Proof.
  intros H.
  assert (P : forallb plain_char (map sanitize_char m) = true).
  { rewrite forallb_forall in *. intros c Hc. apply in_map_iff in Hc.
    destruct Hc as (x & <- & Hx). apply sanitize_char_plain. apply H. exact Hx. }
  rewrite error_json_members, value_object, skip_ws_quoted.
  set (L := List.length _).
  assert (HL : exists k, L = S (S k))
    by (subst L; cbn [List.length app quoted lit list_ascii_of_string];
        eexists; reflexivity).
  destruct HL as [k ->].
  change (Ascii.eqb dquote rbrace) with false. cbv iota.
  erewrite json_members_step;
    [ | reflexivity | apply value_false | apply skip_ws_here; reflexivity ].
  change (Ascii.eqb ","%char ","%char) with true. cbv iota.
  erewrite json_members_step;
    [ | reflexivity
      | rewrite value_string; apply string_rest_plain; exact P
      | apply skip_ws_here; reflexivity ].
  reflexivity.
Qed.

Lemma error_json_valid (m : str) :
  forallb sanitizable m = true -> Json.is_object (error_json_of m) = true.
Proof.
  intros H. unfold Json.is_object. apply andb_true_iff. split; [|reflexivity].
  unfold Json.valid.
  assert (E : exists n, List.length (error_json_of m) = S n)
    by (rewrite error_json_members; cbn [List.length]; eexists; reflexivity).
  destruct E as [n ->]. rewrite error_json_value by exact H. reflexivity.
Qed.

End ErrorText.

(** X2. The text [handle_error_response] builds holds the message with
    every double quote turned into a single quote and every line break
    into a blank, character for character, between a fixed head and a
    fixed tail: its length is that of the message plus 28. When the
    message holds no backslash and no control character other than line
    breaks, this text is a syntactically valid JSON object; a backslash
    is not escaped, so a message such as a Windows path can make the
    text invalid. *)
Theorem error_json_well_formed (error_message : str) :
  forallb sanitizable error_message = true ->
  Json.is_object (error_json_of error_message) = true
  /\ (exists body,
        error_json_of error_message = ERROR_PREFIX ++ body ++ dquote :: lit "}"
        /\ body = map sanitize_char error_message
        /\ List.length body = List.length error_message
        /\ ~ In dquote body /\ ~ In newline body)
  /\ size (error_json_of error_message) = size error_message + 28
  /\ Json.valid (error_json_of (lit "cannot open C:\dir")) = false.
Proof.
  intros H. split; [apply error_json_valid; exact H|].
  split; [|split; [apply error_json_size | vm_compute; reflexivity]].
  exists (map sanitize_char error_message).
  split; [apply error_json_shape|]. split; [reflexivity|].
  split; [apply length_map|].
  split; intros X; apply in_map_iff in X; destruct X as (c & E & _);
    destruct (sanitize_char_clean c) as [Q N]; congruence.
Qed.

Lemma error_json_well_formed_witness :
  Json.is_object (error_json_of (jq "model `tiny`" ++ newline :: lit "not found")) = true.
Proof.
  apply (error_json_well_formed (jq "model `tiny`" ++ newline :: lit "not found")).
  vm_compute. reflexivity.
Defined.

(** X3. When the error JSON fits ([buffer_size] is above its length),
    the destination is not null, the caller owns at least [buffer_size]
    bytes there and the message holds no zero byte, [handle_error_response]
    returns with the destination holding the error JSON as a C string:
    read up to the terminator it is that text. The length of the
    destination is unchanged, and so is every byte after the
    terminator. *)
Theorem error_response_read_back (error_message mem : str) (buffer_size : Z) :
  ~ In nul error_message ->
  size (error_json_of error_message) < buffer_size ->
  buffer_size <= size mem ->
  exists mem',
    handle_error_response error_message (Some mem) buffer_size = Ok (tt, Some mem')
    /\ c_string mem' = error_json_of error_message
    /\ List.length mem' = List.length mem
    /\ skipn (S (List.length (error_json_of error_message))) mem'
       = skipn (S (List.length (error_json_of error_message))) mem.
Proof.
  intros Hn Hfit Hown.
  set (j := error_json_of error_message) in *.
  exists (j ++ [nul] ++ skipn (S (List.length j)) mem).
  assert (Hl : (S (List.length j) <= List.length mem)%nat) by (unfold size in *; lia).
  split; [|split; [|split]].
  - unfold handle_error_response. fold j.
    destruct (size j <? buffer_size) eqn:F; [|apply Z.ltb_ge in F; lia].
    unfold strcpy. cbv zeta.
    rewrite c_string_c_str, c_string_whole by (apply error_json_no_nul; exact Hn).
    destruct (size j + 1 <=? size mem) eqn:G; [|apply Z.leb_gt in G; lia].
    reflexivity.
  - apply c_string_terminated. apply error_json_no_nul. exact Hn.
  - rewrite !length_app, length_skipn. cbn [List.length]. lia.
  - rewrite app_assoc, skipn_app.
    rewrite skipn_all2 by (rewrite length_app; cbn [List.length]; lia).
    rewrite length_app. cbn [List.length app].
    replace (S (List.length j) - (List.length j + 1))%nat with O by lia.
    reflexivity.
Qed.

Lemma error_response_read_back_witness :
  exists mem',
    handle_error_response (lit "no model") (Some (repeat "x"%char 64)) 64
      = Ok (tt, Some mem')
    /\ c_string mem' = error_json_of (lit "no model")
    /\ List.length mem' = 64%nat
    /\ skipn (S (List.length (error_json_of (lit "no model")))) mem'
       = skipn (S (List.length (error_json_of (lit "no model")))) (repeat "x"%char 64).
Proof.
  apply (error_response_read_back (lit "no model") (repeat "x"%char 64) 64).
  - vm_compute. intros H. repeat (destruct H as [H|H]; [discriminate H|]). exact H.
  - vm_compute. reflexivity.
  - vm_compute. discriminate.
Defined.

(** * Responses with no call, and with one wrapped call *)

Section CallFacts.

Lemma closes_has_rbrace (s : str) :
  forall d, 0 < d -> closes_at_end d s = true -> In rbrace s.
Proof.
  induction s as [|c s IH]; intros d Hd H; cbn [closes_at_end] in H; [discriminate|].
  pose proof (brace_delta_range c) as R.
  destruct (d + brace_delta c =? 0) eqn:E.
  - apply Z.eqb_eq in E. left. unfold brace_delta, b2z in E.
    destruct (Ascii.eqb_spec c rbrace) as [->|N]; [reflexivity|].
    destruct (Ascii.eqb c lbrace); lia.
  - apply Z.eqb_neq in E. right. apply (IH (d + brace_delta c)); [lia | exact H].
Qed.

Lemma balanced_has_rbrace (call : str) : balanced call = true -> In rbrace call.
Proof.
  destruct call as [|c body]; [discriminate|]. cbn [balanced]. intros H.
  apply andb_true_iff in H. destruct H as [_ H]. right.
  apply (closes_has_rbrace body 1); [lia | exact H].
Qed.

Lemma balanced_starts (call : str) :
  balanced call = true -> exists body, call = lbrace :: body /\ closes_at_end 1 body = true.
Proof.
  destruct call as [|c body]; [discriminate|]. cbn [balanced]. intros H.
  apply andb_true_iff in H. destruct H as [H1 H2].
  apply Ascii.eqb_eq in H1. subst c. exists body. split; [reflexivity | exact H2].
Qed.

Lemma index_of_found (p a b : str) : index_of p (a ++ p ++ b) <> None.
Proof.
  induction a as [|x a IH].
  - cbn [app]. rewrite index_of_here. discriminate.
  - cbn [app]. destruct p as [|c p]; [discriminate|].
    cbn [index_of]. destruct (starts_with (c :: p) (x :: a ++ (c :: p) ++ b)); [discriminate|].
    destruct (index_of (c :: p) (a ++ (c :: p) ++ b)); [discriminate | contradiction].
Qed.

Lemma starts_with_across (c : ascii) (p a b : str) :
  ~ In c p -> starts_with p (a ++ c :: b) = true -> starts_with p a = true.
Proof.
  revert a. induction p as [|x p IH]; intros a Hc H; [reflexivity|].
  destruct a as [|y a]; cbn [app starts_with] in *.
  - apply andb_true_iff in H. destruct H as [H _]. apply Ascii.eqb_eq in H.
    exfalso. apply Hc. left. exact H.
  - apply andb_true_iff in H. destruct H as [H1 H2]. rewrite H1. cbn [andb].
    apply IH; [|exact H2]. intros X. apply Hc. right. exact X.
Qed.

(** A pattern that does not hold the character [c] and does not occur
    before it is searched after it. *)
Lemma index_of_past (c x : ascii) (p a b : str) :
  ~ In c (x :: p) -> index_of (x :: p) a = None ->
  index_of (x :: p) (a ++ c :: b)
  = option_map (Nat.add (S (List.length a))) (index_of (x :: p) b).
Proof.
  intros Hc. induction a as [|y a IH]; intros H.
  - cbn [app List.length]. cbn [index_of].
    rewrite starts_with_head by (intros ->; apply Hc; left; reflexivity).
    destruct (index_of (x :: p) b); reflexivity.
  - cbn [index_of] in H. destruct (starts_with (x :: p) (y :: a)) eqn:S1; [discriminate|].
    destruct (index_of (x :: p) a) eqn:S2; [discriminate|].
    cbn [app]. cbn [index_of].
    destruct (starts_with (x :: p) (y :: a ++ c :: b)) eqn:S3.
    + apply (starts_with_across c (x :: p) (y :: a) b Hc) in S3. congruence.
    + rewrite IH by reflexivity. cbn [List.length].
      destruct (index_of (x :: p) b); reflexivity.
Qed.

Lemma last_index_of_cut (pre g : str) :
  ~ In lbrace g -> last_index_of lbrace (pre ++ lbrace :: g) = Some (List.length pre).
Proof.
  intros Hg.
  assert (G : last_index_of lbrace g = None).
  { induction g as [|x g IH]; [reflexivity|]. cbn [last_index_of].
    rewrite IH by (intros X; apply Hg; right; exact X).
    destruct (Ascii.eqb_spec x lbrace) as [->|N]; [|reflexivity].
    exfalso. apply Hg. left. reflexivity. }
  induction pre as [|y pre IH]; cbn [app last_index_of List.length].
  - rewrite G. rewrite Ascii.eqb_refl. reflexivity.
  - rewrite IH. reflexivity.
Qed.

Lemma cut_at_wrapper (pre g : str) :
  ~ In lbrace g -> cut_at_last_brace (pre ++ lbrace :: g) = pre.
Proof.
  intros Hg. unfold cut_at_last_brace. rewrite last_index_of_cut by exact Hg.
  rewrite firstn_app, Nat.sub_diag, firstn_all. cbn [firstn]. apply app_nil_r.
Qed.

(** On a fragment that closes, the brace scan stops right after it. *)
Lemma fc_brace_scan_exact (body : str) :
  forall n P rest d,
    closes_at_end d body = true -> 0 < d ->
    d + size body <= INT_MAX -> size (P ++ body ++ rest) < npos ->
    size body <= Z.of_nat n ->
    fc_brace_scan n (P ++ body ++ rest) (size P) d = Ok (size P + size body, 0).
Proof.
  induction body as [|c body IH]; intros n P rest d Hc Hd Hmax Hs Hn;
    [discriminate Hc|].
  rewrite size_cons in Hn, Hmax. pose proof (size_nonneg body) as Hb.
  destruct n as [|n]; [lia|]. cbn [fc_brace_scan].
  assert (L : size P < size (P ++ (c :: body) ++ rest)).
  { rewrite !size_app, size_cons. pose proof (size_nonneg rest). lia. }
  apply Z.ltb_lt in L. rewrite L. apply Z.ltb_lt in L.
  destruct (0 <? d) eqn:D; [|apply Z.ltb_ge in D; lia]. cbn [andb].
  cbn [app]. rewrite index_mid. cbn [bind]. fold (brace_delta c).
  pose proof (brace_delta_range c) as R.
  rewrite int_add_ok by (unfold INT_MIN, INT_MAX in *; lia). cbn [bind].
  pose proof (size_nonneg P) as HP.
  rewrite wrap_small by (rewrite npos_eq in Hs; unfold size_modulus; lia).
  cbn [closes_at_end] in Hc.
  destruct (d + brace_delta c =? 0) eqn:E.
  - apply Z.eqb_eq in E. rewrite E. rewrite fc_brace_scan_closed.
    destruct body; [|discriminate]. rewrite size_cons, size_nil. reflexivity.
  - apply Z.eqb_neq in E.
    replace (P ++ c :: body ++ rest) with ((P ++ [c]) ++ body ++ rest)
      by (rewrite <- app_assoc; reflexivity).
    replace (size P + 1) with (size (P ++ [c]))
      by (rewrite size_app, size_cons, size_nil; lia).
    rewrite IH; try lia; try exact Hc.
    + rewrite size_app, !size_cons, size_nil. f_equal. f_equal. lia.
    + rewrite <- app_assoc. exact Hs.
Qed.

End CallFacts.

(** X4. A response in which the marker ["function_call"] does not
    occur, or which holds no closing brace, comes back whole as the
    response text, with no call. *)
Theorem no_call_leaves_text (fuel : nat) (text : str) :
  size text <= INT_MAX -> size text <= Z.of_nat fuel ->
  contains FUNCTION_CALL_MARKER text = false \/ ~ In rbrace text ->
  parse_function_calls_from_response fuel text
  = Ok {| regular_response := text; function_calls := [] |}.
Proof.
  intros Hs Hf H.
  destruct (parse_function_calls_spec text Hs fuel Hf) as (st & E & X).
  rewrite E. f_equal. destruct st as [rr calls]. cbn [function_calls regular_response] in X.
  inversion X as [t Et Ec Er | t before gp call after calls0 r0 Et Hg Hb X0 Et' Ec Er].
  - reflexivity.
  - exfalso. destruct H as [H|H].
    + unfold contains in H. rewrite Et in H.
      destruct (index_of FUNCTION_CALL_MARKER (before ++ FUNCTION_CALL_MARKER ++ gp ++ call ++ after))
        eqn:I; [discriminate|].
      revert I. apply index_of_found.
    + apply H. rewrite Et. apply in_or_app. right. apply in_or_app. right.
      apply in_or_app. right. apply in_or_app. left.
      apply balanced_has_rbrace. exact Hb.
Qed.

Lemma no_call_leaves_text_witness :
  parse_function_calls_from_response 32 (jq "The answer is {`x`: 1}.")
  = Ok {| regular_response := jq "The answer is {`x`: 1}."; function_calls := [] |}.
Proof.
  apply (no_call_leaves_text 32 (jq "The answer is {`x`: 1}.")).
  - vm_compute. discriminate.
  - vm_compute. discriminate.
  - left. vm_compute. reflexivity.
Defined.

(** X5. On a response made of a text, an opening brace, the marker and
    one brace-balanced fragment ([pre { g1 "function_call" g2 call
    post], with no marker in [pre] or [post], no double quote or brace
    in [g1] and no brace in [g2]) the decoder returns the fragment as
    the only call and [pre] as the response text: the wrapper's opening
    brace and all that follows it, the text after the call included, is
    dropped. *)
Theorem wrapped_call_extracted (fuel : nat) (pre g1 g2 call post : str) :
  size (wrapped_call_text pre g1 g2 call post) <= INT_MAX ->
  size (wrapped_call_text pre g1 g2 call post) <= Z.of_nat fuel ->
  contains FUNCTION_CALL_MARKER pre = false ->
  ~ In dquote g1 -> ~ In lbrace g1 -> ~ In lbrace g2 ->
  balanced call = true ->
  contains FUNCTION_CALL_MARKER post = false ->
  parse_function_calls_from_response fuel (wrapped_call_text pre g1 g2 call post)
  = Ok {| regular_response := pre; function_calls := [call] |}.
Proof.
  unfold wrapped_call_text.
  set (text := pre ++ lbrace :: g1 ++ FUNCTION_CALL_MARKER ++ g2 ++ call ++ post).
  intros Hs Hf Hpre Hq1 Hb1 Hb2 Hbal Hpost.
  destruct (balanced_starts call Hbal) as (body & -> & Hcl).
  assert (Hnpos : size text < npos) by (rewrite npos_eq; unfold INT_MAX in Hs; lia).
  set (head := pre ++ lbrace :: g1).
  assert (Et : text = head ++ FUNCTION_CALL_MARKER ++ g2 ++ (lbrace :: body) ++ post).
  { unfold text, head. rewrite <- app_assoc. reflexivity. }
  assert (M : find text FUNCTION_CALL_MARKER 0 = size head).
  { pose proof (find_from_prefix [] text FUNCTION_CALL_MARKER) as F.
    cbn [app] in F. rewrite size_nil in F. rewrite F. unfold text.
    unfold contains in Hpre.
    destruct (index_of FUNCTION_CALL_MARKER pre) eqn:I; [discriminate|].
    change FUNCTION_CALL_MARKER with (dquote :: lit "function_call" ++ [dquote]) in *.
    rewrite index_of_past;
      [ | vm_compute; intros H; repeat (destruct H as [H|H]; [discriminate H|]); exact H
        | exact I ].
    rewrite index_of_skip by exact Hq1.
    rewrite (index_of_here (dquote :: lit "function_call" ++ [dquote])).
    cbn [option_map]. unfold head. rewrite size_app, size_cons.
    unfold size. lia. }
  assert (J : find_chr text lbrace (size head)
              = size head + size (FUNCTION_CALL_MARKER ++ g2)).
  { rewrite Et. rewrite app_assoc with (l := FUNCTION_CALL_MARKER).
    cbn [app]. apply find_chr_skip. intros X. apply in_app_or in X.
    destruct X as [X|X]; [revert X; apply marker_has_no_brace | exact (Hb2 X)]. }
  pose proof (size_nonneg head) as Hh. pose proof (size_nonneg g2) as Hg2.
  pose proof (size_nonneg body) as Hbody. pose proof (size_nonneg post) as Hpo.
  assert (Esz : size text = size head + 15 + size g2 + 1 + size body + size post).
  { rewrite Et. rewrite !size_app, size_cons.
    change (size FUNCTION_CALL_MARKER) with 15. lia. }
  set (P := head ++ FUNCTION_CALL_MARKER ++ g2 ++ [lbrace]).
  assert (EP : text = P ++ body ++ post).
  { rewrite Et. unfold P. repeat (rewrite <- ?app_assoc; cbn [app]). reflexivity. }
  assert (SP : size P = size head + 15 + size g2 + 1).
  { unfold P. rewrite !size_app, size_cons, size_nil.
    change (size FUNCTION_CALL_MARKER) with 15. lia. }
  assert (Body : fc_body fuel text 0 {| regular_response := text; function_calls := [] |}
                 = Ok (inr (size P + size body,
                            {| regular_response := pre;
                               function_calls := [lbrace :: body] |}))).
  { unfold fc_body. cbv zeta. rewrite M.
    destruct (size head =? npos) eqn:E1; [apply Z.eqb_eq in E1; lia|].
    rewrite J. rewrite size_app. change (size FUNCTION_CALL_MARKER) with 15.
    destruct (size head + (15 + size g2) =? npos) eqn:E2; [apply Z.eqb_eq in E2; lia|].
    rewrite wrap_small by (unfold size_modulus; rewrite npos_eq in Hnpos; lia).
    replace (size head + (15 + size g2) + 1) with (size P) by lia.
    rewrite EP at 1.
    rewrite fc_brace_scan_exact;
      [ | exact Hcl | lia | unfold INT_MAX in *; lia | rewrite <- EP; exact Hnpos | lia ].
    cbn [bind]. change (0 =? 0) with true. cbv iota.
    replace (wrap (size P + size body - (size head + (15 + size g2))))
      with (size (lbrace :: body))
      by (rewrite size_cons, wrap_small
            by (unfold size_modulus; rewrite npos_eq in Hnpos; lia); lia).
    replace (size head + (15 + size g2)) with (size (head ++ FUNCTION_CALL_MARKER ++ g2))
      by (rewrite !size_app; change (size FUNCTION_CALL_MARKER) with 15; lia).
    replace text with ((head ++ FUNCTION_CALL_MARKER ++ g2) ++ (lbrace :: body) ++ post) at 1
      by (rewrite Et; repeat (rewrite <- ?app_assoc; cbn [app]); reflexivity).
    rewrite substr_mid. cbn [bind].
    rewrite substr_ok by lia. cbn [bind].
    rewrite Z.min_l by lia. change (skipn (Z.to_nat 0) text) with text.
    replace (firstn (Z.to_nat (size head)) text) with head
      by (rewrite Et; symmetry; apply firstn_size_app).
    rewrite rfind_cut by (rewrite npos_eq in *; lia). cbn [bind].
    unfold head. rewrite cut_at_wrapper by exact Hb1.
    reflexivity. }
  unfold parse_function_calls_from_response.
  destruct fuel as [|[|fuel]]; [lia | lia |].
  cbn [fc_loop].
  destruct (0 <? size text) eqn:C0; [|apply Z.ltb_ge in C0; lia].
  match goal with
  | |- context [fc_body ?f text 0 ?st] =>
      change (fc_body f text 0 st)
        with (fc_body (S (S fuel)) text 0 {| regular_response := text; function_calls := [] |})
  end.
  rewrite Body. cbn [bind].
  destruct (size P + size body <? size text) eqn:C1; [|reflexivity].
  unfold fc_body.
  replace (size P + size body) with (size (P ++ body))
    by (rewrite size_app; reflexivity).
  rewrite EP at 1. rewrite app_assoc. rewrite find_from_prefix.
  unfold contains in Hpost.
  destruct (index_of FUNCTION_CALL_MARKER post); [discriminate|].
  change (npos =? npos) with true. reflexivity.
Qed.

Lemma wrapped_call_extracted_witness :
  parse_function_calls_from_response 80
    (wrapped_call_text (lit "Checking. ") [] (lit ": ")
       (jq "{`name`:`f`,`arguments`:{}}") (lit "} done"))
  = Ok {| regular_response := lit "Checking. ";
          function_calls := [jq "{`name`:`f`,`arguments`:{}}"] |}.
Proof.
  apply (wrapped_call_extracted 80 (lit "Checking. ") [] (lit ": ")
           (jq "{`name`:`f`,`arguments`:{}}") (lit "} done")).
  - vm_compute. discriminate.
  - vm_compute. discriminate.
  - vm_compute. reflexivity.
  - intros H. exact H.
  - intros H. exact H.
  - vm_compute. intros H. repeat (destruct H as [H|H]; [discriminate H|]). exact H.
  - vm_compute. reflexivity.
  - vm_compute. reflexivity.
Defined.

(** * Chat arrays: exceptions, open arrays, escapes *)

Section NoThrow.

Lemma throws_bind {A B} (c : result A) (k : A -> result B) :
  throws c = false -> (forall a, throws (k a) = false) -> throws (bind c k) = false.
Proof. destruct c; cbn [bind throws]; intros H K; [apply K | discriminate | | ]; reflexivity. Qed.

Lemma substr_no_throw (s : str) (pos n : Z) :
  pos <= size s -> throws (substr s pos n) = false.
Proof. intros H. rewrite substr_ok by exact H. reflexivity. Qed.

Lemma index_no_throw (s : str) (i : Z) : throws (index s i) = false.
Proof.
  unfold index. destruct (i <? size s); [destruct (nth_error s (Z.to_nat i)); reflexivity|].
  destruct (i =? size s); reflexivity.
Qed.

Lemma content_end_scan_no_throw (n : nat) :
  forall json content_end, throws (content_end_scan n json content_end) = false.
Proof.
  induction n as [|n IH]; intros json ce; cbn [content_end_scan];
    destruct (ce <? size json); try reflexivity.
  destruct (find_chr json dquote ce =? npos); [reflexivity|].
  apply throws_bind; [apply index_no_throw|]. intros c.
  destruct (negb (Ascii.eqb c backslash)); [reflexivity | apply IH].
Qed.

Lemma unescape_loop_no_throw (n : nat) (a b : ascii) (rep : str) :
  forall content escape_pos,
    0 <= escape_pos -> throws (unescape_loop n [a; b] rep content escape_pos) = false.
Proof.
  induction n as [|n IH]; intros content ep Hep; cbn [unescape_loop];
    destruct (find content [a; b] ep =? npos) eqn:E; try reflexivity.
  apply Z.eqb_neq in E.
  destruct (find_range content a [b] ep Hep) as [F|F]; [congruence|].
  unfold replace. destruct (size content <? find content [a; b] ep) eqn:L;
    [apply Z.ltb_lt in L; lia|].
  cbn [bind]. apply IH. apply wrap_nonneg.
Qed.

Lemma msg_body_no_throw (fuel : nat) (json : str) (pos : Z) (messages : list ChatMessage) :
  size json < npos -> throws (msg_body fuel json pos messages) = false.
Proof.
  intros Hs. unfold msg_body. cbv zeta.
  destruct (find json (quoted (lit "role")) pos =? npos); [reflexivity|].
  apply throws_bind.
  { apply substr_no_throw. apply after_quote_bound; [exact Hs | apply wrap_nonneg]. }
  intros msg_role.
  match goal with |- context [if ?c then _ else _] => destruct c end; [reflexivity|].
  apply throws_bind; [apply content_end_scan_no_throw|]. intros content_end.
  apply throws_bind.
  { apply substr_no_throw. apply after_quote_bound; [exact Hs | apply wrap_nonneg]. }
  intros c0. apply throws_bind; [apply unescape_loop_no_throw; lia|]. intros c1.
  apply throws_bind; [apply unescape_loop_no_throw; lia|]. intros c2. reflexivity.
Qed.

Lemma msg_loop_no_throw (fuel : nat) (json : str) (n : nat) :
  size json < npos ->
  forall pos messages, throws (msg_loop fuel n json pos messages) = false.
Proof.
  intros Hs. induction n as [|n IH]; intros pos messages; cbn [msg_loop];
    destruct (pos =? npos); try reflexivity.
  apply throws_bind; [apply msg_body_no_throw; exact Hs|].
  intros [m|[p m]]; [reflexivity | apply IH].
Qed.

Lemma find_chr_found (s : str) (c : ascii) :
  size s < npos -> (find_chr s c 0 = npos <-> ~ In c s).
Proof.
  intros Hs. split; [|apply find_chr_absent0].
  intros F H. destruct (split_first c s) as [N|(v1 & v2 & E & N)]; [exact (N H)|].
  pose proof (find_chr_skip [] v1 c v2 N) as K. cbn [app] in K.
  rewrite <- E, size_nil, F in K.
  assert (size v1 <= size s) by (rewrite E, size_app; pose proof (size_nonneg (c :: v2)); lia).
  lia.
Qed.

End NoThrow.

(** X6. On a text on which the loop over the objects comes to an end,
    the only exception [parse_messages_json] throws is the
    [runtime_error] of the missing bracket: it throws it exactly when
    the text holds no opening bracket, and no search position it
    computes makes [substr] or [replace] throw [out_of_range]. The
    texts on which the loop does not end are set aside by the second
    hypothesis: there the vector of messages grows at every turn, and
    the call ends when memory is exhausted. *)
Theorem messages_only_exception (fuel : nat) (json : str) :
  size json < npos ->
  parse_messages_json fuel json <> OutOfFuel ->
  match parse_messages_json fuel json with
  | Throw e => e = runtime_error (lit "Invalid JSON: expected array")
               /\ ~ In lbracket json
  | Ok _ | Undefined => In lbracket json
  | OutOfFuel => False
  end.
Proof.
  intros Hs Hend. pose proof (find_chr_found json lbracket Hs) as F.
  revert Hend. unfold parse_messages_json. cbv zeta.
  destruct (find_chr json lbracket 0 =? npos) eqn:E; intros Hend.
  - apply Z.eqb_eq in E. split; [reflexivity | apply F; exact E].
  - apply Z.eqb_neq in E.
    assert (I : In lbracket json).
    { destruct (in_dec ascii_dec lbracket json) as [I|I]; [exact I|].
      exfalso. apply E. apply F. exact I. }
    pose proof (msg_loop_no_throw fuel json fuel Hs
                  (find_chr json lbrace (find_chr json lbracket 0)) []) as T.
    destruct (msg_loop fuel fuel json _ []); try exact I.
    + discriminate T.
    + apply Hend. reflexivity.
Qed.

Lemma messages_only_exception_witness :
  match parse_messages_json 8 (jq "[{`role`:`user`}]") with
  | Throw e => e = runtime_error (lit "Invalid JSON: expected array")
               /\ ~ In lbracket (jq "[{`role`:`user`}]")
  | Ok _ | Undefined => In lbracket (jq "[{`role`:`user`}]")
  | OutOfFuel => False
  end.
Proof.
  apply (messages_only_exception 8 (jq "[{`role`:`user`}]")).
  - vm_compute. reflexivity.
  - vm_compute. discriminate.
Defined.

Section OpenArray.

Lemma index_of_None_tail (p : str) (x : ascii) (s : str) :
  index_of p (x :: s) = None -> index_of p s = None.
Proof.
  cbn [index_of]. destruct (starts_with p (x :: s)); [discriminate|].
  destruct (index_of p s); [discriminate | reflexivity].
Qed.

Lemma index_of_None_app (p a b : str) :
  index_of p (a ++ b) = None -> index_of p b = None.
Proof.
  induction a as [|x a IH]; intros H; [exact H|].
  apply IH. apply (index_of_None_tail p x). exact H.
Qed.

Variable sp : Spacing.
Hypothesis sp_ok : well_formed_spacing sp.
Variable json : str.
Hypothesis json_size : size json < npos.
Variable fuel : nat.
Hypothesis enough_fuel : size json <= Z.of_nat fuel.
Variable tail : str.
Hypothesis no_role : index_of (quoted (lit "role")) tail = None.

(** From a position in a text that ends with [tail], the search for
    the next object finds nothing to decode. *)
Lemma msg_loop_in_tail (Q g : str) (n : nat) (messages : list ChatMessage) :
  json = Q ++ g ++ tail -> ~ In lbrace g ->
  msg_loop fuel (S n) json (find_chr json lbrace (size Q)) messages = Ok messages.
Proof.
  intros Hj Hg.
  destruct (split_first lbrace tail) as [N|(v1 & v2 & E & N)].
  - assert (F : find_chr json lbrace (size Q) = npos).
    { rewrite Hj at 1. apply find_absent. intros H. apply in_app_or in H.
      destruct H as [H|H]; [exact (Hg H) | exact (N H)]. }
    rewrite F. reflexivity.
  - assert (Hj' : json = Q ++ (g ++ v1) ++ lbrace :: v2)
      by (rewrite Hj, E, <- app_assoc; reflexivity).
    assert (F : find_chr json lbrace (size Q) = size (Q ++ g ++ v1)).
    { rewrite Hj' at 1. rewrite find_chr_skip; [rewrite <- size_app; reflexivity|].
      intros H. apply in_app_or in H.
      destruct H as [H|H]; [exact (Hg H) | exact (N H)]. }
    rewrite F. cbn [msg_loop].
    assert (L : size (Q ++ g ++ v1) < npos).
    { rewrite Hj' in json_size. rewrite app_assoc, size_app in json_size.
      pose proof (size_nonneg (lbrace :: v2)). lia. }
    destruct (size (Q ++ g ++ v1) =? npos) eqn:C; [apply Z.eqb_eq in C; lia|].
    unfold msg_body. cbv zeta.
    replace json with ((Q ++ g ++ v1) ++ lbrace :: v2) at 1
      by (rewrite Hj'; rewrite <- !app_assoc; reflexivity).
    rewrite find_from_prefix.
    rewrite E in no_role. apply index_of_None_app in no_role. rewrite no_role.
    change (npos =? npos) with true. reflexivity.
Qed.

Lemma msg_loop_objects_tail (ts : list WireTurn) :
  forall pre messages n,
    ts <> [] ->
    json = pre ++ objects_text sp ts ++ tail ->
    Forall well_formed_turn ts ->
    (List.length ts < n)%nat ->
    msg_loop fuel n json (size pre) messages = Ok (messages ++ map decode_turn ts).
Proof.
  destruct sp_ok as (_ & _ & _ & _ & _ & G5 & G6 & G7).
  assert (NB : forall w, gap w -> ~ In lbrace w)
    by (intros w G; apply gap_not_in; [exact G | reflexivity]).
  induction ts as [|t ts IH]; intros pre messages n Hne Hj Hwf Hn; [congruence|].
  destruct n as [|n]; [simpl in Hn; lia|].
  pose proof (Forall_inv Hwf) as Ht. pose proof (Forall_inv_tail Hwf) as Hts.
  assert (Hpre : (size pre =? npos) = false).
  { apply Z.eqb_neq. rewrite Hj in json_size. rewrite size_app in json_size.
    pose proof (size_nonneg (objects_text sp (t :: ts) ++ tail)). lia. }
  cbn [msg_loop]. rewrite Hpre.
  destruct ts as [|t' ts'].
  - cbn [objects_text] in Hj.
    rewrite (msg_body_object sp sp_ok json json_size fuel enough_fuel pre
               tail t messages) by (first [exact Hj | exact Ht]).
    cbn [bind]. destruct n as [|n]; [simpl in Hn; lia|].
    apply (msg_loop_in_tail (pre ++ object_head sp t)
             (dquote :: after_content sp ++ lit "}")).
    + rewrite Hj, object_text_head.
      repeat (rewrite <- ?app_assoc; cbn [app]). reflexivity.
    + intros H. brace_free NB H.
  - change (objects_text sp (t :: t' :: ts'))
      with (object_text sp t ++ between sp ++ objects_text sp (t' :: ts')) in Hj.
    rewrite (msg_body_object sp sp_ok json json_size fuel enough_fuel pre
               (between sp ++ objects_text sp (t' :: ts') ++ tail)
               t messages)
      by (first [ exact Ht
                | etransitivity; [exact Hj|]; repeat rewrite <- app_assoc; reflexivity ]).
    cbn [bind].
    destruct (objects_text_starts sp (t' :: ts') ltac:(discriminate)) as [r Hr].
    set (gap5 := dquote :: after_content sp ++ lit "}" ++ between sp).
    assert (Hj' : json = (pre ++ object_head sp t) ++ gap5 ++ lbrace :: (r ++ tail)).
    { rewrite Hj, object_text_head, Hr. unfold gap5.
      repeat (rewrite <- ?app_assoc; cbn [app]). reflexivity. }
    assert (F : find_chr json lbrace (size (pre ++ object_head sp t))
                = size (pre ++ object_text sp t ++ between sp)).
    { rewrite Hj' at 1. rewrite find_chr_skip.
      - rewrite <- size_app. f_equal. rewrite object_text_head. unfold gap5.
        repeat (rewrite <- ?app_assoc; cbn [app]). reflexivity.
      - unfold gap5. intros H. brace_free NB H. }
    rewrite F.
    rewrite (IH (pre ++ object_text sp t ++ between sp) _ n).
    + rewrite <- app_assoc. reflexivity.
    + discriminate.
    + etransitivity; [exact Hj|]. repeat rewrite <- app_assoc. reflexivity.
    + exact Hts.
    + simpl in Hn |- *. lia.
Qed.

Lemma parse_messages_open_array (ts : list WireTurn) :
  json = open_array_text sp ts tail ->
  Forall well_formed_turn ts ->
  parse_messages_json fuel json = Ok (map decode_turn ts).
Proof.
  intros Hj Hwf. destruct sp_ok as (G0 & _).
  assert (NB : forall w, gap w -> ~ In lbrace w)
    by (intros w G; apply gap_not_in; [exact G | reflexivity]).
  unfold parse_messages_json, open_array_text in *.
  assert (F0 : find_chr json lbracket 0 = 0).
  { rewrite Hj. apply (find_chr_skip [] [] lbracket). intros []. }
  rewrite F0. change (0 =? npos) with false. cbv iota.
  assert (Hf : (1 <= fuel)%nat).
  { rewrite Hj in enough_fuel. rewrite size_app in enough_fuel.
    change (size (lit "[")) with 1 in enough_fuel.
    match type of enough_fuel with 1 + size ?r <= _ => pose proof (size_nonneg r) end.
    lia. }
  destruct ts as [|t ts].
  - cbn [objects_text app map] in *.
    destruct fuel as [|f] eqn:Ef; [lia|]. rewrite <- Ef in *.
    change 0 with (size []).
    rewrite Ef at 2.
    apply (msg_loop_in_tail [] (lit "[" ++ opening sp)).
    + rewrite Hj. rewrite <- app_assoc. reflexivity.
    + intros H. brace_free NB H.
  - destruct (objects_text_starts sp (t :: ts) ltac:(discriminate)) as [r Hr].
    assert (F : find_chr json lbrace 0 = size (lit "[" ++ opening sp)).
    { rewrite Hj, Hr. rewrite size_app.
      change (lit "[" ++ opening sp ++ (lbrace :: r) ++ tail)
        with ([] ++ (lit "[" ++ opening sp) ++ lbrace :: (r ++ tail)).
      rewrite find_chr_skip; [rewrite size_app; reflexivity|].
      intros H. brace_free NB H. }
    rewrite F.
    rewrite (msg_loop_objects_tail (t :: ts) (lit "[" ++ opening sp) [] fuel).
    + reflexivity.
    + discriminate.
    + etransitivity; [exact Hj|]. rewrite <- app_assoc. reflexivity.
    + exact Hwf.
    + pose proof (objects_text_size sp O (t :: ts)) as L.
      assert (1 + size (objects_text sp (t :: ts)) <= size json).
      { rewrite Hj, !size_app.
        change (size (lit "[")) with 1. pose proof (size_nonneg (opening sp)).
        pose proof (size_nonneg tail). lia. }
      lia.
Qed.

End OpenArray.

(** X7. [parse_messages_json] does not ask for the end of the array:
    on an opening bracket, N well-formed objects and any text in which
    the key ["role"] does not occur (nothing, a closing bracket, an
    object without a role, the start of a cut object) it returns the N
    turns of the objects, in their order, and ignores the rest. *)
Theorem open_array_decoded (fuel : nat) (sp : Spacing) (ts : list WireTurn) (tail : str) :
  well_formed_spacing sp -> Forall well_formed_turn ts ->
  contains (quoted (lit "role")) tail = false ->
  size (open_array_text sp ts tail) < npos ->
  size (open_array_text sp ts tail) <= Z.of_nat fuel ->
  parse_messages_json fuel (open_array_text sp ts tail) = Ok (map decode_turn ts).
Proof.
  intros Hsp Hwf Hc Hs Hf.
  apply (parse_messages_open_array sp Hsp (open_array_text sp ts tail) Hs fuel Hf tail);
    [|reflexivity | exact Hwf].
  unfold contains in Hc. destruct (index_of (quoted (lit "role")) tail); [discriminate|].
  reflexivity.
Qed.

Lemma open_array_decoded_witness :
  parse_messages_json 64
    (open_array_text compact
       [{| wire_role := lit "user"; wire_content := lit "hi" |}]
       (jq ",{`content`:`lost`},{`ro"))
  = Ok [{| role := lit "user"; content := lit "hi" |}].
Proof.
  apply (open_array_decoded 64 compact
           [{| wire_role := lit "user"; wire_content := lit "hi" |}]
           (jq ",{`content`:`lost`},{`ro")).
  - repeat split.
  - constructor; [|constructor]. split; [|reflexivity].
    vm_compute. intros H. repeat (destruct H as [H|H]; [discriminate H|]). exact H.
  - vm_compute. reflexivity.
  - vm_compute. reflexivity.
  - vm_compute. discriminate.
Defined.

Ltac chars_differ := let E := fresh "E" in intros E; vm_compute in E; discriminate E.

Section EscapedTurns.

Lemma replace_pairs_skip (a b r x : ascii) (s : str) :
  x <> a -> replace_pairs a b r (x :: s) = x :: replace_pairs a b r s.
Proof.
  intros N. destruct s as [|y s]; [reflexivity|]. rewrite replace_pairs_step.
  destruct (Ascii.eqb_spec a x); [congruence | reflexivity].
Qed.

Lemma replace_pairs_hit (a b r : ascii) (t : str) :
  replace_pairs a b r (a :: b :: t) = r :: replace_pairs a b r t.
Proof. rewrite replace_pairs_step, !Ascii.eqb_refl. reflexivity. Qed.

Lemma replace_pairs_miss (a b r y : ascii) (t : str) :
  y <> b -> replace_pairs a b r (a :: y :: t) = a :: replace_pairs a b r (y :: t).
Proof.
  intros N. rewrite replace_pairs_step.
  destruct (Ascii.eqb_spec b y); [congruence|]. rewrite andb_false_r. reflexivity.
Qed.

Lemma read_back_char_cases (c : ascii) :
  read_back_char c = true -> c <> backslash /\ c <> carriage /\ c <> tab.
Proof.
  unfold read_back_char. intros H. apply negb_true_iff in H.
  apply orb_false_iff in H. destruct H as [H H3].
  apply orb_false_iff in H. destruct H as [H1 H2].
  apply Ascii.eqb_neq in H1, H2, H3. auto.
Qed.

Lemma unescape_escape_char (c : ascii) (X : str) :
  read_back_char c = true -> unescape (escape_char c ++ X) = c :: unescape X.
Proof.
  intros H. destruct (read_back_char_cases c H) as (B & R & T).
  unfold unescape.
  destruct (escape_char_cases c)
    as [[-> ->]|[[-> ->]|[[-> ->]|[[-> ->]|[[-> ->]|(N1 & N2 & N3 & N4 & N5 & ->)]]]]];
    try congruence; cbn [app].
  - rewrite (replace_pairs_miss backslash "n" newline dquote) by chars_differ.
    rewrite (replace_pairs_skip backslash "n" newline dquote) by chars_differ.
    apply replace_pairs_hit.
  - rewrite (replace_pairs_hit backslash "n" newline).
    apply replace_pairs_skip. chars_differ.
  - rewrite (replace_pairs_skip backslash "n" newline c) by exact B.
    apply replace_pairs_skip. exact B.
Qed.

Lemma unescape_escape (s : str) :
  forallb read_back_char s = true -> unescape (List.concat (map escape_char s)) = s.
Proof.
  induction s as [|c s IH]; intros H; [reflexivity|].
  cbn [forallb] in H. apply andb_true_iff in H. destruct H as [Hc H].
  cbn [map List.concat]. rewrite unescape_escape_char by exact Hc.
  rewrite IH by exact H. reflexivity.
Qed.

Lemma quotes_escaped_escape (s : str) :
  forall p, p <> backslash -> forallb read_back_char s = true ->
            quotes_escaped p (List.concat (map escape_char s)) = true.
Proof.
  induction s as [|c s IH]; intros p Hp H.
  - cbn [map List.concat quotes_escaped]. apply negb_true_iff. apply Ascii.eqb_neq. exact Hp.
  - cbn [forallb] in H. apply andb_true_iff in H. destruct H as [Hc H].
    destruct (read_back_char_cases c Hc) as (B & R & T).
    cbn [map List.concat].
    destruct (escape_char_cases c)
      as [[-> ->]|[[-> ->]|[[-> ->]|[[-> ->]|[[-> ->]|(N1 & N2 & N3 & N4 & N5 & ->)]]]]];
      try congruence; cbn [app quotes_escaped].
    + rewrite Ascii.eqb_refl. rewrite IH by (chars_differ || exact H). reflexivity.
    + rewrite IH by (chars_differ || exact H). reflexivity.
    + apply Ascii.eqb_neq in N1. rewrite N1. cbn [negb orb andb].
      apply IH; [exact B | exact H].
Qed.

Lemma encode_turn_well_formed (m : ChatMessage) :
  read_back_turn m -> well_formed_turn (encode_turn m).
Proof.
  intros [Hr Hc]. split; [exact Hr|]. cbn [encode_turn wire_content].
  apply quotes_escaped_escape; [chars_differ | exact Hc].
Qed.

Lemma decode_encode_turn (m : ChatMessage) :
  read_back_turn m -> decode_turn (encode_turn m) = m.
Proof.
  intros [Hr Hc]. destruct m as [r c]. unfold decode_turn, encode_turn.
  cbn [wire_role wire_content role content] in *. rewrite unescape_escape by exact Hc.
  reflexivity.
Qed.

End EscapedTurns.



(** * The tool decoder always returns *)

Section ToolsReturn.

Variable fuel : nat.
Variable json : str.
Hypothesis json_short : size json <= INT_MAX.
Hypothesis enough_fuel : size json <= Z.of_nat fuel.

(** The loop of lines 95-130 appends one record per turn and ends. *)
Lemma tools_loop_appends (n : nat) :
  forall pos tools,
    pos = npos \/ (0 <= pos < size json /\ size json - pos <= Z.of_nat n) ->
    exists extra,
      tools_loop fuel n json pos tools = Ok (tools ++ extra)
      /\ (extra = [] <-> pos = npos).
Proof.
  pose proof (json_below_npos O json json_short) as Hs.
  induction n as [|n IH]; intros pos tools Hn; cbn [tools_loop];
    destruct (pos =? npos) eqn:E;
    try (apply Z.eqb_eq in E; exists []; rewrite app_nil_r;
         split; [reflexivity | split; auto]);
    apply Z.eqb_neq in E; destruct Hn as [Hn|[Hpos Hn]]; try congruence; [lia|].
  destruct (tools_body_total fuel json json_short enough_fuel pos tools)
    as (tool & -> & _); [lia|]. cbn [bind].
  destruct (IH (find json (quoted (lit "function")) (find json (quoted (lit "name")) pos))
              (tools ++ [tool])) as (extra & -> & _).
  { destruct (tools_next_pos O json json_short pos) as [F|F]; [lia | left; exact F | right; lia]. }
  exists (tool :: extra). rewrite <- app_assoc. split; [reflexivity|].
  split; [discriminate | congruence].
Qed.

End ToolsReturn.

(** X9. [parse_tools_json] returns on every text (of a length [int]
    can count): it throws no exception, reads no character out of
    range and its loops end, the search for the next marker moving
    forward at each turn. It returns no record exactly when the marker
    ["function"] does not occur from the first opening bracket on. *)
Theorem tools_decoder_returns (fuel : nat) (json : str) :
  size json <= INT_MAX -> size json <= Z.of_nat fuel ->
  exists tools,
    parse_tools_json fuel json = Ok tools
    /\ (tools = [] <->
        find json (quoted (lit "function")) (find_chr json lbracket 0) = npos).
Proof.
  intros Hs Hf. unfold parse_tools_json. destruct json as [|c json'].
  - exists []. split; [reflexivity|]. split; reflexivity.
  - set (json := c :: json') in *.
    assert (Hn : size json < npos) by (apply (json_below_npos O); exact Hs).
    destruct (find_chr json lbracket 0 =? npos) eqn:E.
    + apply Z.eqb_eq in E. exists []. split; [reflexivity|]. rewrite E.
      split; [intros _; apply find_past_end; exact Hn | reflexivity].
    + apply Z.eqb_neq in E.
      destruct (find_chr_range json lbracket 0 ltac:(lia)) as [F|F]; [congruence|].
      destruct (tools_loop_appends fuel json Hs Hf fuel
                  (find json (quoted (lit "function")) (find_chr json lbracket 0)) [])
        as (extra & -> & X).
      * destruct (find_quoted_range json (lit "function")
                    (find_chr json lbracket 0) ltac:(lia)) as [G|G];
          [left; exact G | right; lia].
      * exists extra. split; [reflexivity | exact X].
Qed.

Lemma tools_decoder_returns_witness :
  exists tools,
    parse_tools_json 32 (jq "[{`function`:{`name`:`f") = Ok tools
    /\ (tools = [] <->
        find (jq "[{`function`:{`name`:`f") (quoted (lit "function"))
          (find_chr (jq "[{`function`:{`name`:`f") lbracket 0) = npos).
Proof.
  apply (tools_decoder_returns 32 (jq "[{`function`:{`name`:`f")).
  - vm_compute. discriminate.
  - vm_compute. discriminate.
Defined.

(** * Options: where exceptions come from *)

Section StopLoopFacts.

Lemma wrap_le (z : Z) : 0 <= z -> wrap z <= z.
Proof. intros H. unfold wrap. apply Z.mod_le; [exact H | reflexivity]. Qed.

(** The stop-sequence loop reads inside the text only: when it comes
    to an end, it returns. *)
Lemma stop_loop_outcome (json : str) (end_pos : Z) (n : nat) :
  forall seq_pos o,
    seq_pos = npos \/ 0 <= seq_pos < size json ->
    snd (stop_loop n json end_pos seq_pos o) = Ok tt
    \/ snd (stop_loop n json end_pos seq_pos o) = OutOfFuel.
Proof.
  induction n as [|n IH]; intros seq_pos o Hp; cbn [stop_loop];
    destruct (negb (seq_pos =? npos) && (seq_pos <? end_pos)) eqn:C;
    try (left; reflexivity); try (right; reflexivity).
  apply andb_true_iff in C. destruct C as [C _]. apply negb_true_iff in C.
  apply Z.eqb_neq in C. destruct Hp as [Hp|Hp]; [congruence|].
  assert (Hnext : forall o1,
            snd (stop_loop n json end_pos
                   (find_chr json dquote
                      (wrap (find_chr json dquote (wrap (seq_pos + 1)) + 1))) o1) = Ok tt
            \/ snd (stop_loop n json end_pos
                      (find_chr json dquote
                         (wrap (find_chr json dquote (wrap (seq_pos + 1)) + 1))) o1)
               = OutOfFuel).
  { intros o1. apply IH.
    destruct (find_chr_range json dquote
                (wrap (find_chr json dquote (wrap (seq_pos + 1)) + 1))
                (wrap_nonneg _)) as [F|F]; [left; exact F | right].
    pose proof (wrap_nonneg (find_chr json dquote (wrap (seq_pos + 1)) + 1)). lia. }
  unfold and_then.
  destruct (negb (find_chr json dquote (wrap (seq_pos + 1)) =? npos)).
  - unfold assign.
    rewrite substr_ok by (pose proof (wrap_le (seq_pos + 1)); lia).
    match goal with
    | |- context [stop_loop n json end_pos ?p ?o1] =>
        destruct (stop_loop n json end_pos p o1) as [o2 r2] eqn:S;
        specialize (Hnext o1); rewrite S in Hnext; exact Hnext
    end.
  - unfold skip.
    match goal with
    | |- context [stop_loop n json end_pos ?p ?o1] =>
        destruct (stop_loop n json end_pos p o1) as [o2 r2] eqn:S;
        specialize (Hnext o1); rewrite S in Hnext; exact Hnext
    end.
Qed.

Lemma read_stop_sequences_outcome (fuel : nat) (json : str) (o : SamplingOptions) :
  snd (read_stop_sequences fuel json o) = Ok tt
  \/ snd (read_stop_sequences fuel json o) = OutOfFuel.
Proof.
  unfold read_stop_sequences. cbv zeta.
  destruct (negb (find json (quoted (lit "stop_sequences")) 0 =? npos)) eqn:K;
    [|left; reflexivity].
  apply negb_true_iff in K. apply Z.eqb_neq in K.
  destruct (find_quoted_range json (lit "stop_sequences") 0 ltac:(lia)) as [F|F];
    [congruence|].
  destruct (negb (find_chr json lbracket
                    (find json (quoted (lit "stop_sequences")) 0) =? npos)) eqn:B;
    [|left; reflexivity].
  apply negb_true_iff in B. apply Z.eqb_neq in B.
  destruct (find_chr_range json lbracket
              (find json (quoted (lit "stop_sequences")) 0) ltac:(lia)) as [G|G];
    [congruence|].
  apply stop_loop_outcome.
  destruct (find_chr_range json dquote
              (find_chr json lbracket (find json (quoted (lit "stop_sequences")) 0))
              ltac:(lia)) as [D|D]; [left; exact D | right; lia].
Qed.

End StopLoopFacts.

(** X10. A call of [parse_options_json] in which the loop over the
    stop sequences comes to an end either returns or throws the
    exception of a numeric conversion ([std::invalid_argument] or
    [std::out_of_range]); in the latter case one of the four scalar
    keys is present with a text after its colon that is not a number of
    its type, and the list of stop sequences is empty, the
    stop-sequence block not being reached. The texts on which that loop
    does not end are set aside by the second hypothesis: there the list
    grows at every turn, and the call ends when memory is exhausted. *)
Theorem options_throw_only_on_numbers
  (fuel : nat) (json : str) (o0 o : SamplingOptions) (r : result unit) :
  parse_options_json fuel json o0 = (o, r) ->
  r <> OutOfFuel ->
  r = Ok tt
  \/ exists e,
       r = Throw e
       /\ numeric_parse_failure e
       /\ stop_sequences o = []
       /\ (unparsable stof json "temperature" \/ unparsable stof json "top_p" \/
           unparsable stoul json "top_k" \/ unparsable stoul json "max_tokens").
Proof.
  unfold parse_options_json. cbv zeta.
  destruct json as [|c json']; [intros [= <- <-] _; left; reflexivity|].
  set (json := c :: json').
  rewrite read_temperature_scalar, read_top_p_scalar, read_top_k_scalar,
    read_max_tokens_scalar.
  unfold unparsable.
  unfold and_then at 1. intros H Hend. scalar_cases H;
    [| | injection H as <- <-; right; exists e; split; [reflexivity|];
         split; [exact N|]; split; [reflexivity|]; eauto 8].
  all: unfold and_then at 1 in H; scalar_cases H;
    [| | injection H as <- <-; right; exists e; split; [reflexivity|];
         split; [exact N|]; split; [reflexivity|]; eauto 8].
  all: unfold and_then at 1 in H; scalar_cases H;
    [| | injection H as <- <-; right; exists e; split; [reflexivity|];
         split; [exact N|]; split; [reflexivity|]; eauto 8].
  all: unfold and_then at 1 in H; scalar_cases H;
    [| | injection H as <- <-; right; exists e; split; [reflexivity|];
         split; [exact N|]; split; [reflexivity|]; eauto 8].
  all: left;
    match type of H with
    | read_stop_sequences ?f ?j ?o1 = _ =>
        destruct (read_stop_sequences_outcome f j o1) as [T|T];
        rewrite H in T; cbn [snd] in T; [exact T | contradiction]
    end.
Qed.

Lemma options_throw_only_on_numbers_witness :
  @Throw unit out_of_range = Ok tt
  \/ exists e,
       @Throw unit out_of_range = Throw e
       /\ numeric_parse_failure e
       /\ stop_sequences
            {| temperature := float_of_decimal false 5 (-1); top_p := MINUS_ONE;
               top_k := 0; max_tokens := 100; stop_sequences := [] |} = []
       /\ (unparsable stof (jq "{`temperature`:0.5,`top_k`:99999999999999999999,`stop_sequences`:[`x`]}") "temperature"
           \/ unparsable stof (jq "{`temperature`:0.5,`top_k`:99999999999999999999,`stop_sequences`:[`x`]}") "top_p"
           \/ unparsable stoul (jq "{`temperature`:0.5,`top_k`:99999999999999999999,`stop_sequences`:[`x`]}") "top_k"
           \/ unparsable stoul (jq "{`temperature`:0.5,`top_k`:99999999999999999999,`stop_sequences`:[`x`]}") "max_tokens").
Proof.
  apply (options_throw_only_on_numbers 8
           (jq "{`temperature`:0.5,`top_k`:99999999999999999999,`stop_sequences`:[`x`]}")
           default_options).
  - vm_compute. reflexivity.
  - discriminate.
Defined.

(** * Options: the two counts *)

Section Digits.

Lemma digits_exclude (x : ascii) (d : str) :
  forallb is_digit d = true -> is_digit x = false -> ~ In x d.
Proof.
  intros H N I. rewrite forallb_forall in H. apply H in I. congruence.
Qed.

Lemma is_digit_value (c : ascii) :
  is_digit c = true -> digit_of c = Some (code c - 48).
Proof.
  unfold is_digit, digit_of.
  destruct ((48 <=? code c) && (code c <=? 57)); [reflexivity | discriminate].
Qed.

(** [read_digits] reads a run of digits up to a character that is
    none. *)
Lemma read_digits_run (d rest : str) :
  forallb is_digit d = true ->
  match rest with c :: _ => is_digit c = false | [] => True end ->
  forall acc count,
    read_digits 10 digit_of (d ++ rest) acc count
    = (fold_left (fun a c => a * 10 + (code c - 48)) d acc, count + size d, rest).
Proof.
  intros Hd Hr. induction d as [|c d IH]; intros acc count.
  - cbn [app fold_left]. rewrite size_nil, Z.add_0_r.
    destruct rest as [|x rest]; [reflexivity|]. cbn [read_digits].
    unfold is_digit in Hr. destruct (digit_of x); [discriminate | reflexivity].
  - cbn [forallb] in Hd. apply andb_true_iff in Hd. destruct Hd as [Hc Hd].
    cbn [app read_digits fold_left]. rewrite (is_digit_value c Hc).
    rewrite IH by exact Hd. rewrite size_cons. f_equal. f_equal. lia.
Qed.

Lemma stoul_digits (d rest : str) :
  d <> [] -> forallb is_digit d = true ->
  match rest with c :: _ => is_digit c = false | [] => True end ->
  stoul (d ++ rest)
  = if ULONG_MAX <? digits_value d then Throw out_of_range else Ok (digits_value d).
Proof.
  intros Hne Hd Hr. destruct d as [|c d]; [congruence|].
  pose proof Hd as Hd'. cbn [forallb] in Hd'. apply andb_true_iff in Hd'.
  destruct Hd' as [Hc _].
  assert (Hcode : 48 <= code c <= 57).
  { unfold is_digit, digit_of in Hc.
    destruct ((48 <=? code c) && (code c <=? 57)) eqn:E; [|discriminate].
    apply andb_true_iff in E. destruct E as [E1 E2].
    apply Z.leb_le in E1, E2. lia. }
  unfold stoul.
  assert (S1 : skip_spaces ((c :: d) ++ rest) = (c :: d) ++ rest).
  { cbn [app skip_spaces]. unfold is_space.
    destruct (code c =? 32) eqn:E1; [apply Z.eqb_eq in E1; lia|].
    destruct (code c <=? 13) eqn:E2; [apply Z.leb_le in E2; lia|].
    rewrite andb_false_r. reflexivity. }
  rewrite S1.
  assert (S2 : read_sign ((c :: d) ++ rest) = (false, (c :: d) ++ rest)).
  { cbn [app read_sign].
    destruct (Ascii.eqb_spec c "-"%char) as [->|_];
      [change (code "-"%char) with 45 in Hcode; lia|].
    destruct (Ascii.eqb_spec c "+"%char) as [->|_];
      [change (code "+"%char) with 43 in Hcode; lia|].
    reflexivity. }
  rewrite S2. rewrite (read_digits_run (c :: d) rest Hd Hr).
  fold (digits_value (c :: d)).
  pose proof (size_nonneg d). rewrite size_cons.
  destruct (0 + (1 + size d) =? 0) eqn:E; [apply Z.eqb_eq in E; lia|].
  reflexivity.
Qed.

Lemma index_of_miss (p : str) (x : ascii) (s : str) :
  starts_with p (x :: s) = false ->
  index_of p (x :: s) = option_map S (index_of p s).
Proof. intros H. cbn [index_of]. rewrite H. reflexivity. Qed.

Lemma index_of_hit (p : str) (s : str) :
  starts_with p s = true -> index_of p s = Some O.
Proof. intros H. destruct s; cbn [index_of]; rewrite H; reflexivity. Qed.

Lemma find_at_start (s p : str) :
  find s p 0 = match index_of p s with
               | Some k => Z.of_nat k
               | None => npos
               end.
Proof.
  pose proof (find_from_prefix [] s p) as F. cbn [app] in F. rewrite size_nil in F.
  rewrite F. destruct (index_of p s); reflexivity.
Qed.

End Digits.

(** Searches a key in a text whose only unknown parts are runs of
    digits. *)
Ltac search_key Hk Hn :=
  rewrite find_at_start;
  unfold counts_text, quoted; cbn [app lit list_ascii_of_string];
  repeat first
    [ rewrite index_of_miss by reflexivity
    | rewrite index_of_hit by reflexivity
    | rewrite index_of_skip by (apply digits_exclude; [first [exact Hk | exact Hn] | reflexivity])
    | rewrite index_of_absent
        by (let H := fresh "H" in
            intros H; apply in_app_or in H; destruct H as [H|H];
            [ revert H; apply digits_exclude; [first [exact Hk | exact Hn] | reflexivity]
            | repeat (destruct H as [H|H]; [discriminate H|]); exact H ]) ];
  cbn [option_map].

Section Counts.

Lemma substr_from_suffix (P b : str) :
  size (P ++ b) < npos -> substr_from (P ++ b) (size P) = Ok b.
Proof.
  intros Hs. unfold substr_from. rewrite size_app in Hs.
  pose proof (size_nonneg P). pose proof (size_nonneg b).
  rewrite substr_ok by (rewrite size_app; lia).
  rewrite skipn_size_app, size_app.
  rewrite Z.min_r by lia.
  replace (size P + size b - size P) with (size b) by lia.
  unfold size. rewrite Nat2Z.id, firstn_all. reflexivity.
Qed.

(** The text after the colon of a key that is found at the end of
    [P]. *)
Lemma field_text_at (P key b : str) (k : string) :
  key = quoted (lit k) -> ~ In colon key ->
  find (P ++ key ++ colon :: b) key 0 = size P ->
  size (P ++ key ++ colon :: b) < npos ->
  present (P ++ key ++ colon :: b) k = true
  /\ field_text (P ++ key ++ colon :: b) k = Ok b.
Proof.
  intros -> Hc Hf Hs. unfold present, field_text. rewrite Hf.
  pose proof (size_nonneg P) as HP.
  assert (Hsz := Hs). rewrite !size_app, size_cons in Hsz.
  pose proof (size_nonneg b) as Hb. pose proof (size_nonneg (quoted (lit k))) as Hk.
  split.
  - destruct (size P =? npos) eqn:E; [apply Z.eqb_eq in E; lia | reflexivity].
  - rewrite find_chr_skip by exact Hc.
    rewrite wrap_small by (unfold size_modulus; rewrite npos_eq in Hsz; lia).
    replace (size P + size (quoted (lit k)) + 1)
      with (size (P ++ quoted (lit k) ++ [colon]))
      by (rewrite !size_app, size_cons, size_nil; lia).
    replace (P ++ quoted (lit k) ++ colon :: b)
      with ((P ++ quoted (lit k) ++ [colon]) ++ b) in *
      by (repeat (rewrite <- ?app_assoc; cbn [app]); reflexivity).
    apply substr_from_suffix. exact Hs.
Qed.

Variables dk dn : str.
Hypothesis dk_digits : forallb is_digit dk = true.
Hypothesis dn_digits : forallb is_digit dn = true.
Hypothesis text_size : size (counts_text dk dn) < npos.

Lemma counts_no_temperature : present (counts_text dk dn) "temperature" = false.
Proof. unfold present. search_key dk_digits dn_digits. reflexivity. Qed.

Lemma counts_no_top_p : present (counts_text dk dn) "top_p" = false.
Proof. unfold present. search_key dk_digits dn_digits. reflexivity. Qed.

Lemma counts_no_stop_sequences : present (counts_text dk dn) "stop_sequences" = false.
Proof. unfold present. search_key dk_digits dn_digits. reflexivity. Qed.

Lemma counts_top_k :
  present (counts_text dk dn) "top_k" = true
  /\ field_text (counts_text dk dn) "top_k"
     = Ok (dk ++ lit "," ++ quoted (lit "max_tokens") ++ lit ":" ++ dn ++ lit "}").
Proof.
  apply (field_text_at (lit "{") (quoted (lit "top_k"))
           (dk ++ lit "," ++ quoted (lit "max_tokens") ++ lit ":" ++ dn ++ lit "}")
           "top_k" eq_refl).
  - vm_compute. intros H. repeat (destruct H as [H|H]; [discriminate H|]). exact H.
  - change (find (counts_text dk dn) (quoted (lit "top_k")) 0 = size (lit "{")).
    search_key dk_digits dn_digits. reflexivity.
  - exact text_size.
Qed.

Lemma counts_max_tokens :
  present (counts_text dk dn) "max_tokens" = true
  /\ field_text (counts_text dk dn) "max_tokens" = Ok (dn ++ lit "}").
Proof.
  assert (E : counts_text dk dn
              = (lit "{" ++ quoted (lit "top_k") ++ lit ":" ++ dk ++ lit ",")
                ++ quoted (lit "max_tokens") ++ colon :: (dn ++ lit "}")).
  { unfold counts_text. repeat (rewrite <- ?app_assoc; cbn [app]). reflexivity. }
  rewrite E.
  apply (field_text_at _ (quoted (lit "max_tokens")) (dn ++ lit "}") "max_tokens" eq_refl).
  - vm_compute. intros H. repeat (destruct H as [H|H]; [discriminate H|]). exact H.
  - rewrite <- E. search_key dk_digits dn_digits.
    unfold size. cbn [List.length]. rewrite length_app. cbn [List.length]. lia.
  - rewrite <- E. exact text_size.
Qed.

End Counts.

(** X11. [parse_options_json] reads [top_k] and [max_tokens] as
    unsigned decimal numerals: on an object holding the two keys, each
    followed by a run of digits, it returns with both fields at the
    values of the digits (the other fields at their defaults) when both
    values are at most [2^64 - 1]; when the value of [max_tokens] is
    beyond, it throws [std::out_of_range] with [top_k] already written
    and [max_tokens] at its default. A minus sign is accepted: [-1] is
    read as [2^64 - 1]. *)
Theorem counts_decoded (fuel : nat) (dk dn : str) (o0 : SamplingOptions) :
  dk <> [] -> dn <> [] ->
  forallb is_digit dk = true -> forallb is_digit dn = true ->
  size (counts_text dk dn) < npos ->
  digits_value dk <= ULONG_MAX ->
  parse_options_json fuel (counts_text dk dn) o0
  = (if digits_value dn <=? ULONG_MAX
     then (with_counts (digits_value dk) (digits_value dn), Ok tt)
     else (with_counts (digits_value dk) 100, Throw out_of_range))
  /\ parse_options_json fuel (jq "{`max_tokens`:-1}") o0
     = (with_counts 0 18446744073709551615, Ok tt).
Proof.
  intros Hk0 Hn0 Hk Hn Hs Hv. split; [|vm_compute; reflexivity].
  destruct (counts_top_k dk dn Hs) as [Pk Tk].
  destruct (counts_max_tokens dk dn Hk Hs) as [Pn Tn].
  unfold parse_options_json. cbv zeta.
  change (counts_text dk dn) with (lbrace :: tl (counts_text dk dn)) at 1. cbv iota.
  rewrite read_temperature_scalar, read_top_p_scalar, read_top_k_scalar,
    read_max_tokens_scalar.
  unfold read_scalar, read_stop_sequences.
  fold (present (counts_text dk dn) "stop_sequences").
  rewrite (counts_no_temperature dk dn Hk Hn), (counts_no_top_p dk dn Hk Hn),
    (counts_no_stop_sequences dk dn Hk Hn).
  rewrite Pk, Pn.
  unfold field_value. rewrite Tk, Tn. cbn [bind negb].
  rewrite (stoul_digits dk _ Hk0 Hk) by reflexivity.
  rewrite (stoul_digits dn _ Hn0 Hn) by reflexivity.
  destruct (ULONG_MAX <? digits_value dk) eqn:Ek; [apply Z.ltb_lt in Ek; lia|].
  destruct (digits_value dn <=? ULONG_MAX) eqn:En.
  - apply Z.leb_le in En.
    destruct (ULONG_MAX <? digits_value dn) eqn:En'; [apply Z.ltb_lt in En'; lia|].
    reflexivity.
  - apply Z.leb_gt in En.
    destruct (ULONG_MAX <? digits_value dn) eqn:En'; [|apply Z.ltb_ge in En'; lia].
    reflexivity.
Qed.

Lemma counts_decoded_witness :
  parse_options_json 4 (counts_text (lit "40") (lit "0256")) default_options
  = (with_counts 40 256, Ok tt).
Proof.
  apply (counts_decoded 4 (lit "40") (lit "0256") default_options).
  - discriminate.
  - discriminate.
  - reflexivity.
  - reflexivity.
  - vm_compute. reflexivity.
  - vm_compute. discriminate.
Defined.

(** * Options: the stop sequences *)

Ltac sizes := repeat first [rewrite size_app | rewrite size_cons | rewrite size_nil].

Lemma stop_items_text_cons (w s : str) (items : list (str * str)) :
  stop_items_text ((w, s) :: items) = w ++ dquote :: s ++ dquote :: stop_items_text items.
Proof.
  unfold stop_items_text, quoted. cbn [map List.concat fst snd].
  repeat (rewrite <- ?app_assoc; cbn [app]). reflexivity.
Qed.

Section StopItems.

Variable json : str.
Hypothesis json_size : size json < npos.
Variables w_end post : str.
Hypothesis w_end_plain : ~ In dquote w_end.
Variable end_pos : Z.

Lemma push_all (o : SamplingOptions) (l1 l2 : list str) :
  {| temperature := temperature o; top_p := top_p o; top_k := top_k o;
     max_tokens := max_tokens o; stop_sequences := (stop_sequences o ++ l1) ++ l2 |}
  = {| temperature := temperature o; top_p := top_p o; top_k := top_k o;
       max_tokens := max_tokens o; stop_sequences := stop_sequences o ++ l1 ++ l2 |}.
Proof. rewrite <- app_assoc. reflexivity. Qed.

(** The loop of lines 178-185 on well-formed items: one stop sequence
    each, in their order. *)
Lemma stop_loop_items (items : list (str * str)) :
  forall P o n,
    json = P ++ stop_items_text items ++ w_end ++ rbracket :: post ->
    end_pos = size P + size (stop_items_text items) + size w_end ->
    Forall stop_item_ok items ->
    (List.length items <= n)%nat ->
    stop_loop n json end_pos (find_chr json dquote (size P)) o
    = ({| temperature := temperature o; top_p := top_p o; top_k := top_k o;
          max_tokens := max_tokens o;
          stop_sequences := stop_sequences o ++ map snd items |}, Ok tt).
Proof.
  induction items as [|[w s] items IH]; intros P o n Hj He Hwf Hn.
  - cbn [stop_items_text map List.concat app] in *. rewrite size_nil in He.
    rewrite app_nil_r.
    assert (C : negb (find_chr json dquote (size P) =? npos)
                && (find_chr json dquote (size P) <? end_pos) = false).
    { destruct (split_first dquote post) as [N|(v1 & v2 & E & N)].
      - assert (F : find_chr json dquote (size P) = npos).
        { rewrite Hj at 1. apply find_absent.
          intros H. apply in_app_or in H. destruct H as [H|[H|H]];
            [exact (w_end_plain H) | discriminate H | exact (N H)]. }
        rewrite F. reflexivity.
      - assert (Hj' : json = P ++ (w_end ++ rbracket :: v1) ++ dquote :: v2)
          by (rewrite Hj, E, <- app_assoc; reflexivity).
        rewrite Hj' at 1 2. rewrite find_chr_skip.
        + rewrite size_app, size_cons. pose proof (size_nonneg v1).
          apply andb_false_iff. right. apply Z.ltb_ge. lia.
        + intros H. apply in_app_or in H. destruct H as [H|[H|H]];
            [exact (w_end_plain H) | discriminate H | exact (N H)]. }
    destruct n; cbn [stop_loop]; rewrite C; destruct o; reflexivity.
  - pose proof (Forall_inv Hwf) as (Hw1 & Hw2 & Hs1 & Hs2).
    pose proof (Forall_inv_tail Hwf) as Hwf'. cbn [fst snd] in *.
    destruct n as [|n]; [simpl in Hn; lia|].
    remember (stop_items_text items ++ w_end ++ rbracket :: post) as rest eqn:Hrest.
    assert (Hj1 : json = P ++ w ++ dquote :: (s ++ dquote :: rest)).
    { rewrite Hj, Hrest, stop_items_text_cons.
      repeat (rewrite <- ?app_assoc; cbn [app]). reflexivity. }
    assert (Hsz : size json = size P + size w + 1 + size s + 1 + size rest).
    { rewrite Hj1. sizes. ring. }
    assert (Hitems : size (stop_items_text ((w, s) :: items))
                     = size w + 1 + size s + 1 + size (stop_items_text items)).
    { rewrite stop_items_text_cons. sizes. ring. }
    pose proof (size_nonneg P). pose proof (size_nonneg w). pose proof (size_nonneg s).
    pose proof (size_nonneg rest). pose proof (size_nonneg w_end).
    pose proof (size_nonneg (stop_items_text items)).
    assert (F1 : find_chr json dquote (size P) = size P + size w).
    { rewrite Hj1 at 1. apply find_chr_skip. exact Hw1. }
    cbn [stop_loop]. rewrite F1.
    destruct (size P + size w =? npos) eqn:E1; [apply Z.eqb_eq in E1; lia|].
    destruct (size P + size w <? end_pos) eqn:E2; [|apply Z.ltb_ge in E2; lia].
    cbn [negb andb].
    rewrite wrap_small by (unfold size_modulus; rewrite npos_eq in json_size; lia).
    assert (Hj2 : json = (P ++ w ++ [dquote]) ++ s ++ dquote :: rest).
    { rewrite Hj1. repeat (rewrite <- ?app_assoc; cbn [app]). reflexivity. }
    assert (Sz2 : size (P ++ w ++ [dquote]) = size P + size w + 1).
    { sizes. lia. }
    assert (F2 : find_chr json dquote (size P + size w + 1) = size P + size w + 1 + size s).
    { rewrite <- Sz2. rewrite Hj2 at 1. apply find_chr_skip. exact Hs1. }
    rewrite F2.
    destruct (size P + size w + 1 + size s =? npos) eqn:E3; [apply Z.eqb_eq in E3; lia|].
    cbn [negb]. unfold and_then at 1. unfold assign.
    replace (wrap (size P + size w + 1 + size s - (size P + size w + 1))) with (size s)
      by (rewrite wrap_small;
          [lia | unfold size_modulus; rewrite npos_eq in json_size; lia]).
    rewrite <- Sz2. rewrite Hj2 at 1.
    replace (s ++ dquote :: rest) with (s ++ (dquote :: rest)) by reflexivity.
    rewrite substr_mid. rewrite Sz2.
    rewrite wrap_small by (unfold size_modulus; rewrite npos_eq in json_size; lia).
    assert (Hj3 : json = (P ++ w ++ quoted s) ++ rest).
    { rewrite Hj1. unfold quoted.
      repeat (rewrite <- ?app_assoc; cbn [app]). reflexivity. }
    assert (Sz3 : size (P ++ w ++ quoted s) = size P + size w + 1 + size s + 1).
    { unfold quoted. sizes. lia. }
    rewrite <- Sz3.
    rewrite (IH (P ++ w ++ quoted s) _ n Hj3); [ | lia | exact Hwf' | simpl in Hn; lia ].
    unfold push_stop_sequence.
    cbn [temperature top_p top_k max_tokens stop_sequences map snd].
    rewrite <- app_assoc. reflexivity.
Qed.

End StopItems.

Section StopArray.

Lemma find_chr_step (pre : str) (x c : ascii) (b : str) :
  x <> c ->
  find_chr (pre ++ x :: b) c (size pre) = find_chr (pre ++ x :: b) c (size pre + 1).
Proof.
  intros N. unfold find_chr.
  assert (R : find (pre ++ x :: b) [c] (size pre + 1)
              = match index_of [c] b with
                | Some k => size pre + 1 + Z.of_nat k
                | None => npos
                end).
  { replace (pre ++ x :: b) with ((pre ++ [x]) ++ b)
      by (rewrite <- app_assoc; reflexivity).
    replace (size pre + 1) with (size (pre ++ [x])) by (sizes; ring).
    apply find_from_prefix. }
  rewrite R, find_from_prefix. cbn [index_of starts_with].
  destruct (Ascii.eqb_spec c x) as [->|_]; [congruence|]. cbn [andb].
  destruct (index_of [c] b); cbn [option_map]; [lia | reflexivity].
Qed.

Lemma stop_items_no_bracket (items : list (str * str)) :
  Forall stop_item_ok items -> ~ In rbracket (stop_items_text items).
Proof.
  induction 1 as [|[w s] items (_ & Hw & _ & Hs) _ IH]; [intros []|].
  rewrite stop_items_text_cons. cbn [fst snd] in *. intros H.
  apply in_app_or in H. destruct H as [H|[H|H]]; [exact (Hw H) | discriminate H |].
  apply in_app_or in H. destruct H as [H|[H|H]]; [exact (Hs H) | discriminate H | exact (IH H)].
Qed.

End StopArray.

(** X12. On an options text in which the key ["stop_sequences"] is
    followed by an array of texts between quotes (no quote or closing
    bracket inside a text or between the texts, no opening bracket
    between the key and the array) and in which none of the four scalar
    keys occurs, [parse_options_json] returns the texts as the stop
    sequences, in their order, the other fields at their defaults.
    Escapes are not read, and a closing bracket inside a text ends the
    list at that text. *)
Theorem stop_sequences_decoded (fuel : nat) (pre g : str) (items : list (str * str))
  (w_end post : str) (o0 : SamplingOptions) :
  find (stop_options_text pre g items w_end post) (quoted (lit "stop_sequences")) 0
    = size pre ->
  ~ In lbracket g -> Forall stop_item_ok items ->
  ~ In dquote w_end -> ~ In rbracket w_end ->
  present (stop_options_text pre g items w_end post) "temperature" = false ->
  present (stop_options_text pre g items w_end post) "top_p" = false ->
  present (stop_options_text pre g items w_end post) "top_k" = false ->
  present (stop_options_text pre g items w_end post) "max_tokens" = false ->
  size (stop_options_text pre g items w_end post) < npos ->
  (List.length items <= fuel)%nat ->
  parse_options_json fuel (stop_options_text pre g items w_end post) o0
  = (with_stop_sequences (map snd items), Ok tt)
  /\ parse_options_json 4 (jq "{`stop_sequences`:[`a]b`,`c`]}") o0
     = (with_stop_sequences [lit "a]b"], Ok tt).
Proof.
  intros Hkey Hg Hitems Hwq Hwb P1 P2 P3 P4 Hs Hf. split; [|vm_compute; reflexivity].
  set (json := stop_options_text pre g items w_end post) in *.
  set (KEY := quoted (lit "stop_sequences")) in *.
  assert (Hj : json = pre ++ KEY ++ g ++ lbracket :: stop_items_text items
                        ++ w_end ++ rbracket :: post) by reflexivity.
  unfold parse_options_json. cbv zeta.
  destruct json as [|c0 t0] eqn:E.
  { exfalso. destruct pre; discriminate Hj. }
  rewrite <- E in *. clear E c0 t0.
  rewrite read_temperature_scalar, read_top_p_scalar, read_top_k_scalar,
    read_max_tokens_scalar.
  unfold read_scalar. rewrite P1, P2, P3, P4.
  unfold and_then, skip. unfold read_stop_sequences. cbv zeta. fold KEY.
  rewrite Hkey.
  pose proof (size_nonneg pre) as Hp. pose proof (size_nonneg g) as Hgs.
  pose proof (size_nonneg (stop_items_text items)) as Hi.
  pose proof (size_nonneg w_end) as Hw. pose proof (size_nonneg post) as Hpo.
  assert (Sk : size KEY = 16) by reflexivity.
  assert (Hsz : size json = size pre + 16 + size g + 1 + size (stop_items_text items)
                            + size w_end + 1 + size post).
  { rewrite Hj. sizes. rewrite Sk. ring. }
  destruct (size pre =? npos) eqn:E0; [apply Z.eqb_eq in E0; lia|]. cbn [negb].
  assert (B : find_chr json lbracket (size pre) = size pre + 16 + size g).
  { rewrite Hj at 1. rewrite app_assoc with (l := KEY).
    rewrite find_chr_skip; [sizes; rewrite Sk; ring|].
    intros H. apply in_app_or in H. destruct H as [H|H]; [|exact (Hg H)].
    vm_compute in H. repeat (destruct H as [H|H]; [discriminate H|]). exact H. }
  rewrite B.
  destruct (size pre + 16 + size g =? npos) eqn:E1; [apply Z.eqb_eq in E1; lia|].
  cbn [negb].
  set (Q := pre ++ KEY ++ g).
  assert (SQ : size Q = size pre + 16 + size g) by (unfold Q; sizes; rewrite Sk; ring).
  assert (End : find_chr json rbracket (size pre + 16 + size g)
                = size Q + 1 + size (stop_items_text items) + size w_end).
  { rewrite <- SQ.
    replace json with (Q ++ (lbracket :: stop_items_text items ++ w_end) ++ rbracket :: post)
      by (rewrite Hj; unfold Q; repeat (rewrite <- ?app_assoc; cbn [app]); reflexivity).
    rewrite find_chr_skip; [sizes; ring|].
    intros [H|H]; [discriminate H|]. apply in_app_or in H.
    destruct H as [H|H]; [exact (stop_items_no_bracket items Hitems H) | exact (Hwb H)]. }
  rewrite End.
  assert (Seq : find_chr json dquote (size pre + 16 + size g)
                = find_chr json dquote (size (Q ++ [lbracket]))).
  { rewrite <- SQ.
    replace (size (Q ++ [lbracket])) with (size Q + 1) by (sizes; ring).
    rewrite Hj at 1 2.
    replace (pre ++ KEY ++ g ++ lbracket :: stop_items_text items
               ++ w_end ++ rbracket :: post)
      with (Q ++ lbracket :: (stop_items_text items ++ w_end ++ rbracket :: post))
      by (unfold Q; repeat (rewrite <- ?app_assoc; cbn [app]); reflexivity).
    apply find_chr_step. discriminate. }
  rewrite Seq.
  rewrite (stop_loop_items json Hs w_end post Hwq _ items (Q ++ [lbracket]) _ fuel).
  - reflexivity.
  - rewrite Hj. unfold Q. repeat (rewrite <- ?app_assoc; cbn [app]). reflexivity.
  - sizes. ring.
  - exact Hitems.
  - exact Hf.
Qed.

Lemma stop_sequences_decoded_witness :
  parse_options_json 4
    (stop_options_text (lit "{") (lit ": ")
       [([], lit "END"); (lit ", ", lit "</s>")] (lit " ") (lit "}")) default_options
  = (with_stop_sequences [lit "END"; lit "</s>"], Ok tt).
Proof.
  apply (stop_sequences_decoded 4 (lit "{") (lit ": ")
           [([], lit "END"); (lit ", ", lit "</s>")] (lit " ") (lit "}") default_options).
  - vm_compute. reflexivity.
  - vm_compute. intros H. repeat (destruct H as [H|H]; [discriminate H|]). exact H.
  - repeat constructor; vm_compute; intros H;
      repeat (destruct H as [H|H]; [discriminate H|]); exact H.
  - vm_compute. intros H. repeat (destruct H as [H|H]; [discriminate H|]). exact H.
  - vm_compute. intros H. repeat (destruct H as [H|H]; [discriminate H|]). exact H.
  - vm_compute. reflexivity.
  - vm_compute. reflexivity.
  - vm_compute. reflexivity.
  - vm_compute. reflexivity.
  - vm_compute. reflexivity.
  - vm_compute. lia.
Defined.

(** * Numbers as JSON texts *)

Section JsonNumbers.

Lemma digit_char_zero (d : Z) : 0 <= d <= 9 -> digit_char d = "0"%char -> d = 0.
Proof.
  intros H E. rewrite <- (digit_char_code d H). rewrite E. reflexivity.
Qed.

Lemma digits_of_pos_canonical (fuel : nat) :
  forall n acc,
    0 <= n -> Z.log2 n < Z.of_nat fuel ->
    exists c t, digits_of_pos fuel n acc = (c :: t) ++ acc
                /\ forallb is_digit (c :: t) = true
                /\ (c = "0"%char -> n = 0 /\ t = []).
Proof.
  induction fuel as [|fuel IH]; intros n acc Hn Hf.
  - pose proof (Z.log2_nonneg n). lia.
  - cbn [digits_of_pos].
    assert (Hd : 0 <= n mod 10 <= 9) by (pose proof (Z.mod_pos_bound n 10); lia).
    destruct (n / 10 =? 0) eqn:E.
    + apply Z.eqb_eq in E. exists (digit_char (n mod 10)), []. split; [reflexivity|].
      split.
      * cbn [forallb]. rewrite digit_char_is_digit by exact Hd. reflexivity.
      * intros Z0. apply digit_char_zero in Z0; [|exact Hd].
        pose proof (Z.div_mod n 10). split; [lia | reflexivity].
    + apply Z.eqb_neq in E.
      assert (H10 : 10 <= n).
      { destruct (Z_lt_le_dec n 10) as [L|L]; [|exact L].
        rewrite Z.div_small in E by lia. congruence. }
      assert (Hq : 0 < n / 10) by (apply Z.div_str_pos; lia).
      assert (Hl : Z.log2 (n / 10) < Z.of_nat fuel).
      { assert (n / 10 <= Z.div2 n)
          by (rewrite Z.div2_div; apply Z.div_le_compat_l; lia).
        assert (Z.log2 (n / 10) <= Z.log2 (Z.div2 n)) by (apply Z.log2_le_mono; assumption).
        assert (Z.log2 (Z.div2 n) = Z.max 0 (Z.log2 n - 1))
          by (rewrite Z.div2_spec; apply Z.log2_shiftr; lia).
        assert (0 < Z.log2 n) by (apply Z.log2_pos; lia).
        lia. }
      destruct (IH (n / 10) (digit_char (n mod 10) :: acc) (Z.lt_le_incl _ _ Hq) Hl)
        as (c & t & E1 & E2 & E3).
      exists c, (t ++ [digit_char (n mod 10)]). split; [|split].
      * rewrite E1. cbn [app]. rewrite <- app_assoc. reflexivity.
      * change (c :: t ++ [digit_char (n mod 10)])
          with ((c :: t) ++ [digit_char (n mod 10)]).
        rewrite forallb_app, E2. cbn [forallb].
        rewrite digit_char_is_digit by exact Hd. reflexivity.
      * intros Z0. destruct (E3 Z0) as [Q _]. lia.
Qed.

Lemma show_unsigned_canonical (n : Z) : 0 <= n -> json_int (show_unsigned n) = true.
Proof.
  intros Hn. unfold show_unsigned.
  destruct (digits_of_pos_canonical (S (Z.to_nat (Z.log2 n))) n [] Hn)
    as (c & t & E & D & Z0).
  - pose proof (Z.log2_nonneg n). lia.
  - rewrite E, app_nil_r. unfold json_int. rewrite D. cbn [andb].
    destruct (Ascii.eqb_spec c "0"%char) as [C|C]; [|reflexivity].
    destruct (Z0 C) as [_ ->]. reflexivity.
Qed.

Lemma skip_digits_run (d rest : str) :
  forallb is_digit d = true ->
  match rest with c :: _ => is_digit c = false | [] => True end ->
  Json.skip_digits (d ++ rest) = rest.
Proof.
  intros Hd Hr. induction d as [|c d IH].
  - cbn [app]. destruct rest as [|x rest]; [reflexivity|].
    cbn [Json.skip_digits]. rewrite Hr. reflexivity.
  - cbn [forallb] in Hd. apply andb_true_iff in Hd. destruct Hd as [Hc Hd].
    cbn [app Json.skip_digits]. rewrite Hc. apply IH. exact Hd.
Qed.

Lemma ends_number_cases (c : ascii) :
  ends_number c = true -> c = ","%char \/ c = rbrace.
Proof.
  unfold ends_number. intros H. apply orb_true_iff in H.
  destruct H as [H|H]; apply Ascii.eqb_eq in H; auto.
Qed.

Lemma is_digit_head (c : ascii) :
  is_digit c = true ->
  Ascii.eqb c "-"%char = false /\ Ascii.eqb c "."%char = false
  /\ Ascii.eqb (to_lower c) "e"%char = false.
Proof.
  intros H. destruct c as [[] [] [] [] [] [] [] []];
    first [discriminate H | repeat split; reflexivity].
Qed.

(** The integral part is read up to the character after it. *)
Lemma int_part_read (c : ascii) (t rest : str) :
  json_int (c :: t) = true ->
  match rest with c :: _ => is_digit c = false | [] => True end ->
  (if Ascii.eqb c "0"%char then Some (t ++ rest) else Json.digits1 (c :: t ++ rest))
  = Some rest.
Proof.
  intros Hi Hr.
  unfold json_int in Hi. apply andb_true_iff in Hi. destruct Hi as [Hd Hz].
  cbn [app]. destruct (Ascii.eqb c "0"%char) eqn:E.
  - cbn [negb orb] in Hz. destruct t; [reflexivity | discriminate].
  - unfold Json.digits1. cbn [forallb] in Hd. apply andb_true_iff in Hd.
    destruct Hd as [Hc Hd]. rewrite Hc. rewrite skip_digits_run by assumption.
    reflexivity.
Qed.

Lemma number_unsigned (ip : str) (c : ascii) (r : str) :
  json_int ip = true -> ends_number c = true ->
  Json.number (ip ++ c :: r) = Some (c :: r).
Proof.
  intros Hi Hc. pose proof Hi as Hi'.
  destruct ip as [|x t]; [discriminate|].
  unfold json_int in Hi'. apply andb_true_iff in Hi'. destruct Hi' as [Hd _].
  cbn [forallb] in Hd. apply andb_true_iff in Hd. destruct Hd as [Hx _].
  destruct (is_digit_head x Hx) as (M & _).
  assert (Hr : is_digit c = false)
    by (destruct (ends_number_cases c Hc) as [->| ->]; reflexivity).
  unfold Json.number. cbn [app]. rewrite M. cbv zeta iota.
  rewrite (int_part_read x t (c :: r) Hi Hr).
  destruct (ends_number_cases c Hc) as [->| ->]; reflexivity.
Qed.

Lemma number_fixed2 (neg : bool) (ip : str) (d1 d2 c : ascii) (r : str) :
  json_int ip = true -> is_digit d1 = true -> is_digit d2 = true ->
  ends_number c = true ->
  Json.number (sign_text neg ++ ip ++ lit "." ++ [d1; d2] ++ c :: r) = Some (c :: r).
Proof.
  intros Hi H1 H2 Hc. pose proof Hi as Hi'.
  destruct ip as [|x t]; [discriminate|].
  unfold json_int in Hi'. apply andb_true_iff in Hi'. destruct Hi' as [Hd _].
  cbn [forallb] in Hd. apply andb_true_iff in Hd. destruct Hd as [Hx _].
  destruct (is_digit_head x Hx) as (M & _).
  assert (Hr : is_digit c = false)
    by (destruct (ends_number_cases c Hc) as [->| ->]; reflexivity).
  assert (G : Json.number ((x :: t) ++ lit "." ++ [d1; d2] ++ c :: r) = Some (c :: r)).
  { unfold Json.number. cbn [app lit list_ascii_of_string]. rewrite M. cbv zeta iota.
    rewrite (int_part_read x t ("."%char :: d1 :: d2 :: c :: r) Hi eq_refl).
    change (Ascii.eqb "."%char "."%char) with true. cbv iota.
    unfold Json.digits1. rewrite H1. cbn [Json.skip_digits]. rewrite H2, Hr.
    destruct (ends_number_cases c Hc) as [->| ->]; reflexivity. }
  destruct neg; [|exact G].
  unfold Json.number in *. cbn [sign_text lit list_ascii_of_string app] in *.
  rewrite M in G. exact G.
Qed.

(** A finite number written with two decimals is a sign, an integral
    part and two digits. *)
Lemma show_fixed2_shape (x : spec_float) :
  is_finite x = true ->
  exists neg ip d1 d2,
    show_fixed2 x = sign_text neg ++ ip ++ lit "." ++ [d1; d2]
    /\ json_int ip = true /\ is_digit d1 = true /\ is_digit d2 = true.
Proof.
  destruct x as [s|s| |s m e]; try discriminate; intros _.
  - exists s, (lit "0"), "0"%char, "0"%char. repeat split.
  - destruct (hundredths_spec m e) as [H0 _].
    set (h := hundredths m e) in *.
    assert (Hq : 0 <= h / 100) by (apply Z.div_pos; lia).
    assert (D1 : 0 <= h / 10 mod 10 <= 9)
      by (pose proof (Z.mod_pos_bound (h / 10) 10); lia).
    assert (D2 : 0 <= h mod 10 <= 9) by (pose proof (Z.mod_pos_bound h 10); lia).
    exists s, (show_unsigned (h / 100)), (digit_char (h / 10 mod 10)),
      (digit_char (h mod 10)).
    split; [reflexivity|]. split; [apply show_unsigned_canonical; exact Hq|].
    split; apply digit_char_is_digit; assumption.
Qed.

Lemma value_number (n : nat) (c : ascii) (r : str) :
  is_digit c = true \/ c = "-"%char ->
  Json.value (S n) (c :: r) = Json.number (c :: r).
Proof.
  intros [H| ->]; [|reflexivity].
  destruct c as [[] [] [] [] [] [] [] []]; first [discriminate H | reflexivity].
Qed.

End JsonNumbers.

(** * The encoded result as a JSON text *)

Section JsonValues.

Lemma value_unfold (n : nat) (s : str) :
  Json.value (S n) s
  = match Json.skip_ws s with
    | c :: r =>
        if Ascii.eqb c dquote then Json.string_rest r
        else if Ascii.eqb c lbrace then
          match Json.skip_ws r with
          | c2 :: r2 =>
              if Ascii.eqb c2 rbrace then Some r2
              else json_members (Json.value n) (List.length r) r
          | [] => None
          end
        else if Ascii.eqb c lbracket then
          match Json.skip_ws r with
          | c2 :: r2 =>
              if Ascii.eqb c2 rbracket then Some r2
              else json_elements (Json.value n) (List.length r) r
          | [] => None
          end
        else if starts_with (lit "true") (c :: r) then Some (skipn 4 (c :: r))
        else if starts_with (lit "false") (c :: r) then Some (skipn 5 (c :: r))
        else if starts_with (lit "null") (c :: r) then Some (skipn 4 (c :: r))
        else Json.number (c :: r)
    | [] => None
    end.
Proof. reflexivity. Qed.

(** A text that is read as a value starts, after blanks, with a
    character that is no closing bracket. *)
Lemma value_head (n : nat) (s r : str) :
  Json.value n s = Some r ->
  exists c2 r2, Json.skip_ws s = c2 :: r2 /\ Ascii.eqb c2 rbracket = false.
Proof.
  destruct n as [|n]; [discriminate|]. rewrite value_unfold.
  destruct (Json.skip_ws s) as [|c2 r2]; [discriminate|]. intros H.
  exists c2, r2. split; [reflexivity|].
  destruct (Ascii.eqb_spec c2 rbracket) as [->|]; [discriminate H | reflexivity].
Qed.

Lemma value_unsigned (n : nat) (p : Z) (c : ascii) (r : str) :
  0 <= p -> ends_number c = true ->
  Json.value (S n) (show_unsigned p ++ c :: r) = Some (c :: r).
Proof.
  intros Hp Hc. pose proof (show_unsigned_canonical p Hp) as J.
  destruct (show_unsigned p) as [|x t] eqn:E; [discriminate J|].
  pose proof J as J'. unfold json_int in J'. apply andb_true_iff in J'.
  destruct J' as [D _]. cbn [forallb] in D. apply andb_true_iff in D.
  destruct D as [Hx _]. cbn [app]. rewrite value_number by (left; exact Hx).
  apply (number_unsigned (x :: t) c r J Hc).
Qed.

Lemma value_fixed2 (n : nat) (x : spec_float) (c : ascii) (r : str) :
  is_finite x = true -> ends_number c = true ->
  Json.value (S n) (show_fixed2 x ++ c :: r) = Some (c :: r).
Proof.
  intros Hx Hc. destruct (show_fixed2_shape x Hx) as (neg & ip & d1 & d2 & E & J & H1 & H2).
  rewrite E. repeat rewrite <- app_assoc.
  rewrite <- (number_fixed2 neg ip d1 d2 c r J H1 H2 Hc).
  destruct neg.
  - cbn [sign_text lit list_ascii_of_string app]. apply value_number. right. reflexivity.
  - destruct ip as [|y t]; [discriminate J|].
    unfold json_int in J. apply andb_true_iff in J. destruct J as [D _].
    cbn [forallb] in D. apply andb_true_iff in D. destruct D as [Hy _].
    cbn [sign_text app]. apply value_number. left. exact Hy.
Qed.

(** The elements of an array of values, with commas in between. *)
Lemma elements_join (n : nat) (calls : list str) :
  forall k rest,
    calls <> [] -> Forall json_value_text calls ->
    Forall (fun call => (List.length call <= n)%nat) calls ->
    (List.length calls <= k)%nat ->
    json_elements (Json.value n) k (join (lit ",") calls ++ rbracket :: rest) = Some rest.
Proof.
  induction calls as [|c1 calls IH]; intros k rest Hne Hv Hl Hk; [congruence|].
  destruct k as [|k]; [simpl in Hk; lia|].
  pose proof (Forall_inv Hv) as V1. pose proof (Forall_inv Hl) as L1.
  destruct calls as [|c2 calls].
  - cbn [join json_elements]. rewrite (V1 n _ L1).
    rewrite skip_ws_here by reflexivity. reflexivity.
  - change (join (lit ",") (c1 :: c2 :: calls))
      with (c1 ++ lit "," ++ join (lit ",") (c2 :: calls)).
    cbn [json_elements]. repeat rewrite <- app_assoc.
    rewrite (V1 n _ L1). cbn [lit list_ascii_of_string app].
    rewrite skip_ws_here by reflexivity.
    change (Ascii.eqb ","%char ","%char) with true. cbv iota.
    apply IH; [discriminate | exact (Forall_inv_tail Hv) | exact (Forall_inv_tail Hl)
              | simpl in Hk |- *; lia].
Qed.

Lemma value_array_of (n : nat) (calls : list str) (rest : str) :
  calls <> [] -> Forall json_value_text calls ->
  Forall (fun call => (List.length call <= n)%nat) calls ->
  Json.value (S n) (lbracket :: join (lit ",") calls ++ rbracket :: rest) = Some rest.
Proof.
  intros Hne Hv Hl. rewrite value_array.
  destruct calls as [|c1 calls]; [congruence|].
  assert (H1 : exists X, join (lit ",") (c1 :: calls) ++ rbracket :: rest = c1 ++ X).
  { destruct calls as [|c2 calls].
    - eexists. reflexivity.
    - change (join (lit ",") (c1 :: c2 :: calls))
        with (c1 ++ lit "," ++ join (lit ",") (c2 :: calls)).
      rewrite <- app_assoc. eexists. reflexivity. }
  destruct H1 as [X HX].
  pose proof (Forall_inv Hv n X (Forall_inv Hl)) as V.
  destruct (value_head n _ _ V) as (c2 & r2 & S2 & Nb).
  rewrite <- HX in S2. rewrite S2, Nb.
  apply elements_join; try assumption.
  rewrite length_app. cbn [List.length].
  assert (List.length calls <= List.length (join (lit ",") (c1 :: calls)))%nat.
  { clear. revert c1. induction calls as [|c2 calls IH]; intros c1; [simpl; lia|].
    change (join (lit ",") (c1 :: c2 :: calls))
      with (c1 ++ lit "," ++ join (lit ",") (c2 :: calls)).
    rewrite !length_app. specialize (IH c2).
    change (List.length (lit ",")) with 1%nat. cbn [List.length]. lia. }
  lia.
Qed.

Lemma join_covers (call : str) (calls : list str) :
  In call calls -> (List.length call <= List.length (join (lit ",") calls))%nat.
Proof.
  induction calls as [|c1 calls IH]; [intros []|]. intros H.
  destruct calls as [|c2 calls].
  - destruct H as [->|[]]. cbn [join]. lia.
  - change (join (lit ",") (c1 :: c2 :: calls))
      with (c1 ++ lit "," ++ join (lit ",") (c2 :: calls)).
    rewrite !length_app. destruct H as [->|H]; [lia|]. specialize (IH H). lia.
Qed.

Lemma metrics_members (n k : nat) (t1 t2 t3 : spec_float) (p c total : Z) :
  is_finite t1 = true -> is_finite t2 = true -> is_finite t3 = true ->
  0 <= p -> 0 <= c -> 0 <= total ->
  json_members (Json.value (S n)) (6 + k)
    (metrics_text (show_fixed2 t1) (show_fixed2 t2) (show_fixed2 t3)
       (show_unsigned p) (show_unsigned c) (show_unsigned total))
  = Some [].
Proof.
  intros F1 F2 F3 Hp Hc Ht. unfold metrics_text. cbn [Nat.add].
  do 3 (erewrite json_members_step;
        [ | reflexivity | apply value_fixed2; [assumption | reflexivity]
          | apply skip_ws_here; reflexivity ];
        change (Ascii.eqb ","%char ","%char) with true; cbv iota).
  do 2 (erewrite json_members_step;
        [ | reflexivity | apply value_unsigned; [assumption | reflexivity]
          | apply skip_ws_here; reflexivity ];
        change (Ascii.eqb ","%char ","%char) with true; cbv iota).
  erewrite json_members_step;
    [ | reflexivity | apply value_unsigned; [assumption | reflexivity]
      | apply skip_ws_here; reflexivity ].
  reflexivity.
Qed.

Lemma response_text_no_call (rr : str) (t1 t2 t3 : spec_float) (p c : Z) :
  construct_response_json rr [] t1 t2 t3 p c
  = lbrace :: quoted (lit "success") ++ colon :: (lit "true" ++ ","%char ::
      (quoted (lit "response") ++ colon :: (dquote :: List.concat (map escape_char rr)
         ++ dquote :: ","%char ::
         metrics_text (show_fixed2 t1) (show_fixed2 t2) (show_fixed2 t3)
           (show_unsigned p) (show_unsigned c) (show_unsigned (wrap (p + c)))))).
Proof.
  unfold construct_response_json, metrics_text, quoted.
  cbn [lit list_ascii_of_string].
  repeat (rewrite <- ?app_assoc; cbn [app]). reflexivity.
Qed.

Lemma response_text_calls (rr : str) (call : str) (calls : list str)
  (t1 t2 t3 : spec_float) (p c : Z) :
  construct_response_json rr (call :: calls) t1 t2 t3 p c
  = lbrace :: quoted (lit "success") ++ colon :: (lit "true" ++ ","%char ::
      (quoted (lit "response") ++ colon :: (dquote :: List.concat (map escape_char rr)
         ++ dquote :: ","%char ::
         (quoted (lit "function_calls") ++ colon ::
            (lbracket :: write_calls (call :: calls) 0 [] ++ rbracket :: ","%char ::
               metrics_text (show_fixed2 t1) (show_fixed2 t2) (show_fixed2 t3)
                 (show_unsigned p) (show_unsigned c) (show_unsigned (wrap (p + c)))))))).
Proof.
  unfold construct_response_json, metrics_text, quoted.
  cbn [lit list_ascii_of_string].
  repeat (rewrite <- ?app_assoc; cbn [app]). reflexivity.
Qed.

End JsonValues.

Section ResponseValue.

Ltac lengths := repeat (rewrite ?length_app; cbn [List.length]).

Lemma response_value (n : nat) (rr : str) (calls : list str)
  (t1 t2 t3 : spec_float) (p c : Z) :
  forallb encodable rr = true ->
  Forall json_value_text calls ->
  Forall (fun call => (List.length call <= n)%nat) calls ->
  Z.of_nat (List.length calls) < size_modulus ->
  is_finite t1 = true -> is_finite t2 = true -> is_finite t3 = true ->
  0 <= p -> 0 <= c ->
  Json.value (S (S n)) (construct_response_json rr calls t1 t2 t3 p c) = Some [].
Proof.
  intros He Hv Hl Hn F1 F2 F3 Hp Hc.
  assert (Hw : 0 <= wrap (p + c)) by apply wrap_nonneg.
  destruct calls as [|call calls].
  - rewrite response_text_no_call, value_object, skip_ws_quoted.
    change (Ascii.eqb dquote rbrace) with false. cbv iota.
    set (L := List.length _).
    assert (HL : exists k, L = (8 + k)%nat).
    { exists (L - 8)%nat. subst L. rewrite length_app.
      change (List.length (quoted (lit "success"))) with 9%nat. lia. }
    destruct HL as [k ->]. cbn [Nat.add].
    erewrite json_members_step;
      [ | reflexivity | apply value_true | apply skip_ws_here; reflexivity ].
    change (Ascii.eqb ","%char ","%char) with true. cbv iota.
    erewrite json_members_step;
      [ | reflexivity
        | rewrite value_string, string_rest_escaped, He; reflexivity
        | apply skip_ws_here; reflexivity ].
    change (Ascii.eqb ","%char ","%char) with true. cbv iota.
    apply (metrics_members n k); assumption.
  - rewrite response_text_calls, value_object, skip_ws_quoted.
    change (Ascii.eqb dquote rbrace) with false. cbv iota.
    set (L := List.length _).
    assert (HL : exists k, L = (9 + k)%nat).
    { exists (L - 9)%nat. subst L. rewrite length_app.
      change (List.length (quoted (lit "success"))) with 9%nat. lia. }
    destruct HL as [k ->]. cbn [Nat.add].
    erewrite json_members_step;
      [ | reflexivity | apply value_true | apply skip_ws_here; reflexivity ].
    change (Ascii.eqb ","%char ","%char) with true. cbv iota.
    erewrite json_members_step;
      [ | reflexivity
        | rewrite value_string, string_rest_escaped, He; reflexivity
        | apply skip_ws_here; reflexivity ].
    change (Ascii.eqb ","%char ","%char) with true. cbv iota.
    rewrite write_calls_join by exact Hn.
    erewrite json_members_step;
      [ | reflexivity
        | apply value_array_of; [discriminate | exact Hv | exact Hl]
        | apply skip_ws_here; reflexivity ].
    change (Ascii.eqb ","%char ","%char) with true. cbv iota.
    apply (metrics_members n k); assumption.
Qed.

Lemma response_longer_than_calls (rr : str) (calls : list str)
  (t1 t2 t3 : spec_float) (p c : Z) (call : str) :
  Z.of_nat (List.length calls) < size_modulus ->
  In call calls ->
  (List.length call + 2
   <= List.length (construct_response_json rr calls t1 t2 t3 p c))%nat.
Proof.
  intros Hn Hin. destruct calls as [|c1 calls]; [destruct Hin|].
  rewrite response_text_calls, write_calls_join by exact Hn.
  pose proof (join_covers call (c1 :: calls) Hin) as J.
  lengths. lia.
Qed.

Lemma ex_call_value : json_value_text ex_call.
Proof.
  intros n rest Hn. change (List.length ex_call) with 12%nat in Hn.
  destruct n as [|[|n]]; [lia | lia |].
  change (ex_call ++ rest)
    with (lbrace :: quoted (lit "name") ++ colon :: (dquote :: lit "f" ++ dquote :: rbrace :: rest)).
  rewrite value_object, skip_ws_quoted.
  change (Ascii.eqb dquote rbrace) with false. cbv iota.
  set (L := List.length _).
  assert (HL : exists k, L = S k) by (subst L; cbn [List.length quoted app]; eauto).
  destruct HL as [k ->].
  erewrite json_members_step;
    [ | reflexivity
      | rewrite value_string; apply string_rest_plain; reflexivity
      | apply skip_ws_here; reflexivity ].
  reflexivity.
Qed.

End ResponseValue.

(** X13. The text [construct_response_json] returns is a syntactically
    valid JSON object when the response text holds no control character
    other than line break, carriage return and tab, every entry of the
    call list is the text of a JSON value, and the three timing metrics
    are finite. The function checks none of this: an infinite metric is
    written as [inf], and an entry of the call list as it is, and the
    text is then no JSON. *)
Theorem response_json_valid (regular_response : str) (function_calls : list str)
  (time_to_first_token total_time_ms tokens_per_second : spec_float)
  (prompt_tokens completion_tokens : Z) :
  forallb encodable regular_response = true ->
  Forall json_value_text function_calls ->
  Z.of_nat (List.length function_calls) < size_modulus ->
  is_finite time_to_first_token = true ->
  is_finite total_time_ms = true ->
  is_finite tokens_per_second = true ->
  0 <= prompt_tokens -> 0 <= completion_tokens ->
  Json.is_object
    (construct_response_json regular_response function_calls time_to_first_token
       total_time_ms tokens_per_second prompt_tokens completion_tokens) = true
  /\ Json.valid
       (construct_response_json (lit "ok") [] (S754_zero false) (S754_zero false)
          (S754_infinity false) 1 1) = false
  /\ Json.valid
       (construct_response_json (lit "ok") [lit "{"] (S754_zero false) (S754_zero false)
          (S754_zero false) 1 1) = false.
Proof.
  intros He Hv Hn F1 F2 F3 Hp Hc.
  split; [|split; vm_compute; reflexivity].
  set (s := construct_response_json _ _ _ _ _ _ _).
  assert (Hs : exists r, s = lbrace :: r).
  { subst s. destruct function_calls;
      [rewrite response_text_no_call | rewrite response_text_calls]; eauto. }
  destruct Hs as [r Hr].
  unfold Json.is_object. apply andb_true_iff. split.
  - unfold Json.valid.
    assert (Hl : exists n, List.length s = S n
                           /\ Forall (fun call => (List.length call <= n)%nat) function_calls).
    { exists (List.length r). split; [rewrite Hr; reflexivity|].
      apply Forall_forall. intros call Hin.
      pose proof (response_longer_than_calls regular_response function_calls
                    time_to_first_token total_time_ms tokens_per_second
                    prompt_tokens completion_tokens call Hn Hin) as L.
      fold s in L. rewrite Hr in L. cbn [List.length] in L. lia. }
    destruct Hl as (n & -> & Hl). subst s.
    rewrite response_value by assumption. reflexivity.
  - rewrite Hr. reflexivity.
Qed.

Lemma response_json_valid_witness :
  Json.is_object
    (construct_response_json (jq "calling `f`") [ex_call]
       (double_of_decimal false 123456 (-4)) (double_of_decimal false 1000 (-1))
       (double_of_decimal false 9999 (-3)) 5 7) = true.
Proof.
  apply (response_json_valid (jq "calling `f`") [ex_call]
           (double_of_decimal false 123456 (-4)) (double_of_decimal false 1000 (-1))
           (double_of_decimal false 9999 (-3)) 5 7).
  - vm_compute. reflexivity.
  - constructor; [exact ex_call_value | constructor].
  - vm_compute. reflexivity.
  - vm_compute. reflexivity.
  - vm_compute. reflexivity.
  - vm_compute. reflexivity.
  - lia.
  - lia.
Defined.

(** * The formatted tools as JSON texts *)

Section JsonBlanks.

Lemma value_ws_cons (n : nat) (c : ascii) (s : str) :
  Json.is_ws c = true -> Json.value n (c :: s) = Json.value n s.
Proof.
  intros H. destruct n as [|n]; [reflexivity|]. rewrite !value_unfold.
  cbn [Json.skip_ws]. rewrite H. reflexivity.
Qed.

Lemma value_object_members (n : nat) (s r : str) (c2 : ascii) (r2 : str) :
  Json.skip_ws s = lbrace :: r -> Json.skip_ws r = c2 :: r2 ->
  Ascii.eqb c2 rbrace = false ->
  Json.value (S n) s = json_members (Json.value n) (List.length r) r.
Proof.
  intros H1 H2 H3. rewrite value_unfold, H1.
  change (Ascii.eqb lbrace dquote) with false.
  change (Ascii.eqb lbrace lbrace) with true. cbv iota.
  rewrite H2, H3. reflexivity.
Qed.

Lemma value_plain_string (n : nat) (s m rest : str) :
  Json.skip_ws s = dquote :: m ++ dquote :: rest ->
  forallb plain_char m = true ->
  Json.value (S n) s = Some rest.
Proof.
  intros H1 H2. rewrite value_unfold, H1.
  change (Ascii.eqb dquote dquote) with true. cbv iota.
  apply string_rest_plain. exact H2.
Qed.

(** One member, blanks allowed around the key, the colon and the
    value. *)
Lemma json_members_ws (v : str -> option str) (k : nat)
  (s key r1 text r3 : str) (d : ascii) (r4 : str) :
  Json.skip_ws s = quoted key ++ r1 ->
  forallb plain_char key = true ->
  Json.skip_ws r1 = colon :: text ->
  v text = Some r3 -> Json.skip_ws r3 = d :: r4 ->
  json_members v (S k) s
  = if Ascii.eqb d ","%char then json_members v k r4
    else if Ascii.eqb d rbrace then Some r4 else None.
Proof.
  intros Hs Hk Hc Hv Hd. cbn [json_members]. rewrite Hs. unfold quoted. cbn [app].
  change (Ascii.eqb dquote dquote) with true. cbv iota.
  rewrite <- app_assoc. cbn [app]. rewrite string_rest_plain by exact Hk.
  rewrite Hc. change (Ascii.eqb colon colon) with true. cbv iota.
  rewrite Hv, Hd. reflexivity.
Qed.

End JsonBlanks.

Section ToolText.

Ltac nat_lengths := repeat (rewrite ?length_app; cbn [List.length]).

Ltac comma := change (Ascii.eqb ","%char ","%char) with true; cbv iota.
Ltac closing := change (Ascii.eqb rbrace ","%char) with false;
                change (Ascii.eqb rbrace rbrace) with true; cbv iota.

Variable t : ToolFunction.
Hypothesis t_plain : plain_tool t.

Lemma format_tool_schema_fits (schema : str) :
  smap_find (parameters t) SCHEMA = Some schema ->
  (List.length schema + 3 <= List.length (format_tool 0 t))%nat.
Proof.
  intros E. unfold format_tool. rewrite E. nat_lengths. lia.
Qed.

Lemma format_tool_long : (3 <= List.length (format_tool 0 t))%nat.
Proof. unfold format_tool. nat_lengths. lia. Qed.

Lemma format_tool_value : json_value_text (format_tool 0 t).
Proof.
  destruct t_plain as (Hn & Hd & Hs).
  intros n rest Hlen. pose proof format_tool_long as H3.
  destruct n as [|[|[|n]]]; try lia.
  destruct (smap_find (parameters t) SCHEMA) as [schema|] eqn:E.
  - pose proof (format_tool_schema_fits schema E) as Hfit.
    assert (Hsch : (List.length schema <= S n)%nat) by lia.
    unfold format_tool. rewrite E.
    change (0 <? 0) with false. cbv iota.
    unfold quoted. cbn [lit list_ascii_of_string].
    repeat (rewrite <- ?app_assoc; cbn [app]).
    erewrite value_object_members; [ | reflexivity | reflexivity | reflexivity ].
    set (L := List.length _).
    assert (HL : exists k, L = S (S k)) by (subst L; cbn [List.length]; eauto).
    destruct HL as [k ->].
    erewrite (json_members_ws _ _ _ (lit "type"));
      [ | reflexivity | reflexivity | reflexivity
        | apply (value_plain_string _ _ (lit "function")); reflexivity
        | reflexivity ].
    comma.
    erewrite (json_members_ws _ _ _ (lit "function"));
      [ | reflexivity | reflexivity | reflexivity | | ].
    2: { erewrite value_object_members; [ | reflexivity | reflexivity | reflexivity ].
         set (L := List.length _).
         assert (HL : exists j, L = S (S (S j))) by (subst L; cbn [List.length]; eauto).
         destruct HL as [j ->].
         erewrite (json_members_ws _ _ _ (lit "name"));
           [ | reflexivity | reflexivity | reflexivity
             | apply (value_plain_string _ _ (name t)); [reflexivity | exact Hn]
             | reflexivity ].
         comma.
         erewrite (json_members_ws _ _ _ (lit "description"));
           [ | reflexivity | reflexivity | reflexivity
             | apply (value_plain_string _ _ (description t)); [reflexivity | exact Hd]
             | reflexivity ].
         comma.
         erewrite (json_members_ws _ _ _ (lit "parameters"));
           [ | reflexivity | reflexivity | reflexivity
             | rewrite value_ws_cons by reflexivity; apply (Hs _ _ Hsch)
             | reflexivity ].
         closing. reflexivity. }
    2: reflexivity.
    closing. reflexivity.
  - unfold format_tool. rewrite E.
    change (0 <? 0) with false. cbv iota.
    unfold quoted. cbn [lit list_ascii_of_string].
    repeat (rewrite <- ?app_assoc; cbn [app]).
    erewrite value_object_members; [ | reflexivity | reflexivity | reflexivity ].
    set (L := List.length _).
    assert (HL : exists k, L = S (S k)) by (subst L; cbn [List.length]; eauto).
    destruct HL as [k ->].
    erewrite (json_members_ws _ _ _ (lit "type"));
      [ | reflexivity | reflexivity | reflexivity
        | apply (value_plain_string _ _ (lit "function")); reflexivity
        | reflexivity ].
    comma.
    erewrite (json_members_ws _ _ _ (lit "function"));
      [ | reflexivity | reflexivity | reflexivity | | ].
    2: { erewrite value_object_members; [ | reflexivity | reflexivity | reflexivity ].
         set (L := List.length _).
         assert (HL : exists j, L = S (S j)) by (subst L; cbn [List.length]; eauto).
         destruct HL as [j ->].
         erewrite (json_members_ws _ _ _ (lit "name"));
           [ | reflexivity | reflexivity | reflexivity
             | apply (value_plain_string _ _ (name t)); [reflexivity | exact Hn]
             | reflexivity ].
         comma.
         erewrite (json_members_ws _ _ _ (lit "description"));
           [ | reflexivity | reflexivity | reflexivity
             | apply (value_plain_string _ _ (description t)); [reflexivity | exact Hd]
             | reflexivity ].
         closing. reflexivity. }
    2: reflexivity.
    closing. reflexivity.
Qed.

End ToolText.

Section ToolArray.

Lemma value_ws_app (n : nat) (w s : str) :
  forallb Json.is_ws w = true -> Json.value n (w ++ s) = Json.value n s.
Proof.
  induction w as [|c w IH]; intros H; [reflexivity|].
  cbn [forallb] in H. apply andb_true_iff in H. destruct H as [Hc H].
  cbn [app]. rewrite value_ws_cons by exact Hc. apply IH. exact H.
Qed.

Lemma elements_ws (n k : nat) (w s : str) :
  forallb Json.is_ws w = true ->
  json_elements (Json.value n) k (w ++ s) = json_elements (Json.value n) k s.
Proof.
  intros H. destruct k as [|k]; [reflexivity|]. cbn [json_elements].
  rewrite value_ws_app by exact H. reflexivity.
Qed.

Lemma join_step (sep v1 v2 : str) (vs : list str) :
  join sep (v1 :: v2 :: vs) = v1 ++ sep ++ join sep (v2 :: vs).
Proof. reflexivity. Qed.

Lemma elements_join_sep (n : nat) (w : str) (vs : list str) :
  forallb Json.is_ws w = true ->
  forall k rest,
    vs <> [] -> Forall json_value_text vs ->
    Forall (fun v => (List.length v <= n)%nat) vs ->
    (List.length vs <= k)%nat ->
    json_elements (Json.value n) k (join (","%char :: w) vs ++ rbracket :: rest)
    = Some rest.
Proof.
  intros Hw. induction vs as [|v1 vs IH]; intros k rest Hne Hv Hl Hk; [congruence|].
  destruct k as [|k]; [simpl in Hk; lia|].
  pose proof (Forall_inv Hv) as V1. pose proof (Forall_inv Hl) as L1.
  destruct vs as [|v2 vs].
  - cbn [join json_elements]. rewrite (V1 n _ L1).
    rewrite skip_ws_here by reflexivity. reflexivity.
  - rewrite join_step. cbn [json_elements]. repeat rewrite <- app_assoc.
    rewrite (V1 n _ L1). cbn [app].
    rewrite skip_ws_here by reflexivity.
    change (Ascii.eqb ","%char ","%char) with true. cbv iota.
    rewrite elements_ws by exact Hw.
    apply IH; [discriminate | exact (Forall_inv_tail Hv) | exact (Forall_inv_tail Hl)
              | simpl in Hk |- *; lia].
Qed.

Lemma join_sep_covers (sep v : str) (vs : list str) :
  In v vs -> (List.length v <= List.length (join sep vs))%nat.
Proof.
  induction vs as [|v1 vs IH]; [intros []|]. intros H.
  destruct vs as [|v2 vs].
  - destruct H as [->|[]]. cbn [join]. lia.
  - rewrite join_step, !length_app. destruct H as [->|H]; [lia|].
    specialize (IH H). lia.
Qed.

Lemma join_sep_long (sep : str) (vs : list str) :
  sep <> [] -> (List.length vs <= S (List.length (join sep vs)))%nat.
Proof.
  intros Hs. induction vs as [|v1 vs IH]; [simpl; lia|].
  destruct vs as [|v2 vs]; [simpl; lia|].
  rewrite join_step, !length_app.
  assert (1 <= List.length sep)%nat by (destruct sep; [congruence | simpl; lia]).
  cbn [List.length] in *. lia.
Qed.

Lemma array_of_values (w : str) (vs : list str) :
  forallb Json.is_ws w = true -> Forall json_value_text vs ->
  Json.is_array (lbracket :: join (","%char :: w) vs ++ [rbracket]) = true.
Proof.
  intros Hw Hv. unfold Json.is_array. apply andb_true_iff. split; [|reflexivity].
  unfold Json.valid. destruct vs as [|v1 vs]; [reflexivity|].
  set (T := join (","%char :: w) (v1 :: vs) ++ [rbracket]).
  cbn [List.length]. rewrite value_array.
  assert (H1 : exists X, T = v1 ++ X).
  { unfold T. destruct vs as [|v2 vs].
    - eexists. reflexivity.
    - rewrite join_step, <- app_assoc. eexists. reflexivity. }
  destruct H1 as [X HX].
  assert (Hl : Forall (fun v => (List.length v <= S (List.length T))%nat) (v1 :: vs)).
  { apply Forall_forall. intros v Hin. unfold T. rewrite length_app.
    pose proof (join_sep_covers (","%char :: w) v (v1 :: vs) Hin). lia. }
  pose proof (Forall_inv Hv (S (List.length T)) X (Forall_inv Hl)) as V.
  destruct (value_head _ _ _ V) as (c2 & r2 & S2 & Nb).
  rewrite <- HX in S2. rewrite S2, Nb.
  assert (E : json_elements (Json.value (S (List.length T))) (List.length T)
                (join (","%char :: w) (v1 :: vs) ++ rbracket :: []) = Some []).
  { apply elements_join_sep; try assumption; [discriminate|].
    pose proof (join_sep_long (","%char :: w) (v1 :: vs) ltac:(discriminate)).
    unfold T. rewrite length_app. cbn [List.length] in *. lia. }
  fold T in E. rewrite E. reflexivity.
Qed.

End ToolArray.

Lemma ex_tool_plain : plain_tool ex_tool.
Proof.
  split; [reflexivity|]. split; [reflexivity|].
  change (smap_find (parameters ex_tool) SCHEMA) with (Some ex_schema).
  intros n rest Hn. change (List.length ex_schema) with 54%nat in Hn.
  do 4 (destruct n as [|n]; [lia|]).
  assert (V3 : forall r,
             Json.value (S (S n)) (lbrace :: quoted (lit "type") ++ colon ::
                                     (quoted (lit "string") ++ rbrace :: r)) = Some r).
  { intros r. rewrite value_object, skip_ws_quoted.
    change (Ascii.eqb dquote rbrace) with false. cbv iota.
    set (L := List.length _).
    assert (HL : exists i, L = S i)
      by (subst L; cbn [List.length quoted app lit list_ascii_of_string]; eauto).
    destruct HL as [i ->].
    erewrite json_members_step;
      [ | reflexivity
        | apply (value_plain_string _ _ (lit "string")); reflexivity
        | apply skip_ws_here; reflexivity ].
    reflexivity. }
  assert (V2 : forall r,
             Json.value (S (S (S n)))
               (lbrace :: quoted (lit "x") ++ colon ::
                  (lbrace :: quoted (lit "type") ++ colon ::
                     (quoted (lit "string") ++ rbrace :: rbrace :: r))) = Some r).
  { intros r. rewrite value_object, skip_ws_quoted.
    change (Ascii.eqb dquote rbrace) with false. cbv iota.
    set (L := List.length _).
    assert (HL : exists j, L = S j)
      by (subst L; cbn [List.length quoted app lit list_ascii_of_string]; eauto).
    destruct HL as [j ->].
    erewrite json_members_step;
      [ | reflexivity | apply V3 | apply skip_ws_here; reflexivity ].
    reflexivity. }
  change (ex_schema ++ rest)
    with (lbrace :: quoted (lit "type") ++ colon ::
            (quoted (lit "object") ++ ","%char ::
               (quoted (lit "properties") ++ colon ::
                  (lbrace :: quoted (lit "x") ++ colon ::
                     (lbrace :: quoted (lit "type") ++ colon ::
                        (quoted (lit "string") ++ rbrace :: rbrace :: rbrace :: rest)))))).
  rewrite value_object, skip_ws_quoted.
  change (Ascii.eqb dquote rbrace) with false. cbv iota.
  set (L := List.length _).
  assert (HL : exists k, L = S (S k))
    by (subst L; cbn [List.length quoted app lit list_ascii_of_string]; eauto).
  destruct HL as [k ->].
  erewrite json_members_step;
    [ | reflexivity
      | apply (value_plain_string _ _ (lit "object")); reflexivity
      | apply skip_ws_here; reflexivity ].
  change (Ascii.eqb ","%char ","%char) with true. cbv iota.
  erewrite json_members_step;
    [ | reflexivity | apply V2 | apply skip_ws_here; reflexivity ].
  reflexivity.
Qed.



(** * Reading back the formatted tools *)

Section SearchFacts.

Lemma starts_with_quoted_neq (key k rest : str) :
  ~ In dquote key -> ~ In dquote k -> k <> key ->
  starts_with (quoted key) (dquote :: k ++ dquote :: rest) = false.
Proof.
  intros Hkey Hk Hne. unfold quoted. cbn [starts_with]. rewrite Ascii.eqb_refl. cbn [andb].
  revert k Hk Hne. induction key as [|y key IH]; intros k Hk Hne.
  - destruct k as [|x k]; [congruence|]. cbn [app starts_with].
    destruct (Ascii.eqb_spec dquote x) as [E|_]; [|reflexivity].
    exfalso. apply Hk. left. symmetry. exact E.
  - destruct k as [|x k]; cbn [app starts_with].
    + destruct (Ascii.eqb_spec y dquote) as [E|_]; [|reflexivity].
      exfalso. apply Hkey. left. exact E.
    + destruct (Ascii.eqb_spec y x) as [->|_]; [|reflexivity]. cbn [andb].
      apply IH.
      * intros X. apply Hkey. right. exact X.
      * intros X. apply Hk. right. exact X.
      * congruence.
Qed.

Lemma starts_with_longer (p a b : str) :
  starts_with p a = true -> starts_with p (a ++ b) = true.
Proof.
  revert a. induction p as [|x p IH]; intros a H; [reflexivity|].
  destruct a as [|y a]; [discriminate|]. cbn [app starts_with] in *.
  apply andb_true_iff in H. destruct H as [H1 H2]. rewrite H1. cbn [andb].
  apply IH. exact H2.
Qed.

Lemma index_of_None_prefix (p a b : str) :
  index_of p (a ++ b) = None -> index_of p a = None.
Proof.
  induction a as [|x a IH]; intros H.
  - destruct p as [|c p]; [destruct b; discriminate H | reflexivity].
  - cbn [app] in H. cbn [index_of] in *.
    destruct (starts_with p (x :: a ++ b)) eqn:S1; [discriminate|].
    destruct (starts_with p (x :: a)) eqn:S2.
    + apply (starts_with_longer p (x :: a) b) in S2. cbn [app] in S2. congruence.
    + destruct (index_of p (a ++ b)) eqn:I; [discriminate|].
      rewrite IH by reflexivity. reflexivity.
Qed.

Lemma closes_last (body : str) :
  forall d, 0 < d -> closes_at_end d body = true -> exists b, body = b ++ [rbrace].
Proof.
  induction body as [|c body IH]; intros d Hd H; cbn [closes_at_end] in H; [discriminate|].
  pose proof (brace_delta_range c) as R.
  destruct (d + brace_delta c =? 0) eqn:E.
  - apply Z.eqb_eq in E. destruct body; [|discriminate]. exists [].
    unfold brace_delta, b2z in E.
    destruct (Ascii.eqb_spec c rbrace) as [->|N]; [reflexivity|].
    destruct (Ascii.eqb c lbrace); lia.
  - apply Z.eqb_neq in E.
    destruct (IH (d + brace_delta c) ltac:(lia) H) as [b ->].
    exists (c :: b). reflexivity.
Qed.

(** A search goes through a balanced fragment in which the pattern
    does not occur. *)
Lemma index_of_over_balanced (x : ascii) (p s y : str) :
  ~ In rbrace (x :: p) -> balanced s = true -> index_of (x :: p) s = None ->
  index_of (x :: p) (s ++ y)
  = option_map (Nat.add (List.length s)) (index_of (x :: p) y).
Proof.
  intros Hp Hb Hn. destruct (balanced_starts s Hb) as (body & -> & Hc).
  destruct (closes_last body 1 ltac:(lia) Hc) as [b ->].
  change (lbrace :: b ++ [rbrace]) with ((lbrace :: b) ++ [rbrace]) in *.
  rewrite <- app_assoc. change ([rbrace] ++ y) with (rbrace :: y).
  rewrite index_of_past; [|exact Hp | apply (index_of_None_prefix _ _ [rbrace]); exact Hn].
  rewrite length_app. cbn [List.length].
  destruct (index_of (x :: p) y); cbn [option_map]; [f_equal; lia | reflexivity].
Qed.

(** On a fragment that closes, the brace scan of the tool decoder
    stops right after it. *)
Lemma params_scan_exact (body : str) :
  forall n P rest d,
    closes_at_end d body = true -> 0 < d ->
    d + size body <= INT_MAX -> size (P ++ body ++ rest) < npos ->
    size body <= Z.of_nat n ->
    params_scan n (P ++ body ++ rest) (size P) d = Ok (size P + size body, 0).
Proof.
  induction body as [|c body IH]; intros n P rest d Hc Hd Hmax Hs Hn;
    [discriminate Hc|].
  rewrite size_cons in Hn, Hmax. pose proof (size_nonneg body) as Hb.
  destruct n as [|n]; [lia|]. cbn [params_scan].
  assert (L : size P < size (P ++ (c :: body) ++ rest)).
  { rewrite !size_app, size_cons. pose proof (size_nonneg rest). lia. }
  apply Z.ltb_lt in L. rewrite L. apply Z.ltb_lt in L.
  destruct (0 <? d) eqn:D; [|apply Z.ltb_ge in D; lia]. cbn [andb].
  cbn [app]. rewrite index_mid. cbn [bind].
  pose proof (brace_delta_range c) as R.
  assert (A : (if Ascii.eqb c lbrace then int_add d 1
               else if Ascii.eqb c rbrace then int_add d (-1) else Ok d)
              = Ok (d + brace_delta c)).
  { unfold brace_delta, b2z.
    destruct (Ascii.eqb_spec c lbrace) as [->|N1].
    - change (Ascii.eqb lbrace rbrace) with false.
      rewrite int_add_ok by (unfold INT_MIN, INT_MAX in *; lia). f_equal; lia.
    - destruct (Ascii.eqb c rbrace).
      + rewrite int_add_ok by (unfold INT_MIN, INT_MAX in *; lia). f_equal; lia.
      + f_equal; lia. }
  rewrite A. cbn [bind].
  pose proof (size_nonneg P) as HP.
  rewrite wrap_small by (rewrite npos_eq in Hs; unfold size_modulus; lia).
  cbn [closes_at_end] in Hc.
  destruct (d + brace_delta c =? 0) eqn:E.
  - apply Z.eqb_eq in E. rewrite E.
    destruct body; [|discriminate]. rewrite size_cons, size_nil.
    destruct n; cbn [params_scan]; change (0 <? 0) with false;
      rewrite andb_false_r; reflexivity.
  - apply Z.eqb_neq in E.
    replace (P ++ c :: body ++ rest) with ((P ++ [c]) ++ body ++ rest)
      by (rewrite <- app_assoc; reflexivity).
    replace (size P + 1) with (size (P ++ [c]))
      by (rewrite size_app, size_cons, size_nil; lia).
    rewrite IH; try lia; try exact Hc.
    + rewrite size_app, !size_cons, size_nil. f_equal. f_equal. lia.
    + rewrite <- app_assoc. exact Hs.
Qed.

End SearchFacts.

Section QuotedKeys.

Variable key : str.

Lemma index_of_skip_q (a b : str) :
  ~ In dquote a ->
  index_of (quoted key) (a ++ b)
  = option_map (Nat.add (List.length a)) (index_of (quoted key) b).
Proof. apply index_of_skip. Qed.

Lemma index_of_over_balanced_q (s y : str) :
  ~ In rbrace key -> balanced s = true ->
  contains (quoted key) s = false ->
  index_of (quoted key) (s ++ y)
  = option_map (Nat.add (List.length s)) (index_of (quoted key) y).
Proof.
  intros Hk Hb Hc. apply index_of_over_balanced; [|exact Hb|].
  - intros [H|H]; [discriminate H|]. apply in_app_or in H.
    destruct H as [H|[H|[]]]; [exact (Hk H) | discriminate H].
  - unfold contains in Hc. unfold quoted in Hc.
    destruct (index_of (dquote :: key ++ [dquote]) s); [discriminate | reflexivity].
Qed.

End QuotedKeys.

Lemma format_tool_text (t : ToolFunction) (schema : str) :
  parameters t = [(SCHEMA, schema)] ->
  format_tool 0 t = tool_text (name t) (description t) schema.
Proof.
  intros E. unfold format_tool, tool_text. rewrite E.
  change (smap_find [(SCHEMA, schema)] SCHEMA) with (Some schema).
  change (0 <? 0) with false. cbv iota.
  unfold FT_OPEN, FT_MARKER, FT_INNER, FT_VALUE, FT_NEXT, FT_CLOSE, quoted.
  cbn [lit list_ascii_of_string].
  repeat (rewrite <- ?app_assoc; cbn [app]). reflexivity.
Qed.

(** * One formatted tool, decoded *)

(** Walks a search for a quoted key through a text made of known
    characters, texts without quotes and balanced fragments. *)
Ltac walk key :=
  repeat first
    [ rewrite index_of_miss by reflexivity
    | rewrite index_of_hit by reflexivity
    | rewrite index_of_miss
        by (apply starts_with_quoted_neq;
            [ vm_compute; intros H; repeat (destruct H as [H|H]; [discriminate H|]); exact H
            | assumption | assumption ])
    | rewrite (index_of_skip_q key) by assumption
    | rewrite (index_of_over_balanced_q key)
        by (first [ assumption
                  | vm_compute; intros H;
                    repeat (destruct H as [H|H]; [discriminate H|]); exact H ]) ];
  cbn [option_map].

Ltac flat :=
  unfold tool_text, FT_OPEN, FT_MARKER, FT_INNER, FT_VALUE, FT_NEXT, FT_CLOSE;
  repeat (rewrite <- ?app_assoc; cbn [app lit list_ascii_of_string quoted]).

Ltac lens :=
  unfold size;
  repeat (rewrite ?length_app;
          cbn [List.length app lit list_ascii_of_string quoted
               FT_OPEN FT_MARKER FT_INNER FT_VALUE FT_NEXT FT_CLOSE]).

Section ToolSearches.

Variables n d schema : str.
Hypothesis n_plain : ~ In dquote n.
Hypothesis d_plain : ~ In dquote d.
Hypothesis n_not_description : n <> lit "description".
Hypothesis n_not_parameters : n <> lit "parameters".
Hypothesis n_not_function : n <> lit "function".
Hypothesis d_not_parameters : d <> lit "parameters".
Hypothesis d_not_function : d <> lit "function".
Hypothesis schema_balanced : balanced schema = true.
Hypothesis schema_plain : contains (quoted (lit "function")) schema = false.

(** The text of a tool from its marker on, and from its name key on. *)
Lemma name_key_found (R : str) :
  index_of (quoted (lit "name"))
    (FT_MARKER ++ FT_INNER ++ quoted (lit "name") ++ R)
  = Some (List.length (FT_MARKER ++ FT_INNER)).
Proof.
  set (pat := quoted (lit "name")) at 1.
  unfold FT_MARKER, FT_INNER.
  repeat (rewrite <- ?app_assoc; cbn [app lit list_ascii_of_string quoted]).
  subst pat. walk (lit "name"). reflexivity.
Qed.

Lemma description_key_found (R : str) :
  index_of (quoted (lit "description"))
    (FT_MARKER ++ FT_INNER ++ quoted (lit "name") ++ FT_VALUE ++ n ++ FT_NEXT
       ++ quoted (lit "description") ++ R)
  = Some (List.length (FT_MARKER ++ FT_INNER ++ quoted (lit "name") ++ FT_VALUE
                         ++ n ++ FT_NEXT)).
Proof.
  set (pat := quoted (lit "description")) at 1.
  unfold FT_MARKER, FT_INNER, FT_VALUE, FT_NEXT.
  repeat (rewrite <- ?app_assoc; cbn [app lit list_ascii_of_string quoted]).
  subst pat. walk (lit "description").
  f_equal. repeat (rewrite ?length_app; cbn [List.length]). lia.
Qed.

Lemma parameters_key_found (R : str) :
  index_of (quoted (lit "parameters"))
    (FT_MARKER ++ FT_INNER ++ quoted (lit "name") ++ FT_VALUE ++ n ++ FT_NEXT
       ++ quoted (lit "description") ++ FT_VALUE ++ d ++ FT_NEXT
       ++ quoted (lit "parameters") ++ R)
  = Some (List.length (FT_MARKER ++ FT_INNER ++ quoted (lit "name") ++ FT_VALUE
                         ++ n ++ FT_NEXT ++ quoted (lit "description") ++ FT_VALUE
                         ++ d ++ FT_NEXT)).
Proof.
  set (pat := quoted (lit "parameters")) at 1.
  unfold FT_MARKER, FT_INNER, FT_VALUE, FT_NEXT.
  repeat (rewrite <- ?app_assoc; cbn [app lit list_ascii_of_string quoted]).
  subst pat. walk (lit "parameters").
  f_equal. repeat (rewrite ?length_app; cbn [List.length]). lia.
Qed.

Lemma next_marker_found (post : str) :
  index_of (quoted (lit "function"))
    (quoted (lit "name") ++ FT_VALUE ++ n ++ FT_NEXT
       ++ quoted (lit "description") ++ FT_VALUE ++ d ++ FT_NEXT
       ++ quoted (lit "parameters") ++ lit ": " ++ schema ++ FT_CLOSE ++ post)
  = option_map
      (Nat.add (List.length (quoted (lit "name") ++ FT_VALUE ++ n ++ FT_NEXT
                               ++ quoted (lit "description") ++ FT_VALUE ++ d ++ FT_NEXT
                               ++ quoted (lit "parameters") ++ lit ": " ++ schema
                               ++ FT_CLOSE)))
      (index_of (quoted (lit "function")) post).
Proof.
  set (pat := quoted (lit "function")) at 1.
  set (pat' := quoted (lit "function")) at 1.
  unfold FT_VALUE, FT_NEXT, FT_CLOSE.
  repeat (rewrite <- ?app_assoc; cbn [app lit list_ascii_of_string quoted]).
  subst pat pat'. walk (lit "function").
  destruct (index_of (quoted (lit "function")) post); cbn [option_map]; [|reflexivity].
  f_equal. repeat (rewrite ?length_app; cbn [List.length]). lia.
Qed.

End ToolSearches.

Section ToolBody.

Variable fuel : nat.
Variables json pre post : str.
Variables n d schema : str.
Hypothesis Hj : json = pre ++ tool_text n d schema ++ post.
Hypothesis json_short : size json <= INT_MAX.
Hypothesis enough_fuel : size json <= Z.of_nat fuel.
Hypothesis n_plain : ~ In dquote n.
Hypothesis d_plain : ~ In dquote d.
Hypothesis n_not_description : n <> lit "description".
Hypothesis n_not_parameters : n <> lit "parameters".
Hypothesis n_not_function : n <> lit "function".
Hypothesis d_not_parameters : d <> lit "parameters".
Hypothesis d_not_function : d <> lit "function".
Hypothesis schema_balanced : balanced schema = true.
Hypothesis schema_plain : contains (quoted (lit "function")) schema = false.

Ltac same := rewrite Hj; unfold tool_text; repeat (rewrite <- ?app_assoc; cbn [app]);
             reflexivity.

(** One turn of the loop on the text of a tool: the tool is appended
    and the search goes on after its text. *)
Lemma tools_body_formatted (tools : list ToolFunction) :
  tools_body fuel json (size (pre ++ FT_OPEN)) tools
  = Ok (match index_of (quoted (lit "function")) post with
        | Some k => size (pre ++ tool_text n d schema) + Z.of_nat k
        | None => npos
        end,
        tools ++ [{| name := n; description := d; parameters := [(SCHEMA, schema)] |}]).
Proof.
  destruct (balanced_starts schema schema_balanced) as (body & Es & Hc).
  set (KN := quoted (lit "name")). set (KD := quoted (lit "description")).
  set (KP := quoted (lit "parameters")).
  set (P0 := pre ++ FT_OPEN).
  set (P1 := P0 ++ FT_MARKER ++ FT_INNER).
  set (P2 := P1 ++ KN).
  set (P3 := P2 ++ FT_VALUE).
  set (P4 := P3 ++ n).
  set (P5 := P4 ++ FT_NEXT).
  set (P6 := P5 ++ KD).
  set (P7 := P6 ++ FT_VALUE).
  set (P8 := P7 ++ d).
  set (P9 := P8 ++ FT_NEXT).
  set (P10 := P9 ++ KP ++ lit ": ").
  set (R10 := FT_CLOSE ++ post).
  set (R8 := FT_NEXT ++ KP ++ lit ": " ++ schema ++ R10).
  set (R4 := FT_NEXT ++ KD ++ FT_VALUE ++ d ++ R8).
  assert (J0 : json = P0 ++ FT_MARKER ++ FT_INNER ++ KN ++ FT_VALUE ++ n ++ R4)
    by (unfold P0, R4, R8, R10, KN, KD, KP; same).
  assert (J1 : json = P1 ++ KN ++ FT_VALUE ++ n ++ R4)
    by (unfold P1, P0, R4, R8, R10, KN, KD, KP; same).
  assert (J2 : json = P2 ++ lit ": " ++ dquote :: (n ++ R4))
    by (unfold P2, P1, P0, R4, R8, R10, KN, KD, KP, FT_VALUE; same).
  assert (J3 : json = P3 ++ n ++ dquote :: (tl R4))
    by (unfold P3, P2, P1, P0, R4, R8, R10, KN, KD, KP, FT_VALUE, FT_NEXT; same).
  assert (J6 : json = P6 ++ lit ": " ++ dquote :: (d ++ R8))
    by (unfold P6, P5, P4, P3, P2, P1, P0, R8, R10, KN, KD, KP, FT_VALUE; same).
  assert (J7 : json = P7 ++ d ++ dquote :: (tl R8))
    by (unfold P7, P6, P5, P4, P3, P2, P1, P0, R8, R10, KN, KD, KP, FT_VALUE, FT_NEXT; same).
  assert (J9 : json = P9 ++ (KP ++ lit ": ") ++ lbrace :: (body ++ R10))
    by (unfold P9, P8, P7, P6, P5, P4, P3, P2, P1, P0, R10, KN, KD, KP; rewrite Hj, Es;
        unfold tool_text; repeat (rewrite <- ?app_assoc; cbn [app]); reflexivity).
  assert (J10 : json = P10 ++ schema ++ R10)
    by (unfold P10, P9, P8, P7, P6, P5, P4, P3, P2, P1, P0, R10, KN, KD, KP; same).
  assert (J11 : json = (P10 ++ [lbrace]) ++ body ++ R10)
    by (rewrite J10, Es; repeat (rewrite <- ?app_assoc; cbn [app]); reflexivity).
  assert (Hn : size json < npos) by (rewrite npos_eq; unfold INT_MAX in json_short; lia).
  assert (B : forall P rest, json = P ++ rest -> 0 <= size P <= size json).
  { intros P rest ->. rewrite size_app.
    pose proof (size_nonneg P). pose proof (size_nonneg rest). lia. }
  assert (W : forall z, 0 <= z <= size json + 1 -> wrap z = z).
  { intros z Hz. apply wrap_small. rewrite npos_eq in Hn. unfold size_modulus. lia. }
  assert (N : forall z, z <= size json -> (z =? npos) = false)
    by (intros z Hz; apply Z.eqb_neq; lia).
  pose proof (B _ _ J0) as B0. pose proof (B _ _ J1) as B1. pose proof (B _ _ J2) as B2.
  pose proof (B _ _ J3) as B3. pose proof (B _ _ J6) as B6. pose proof (B _ _ J7) as B7.
  pose proof (B _ _ J9) as B9. pose proof (B _ _ J10) as B10.
  assert (S2 : size P2 = size P1 + 6) by (unfold P2; rewrite size_app; reflexivity).
  assert (S3 : size P3 = size P2 + 3) by (unfold P3; rewrite size_app; reflexivity).
  assert (S4 : size P4 = size P3 + size n) by (unfold P4; rewrite size_app; reflexivity).
  assert (S5 : size P5 = size P4 + 9) by (unfold P5; rewrite size_app; reflexivity).
  assert (S6 : size P6 = size P5 + 13) by (unfold P6; rewrite size_app; reflexivity).
  assert (S7 : size P7 = size P6 + 3) by (unfold P7; rewrite size_app; reflexivity).
  assert (S8 : size P8 = size P7 + size d) by (unfold P8; rewrite size_app; reflexivity).
  assert (S9 : size P9 = size P8 + 9) by (unfold P9; rewrite size_app; reflexivity).
  assert (S10 : size P10 = size P9 + 14) by (unfold P10; rewrite size_app; reflexivity).
  assert (Ss : size schema = 1 + size body) by (rewrite Es; apply size_cons).
  pose proof (size_nonneg n) as Zn. pose proof (size_nonneg d) as Zd.
  pose proof (size_nonneg body) as Zb.
  assert (Sj : size json = size P10 + size schema + size R10)
    by (rewrite J10 at 1; rewrite !size_app; lia).
  pose proof (size_nonneg R10) as Zr.
  (* the positions *)
  assert (E1 : find json KN (size P0) = size P1).
  { rewrite J0 at 1. rewrite find_from_prefix. unfold KN. rewrite name_key_found.
    unfold P1. rewrite size_app. reflexivity. }
  assert (E2 : find_chr json dquote (size P2) = size P2 + 2).
  { rewrite J2 at 1. rewrite find_chr_skip; [reflexivity|].
    intros H. repeat (destruct H as [H|H]; [discriminate H|]). exact H. }
  assert (E3 : find_chr json dquote (size P3) = size P4).
  { rewrite J3 at 1. rewrite find_chr_skip by exact n_plain. lia. }
  assert (E4 : substr json (size P3) (size n) = Ok n).
  { rewrite J3 at 1. apply substr_mid. }
  assert (E5 : find json KD (size P0) = size P5).
  { rewrite J0 at 1. rewrite find_from_prefix. unfold R4, KN, KD.
    rewrite (description_key_found n n_plain n_not_description).
    unfold P5, P4, P3, P2, P1, KN. rewrite !size_app. unfold size.
    rewrite !length_app. lia. }
  assert (E6 : find_chr json dquote (size P6) = size P6 + 2).
  { rewrite J6 at 1. rewrite find_chr_skip; [reflexivity|].
    intros H. repeat (destruct H as [H|H]; [discriminate H|]). exact H. }
  assert (E7 : find_chr json dquote (size P7) = size P8).
  { rewrite J7 at 1. rewrite find_chr_skip by exact d_plain. lia. }
  assert (E8 : substr json (size P7) (size d) = Ok d).
  { rewrite J7 at 1. apply substr_mid. }
  assert (E9 : find json KP (size P0) = size P9).
  { rewrite J0 at 1. rewrite find_from_prefix. unfold R4, R8, KN, KD, KP.
    rewrite (parameters_key_found n d n_plain d_plain n_not_parameters d_not_parameters).
    unfold P9, P8, P7, P6, P5, P4, P3, P2, P1, KN, KD. rewrite !size_app. unfold size.
    rewrite !length_app. lia. }
  assert (E10 : find_chr json lbrace (size P9) = size P10).
  { rewrite J9 at 1. rewrite find_chr_skip.
    - unfold P10. rewrite (size_app P9). reflexivity.
    - intros H. vm_compute in H. repeat (destruct H as [H|H]; [discriminate H|]). exact H. }
  assert (E11 : params_scan fuel json (size P10 + 1) 1 = Ok (size P10 + size schema, 0)).
  { replace (size P10 + 1) with (size (P10 ++ [lbrace]))
      by (rewrite size_app, size_cons, size_nil; lia).
    rewrite J11 at 1. rewrite params_scan_exact;
      [ | exact Hc | lia | unfold INT_MAX in *; lia | rewrite <- J11; exact Hn | lia ].
    rewrite size_app, size_cons, size_nil. f_equal. f_equal. lia. }
  assert (E12 : substr json (size P10) (size schema) = Ok schema).
  { rewrite J10 at 1. apply substr_mid. }
  assert (E13 : find json (quoted (lit "function")) (size P1)
                = match index_of (quoted (lit "function")) post with
                  | Some k => size (pre ++ tool_text n d schema) + Z.of_nat k
                  | None => npos
                  end).
  { rewrite J1 at 1. rewrite find_from_prefix. unfold R4, R8, R10, KN, KD, KP.
    rewrite (next_marker_found n d schema n_plain d_plain n_not_function d_not_function
               schema_balanced schema_plain).
    destruct (index_of (quoted (lit "function")) post); cbn [option_map]; [|reflexivity].
    unfold P1, P0, tool_text. rewrite !size_app. unfold size.
    rewrite !length_app. lia. }
  unfold tools_body. cbv zeta. fold KN KD KP. fold P0.
  rewrite E1, (N (size P1)) by lia. cbn [negb].
  rewrite <- S2, (W (size P2)) by lia. rewrite E2.
  replace (size P2 + 2 + 1) with (size P3) by lia. rewrite (W (size P3)) by lia.
  rewrite E3.
  replace (size P4 - size P3) with (size n) by lia. rewrite (W (size n)) by lia.
  rewrite E4. cbn [bind].
  rewrite E5, (N (size P5)) by lia. cbn [negb].
  rewrite <- S6, (W (size P6)) by lia. rewrite E6.
  replace (size P6 + 2 + 1) with (size P7) by lia. rewrite (W (size P7)) by lia.
  rewrite E7.
  replace (size P8 - size P7) with (size d) by lia. rewrite (W (size d)) by lia.
  rewrite E8. cbn [bind].
  rewrite E9, (N (size P9)) by lia. cbn [negb].
  rewrite E10, (N (size P10)) by lia. cbn [negb].
  rewrite (W (size P10 + 1)) by lia. rewrite E11. cbn [bind].
  replace (size P10 + size schema - size P10) with (size schema) by lia.
  rewrite (W (size schema)) by lia. rewrite E12. cbn [bind].
  rewrite E13. reflexivity.
Qed.

End ToolBody.

Section ToolList.

Variable fuel : nat.
Variable json : str.
Hypothesis json_short : size json <= INT_MAX.
Hypothesis enough_fuel : size json <= Z.of_nat fuel.
Variable tail : str.
Hypothesis tail_plain : index_of (quoted (lit "function")) tail = None.

Lemma marker_after_separator (n d schema R : str) :
  index_of (quoted (lit "function")) (TOOL_SEPARATOR ++ tool_text n d schema ++ R)
  = Some (List.length (TOOL_SEPARATOR ++ FT_OPEN)).
Proof.
  set (pat := quoted (lit "function")) at 1.
  unfold TOOL_SEPARATOR, tool_text, FT_OPEN, FT_MARKER.
  repeat (rewrite <- ?app_assoc; cbn [app lit list_ascii_of_string quoted]).
  subst pat. walk (lit "function"). reflexivity.
Qed.

Lemma round_trip_tool_text (t : ToolFunction) :
  round_trip_tool t ->
  exists schema,
    format_tool 0 t = tool_text (name t) (description t) schema
    /\ t = {| name := name t; description := description t;
              parameters := [(SCHEMA, schema)] |}
    /\ balanced schema = true
    /\ contains (quoted (lit "function")) schema = false.
Proof.
  intros ((schema & E & Hb & Hc) & _). exists schema.
  split; [apply format_tool_text; exact E|]. split; [|split; assumption].
  destruct t as [n d p]. cbn [name description parameters] in *. rewrite E. reflexivity.
Qed.

Lemma open_within (pre n d schema R : str) :
  size (pre ++ FT_OPEN) <= size (pre ++ tool_text n d schema ++ R).
Proof.
  unfold tool_text. repeat rewrite <- app_assoc. rewrite (app_assoc pre FT_OPEN).
  rewrite (size_app (pre ++ FT_OPEN)).
  match goal with |- _ <= _ + size ?r => pose proof (size_nonneg r) end. lia.
Qed.

(** The loop of lines 95-130 on the text of a list of tools: one
    record each, equal to the tool that was written. *)
Lemma tools_loop_formatted (ts : list ToolFunction) :
  forall pre tools k,
    ts <> [] -> Forall round_trip_tool ts ->
    json = pre ++ join TOOL_SEPARATOR (map (format_tool 0) ts) ++ tail ->
    (List.length ts <= k)%nat ->
    tools_loop fuel k json (size (pre ++ FT_OPEN)) tools = Ok (tools ++ ts).
Proof.
  induction ts as [|t ts IH]; intros pre tools k Hne Hwf Hj Hk; [congruence|].
  destruct k as [|k]; [simpl in Hk; lia|].
  pose proof (Forall_inv Hwf) as Ht. pose proof (Forall_inv_tail Hwf) as Hts.
  destruct (round_trip_tool_text t Ht) as (schema & Et & Er & Hb & Hc).
  destruct Ht as (_ & Hn & Hd & N1 & N2 & N3 & D1 & D2).
  assert (Hn0 : size json < npos) by (rewrite npos_eq; unfold INT_MAX in json_short; lia).
  cbn [tools_loop].
  destruct ts as [|t2 ts].
  - cbn [map join] in Hj. rewrite Et in Hj.
    assert (Hpos : (size (pre ++ FT_OPEN) =? npos) = false).
    { apply Z.eqb_neq.
      pose proof (open_within pre (name t) (description t) schema tail) as O.
      rewrite <- Hj in O. lia. }
    rewrite Hpos.
    rewrite (tools_body_formatted fuel json pre tail (name t) (description t) schema
               Hj json_short enough_fuel Hn Hd N1 N2 N3 D1 D2 Hb Hc).
    cbn [bind]. rewrite tail_plain, tools_loop_at_npos. rewrite <- Er. reflexivity.
  - pose proof (Forall_inv Hts) as Ht2.
    destruct (round_trip_tool_text t2 Ht2) as (schema2 & Et2 & _).
    rewrite map_cons, map_cons, join_step in Hj. rewrite <- map_cons in Hj.
    assert (Hj1 : json = pre ++ tool_text (name t) (description t) schema
                          ++ (TOOL_SEPARATOR ++ join TOOL_SEPARATOR
                                                  (map (format_tool 0) (t2 :: ts)) ++ tail)).
    { rewrite Hj, Et. repeat rewrite <- app_assoc. reflexivity. }
    assert (Hpos : (size (pre ++ FT_OPEN) =? npos) = false).
    { apply Z.eqb_neq.
      pose proof (open_within pre (name t) (description t) schema
                    (TOOL_SEPARATOR ++ join TOOL_SEPARATOR
                                         (map (format_tool 0) (t2 :: ts)) ++ tail)) as O.
      rewrite <- Hj1 in O. lia. }
    rewrite Hpos.
    rewrite (tools_body_formatted fuel json pre _ (name t) (description t) schema
               Hj1 json_short enough_fuel Hn Hd N1 N2 N3 D1 D2 Hb Hc).
    cbn [bind].
    assert (M : index_of (quoted (lit "function"))
                  (TOOL_SEPARATOR ++ join TOOL_SEPARATOR (map (format_tool 0) (t2 :: ts))
                     ++ tail)
                = Some (List.length (TOOL_SEPARATOR ++ FT_OPEN))).
    { destruct ts as [|t3 ts].
      - cbn [map join]. rewrite Et2. apply marker_after_separator.
      - rewrite map_cons, map_cons, join_step, Et2. rewrite <- app_assoc.
        apply marker_after_separator. }
    rewrite M.
    replace (size (pre ++ tool_text (name t) (description t) schema)
             + Z.of_nat (List.length (TOOL_SEPARATOR ++ FT_OPEN)))
      with (size ((pre ++ format_tool 0 t ++ TOOL_SEPARATOR) ++ FT_OPEN))
      by (rewrite Et, !size_app; unfold size; rewrite !length_app; lia).
    rewrite (IH (pre ++ format_tool 0 t ++ TOOL_SEPARATOR) _ k).
    + rewrite <- Er, <- app_assoc. reflexivity.
    + discriminate.
    + exact Hts.
    + rewrite Hj. repeat rewrite <- app_assoc. reflexivity.
    + simpl in Hk |- *. lia.
Qed.

End ToolList.



